(** * naudiodon: the PortAudio stream context (src/PaContext.cc)

    A shallow embedding of [PaContext.cc]: the realtime callback, the
    constructor's configuration checks, the error-string hand-off and the
    buffer fill/drain loop that serves fixed-size requests from a queue of
    variable-size chunks.

    Conventions.
    - [uint32_t] values are integers of [Z]; every arithmetic result the
      source stores in a [uint32_t] is wrapped with [u32].
    - [double] values are binary64 primitive floats.
    - Raw buffers are lists of bytes; a null [shared_ptr] or pointer is [None].
    - A call that does not return normally yields one of the other
      constructors of [res]: it blocks on a queue, dereferences a null
      pointer, or throws. *)

From Stdlib Require Import String ZArith List Bool Lia Floats Uint63.
From Stdlib Require Import Strings.Byte.
Import ListNotations.

Open Scope Z_scope.

(** ** Machine integers and doubles *)

Definition u32 (z : Z) : Z := z mod 2 ^ 32.

(** [(int32_t)x]: the two's complement reading of the low 32 bits. *)
Definition int32_cast (z : Z) : Z :=
  if u32 z <? 2 ^ 31 then u32 z else u32 z - 2 ^ 32.

(** [(double)x] for an unsigned 32-bit [x]. *)
Definition to_double (z : Z) : float := PrimFloat.of_uint63 (Uint63.of_Z z).

(** ** Outcomes of a call *)

Inductive res (A : Type) : Type :=
| Ok (a : A)              (* normal return *)
| Blocks                  (* waits on a condition variable for another thread *)
| NullDeref               (* dereferences a null pointer *)
| Throws (msg : string)   (* throws a Napi::Error *)
| OutOfFuel.              (* the iteration budget of the model ran out *)

Arguments Ok {A} a.
Arguments Blocks {A}.
Arguments NullDeref {A}.
Arguments Throws {A} msg.
Arguments OutOfFuel {A}.

Definition bind {A B : Type} (m : res A) (k : A -> res B) : res B :=
  match m with
  | Ok a => k a
  | Blocks => Blocks
  | NullDeref => NullDeref
  | Throws msg => Throws msg
  | OutOfFuel => OutOfFuel
  end.

Notation "x <- m ;; k" := (bind m (fun x => k))
  (at level 61, m at next level, right associativity).

(** [p->...] on a possibly null pointer. *)
Definition deref {A : Type} (p : option A) : res A :=
  match p with
  | Some a => Ok a
  | None => NullDeref
  end.

(** ** Memory and Chunk *)

(** Modelled from the spec: the [Memory] class (Memory.h is not among the
    sources verified here).  A buffer of bytes whose length is fixed at
    creation. *)
Definition Memory : Type := list byte.

(** Modelled from the spec: [Memory::numBytes()], the length of the buffer. *)
Definition numBytesOf (m : Memory) : Z := Z.of_nat (length m).

(** Modelled from the spec: [Memory::makeNew(n)] allocates [n] bytes; their
    initial contents are whatever the allocator leaves there, given here by
    [garbage]. *)
Definition makeNew (garbage : nat -> byte) (n : Z) : Memory :=
  map garbage (seq 0 (Z.to_nat n)).

(** [memcpy(dst + off, src, n)] and [memset(dst + off, 0, n)], for ranges that
    lie inside both buffers (anything else is undefined in the source). *)
Definition memcpy (dst : Memory) (off : Z) (src : Memory) (n : Z) : Memory :=
  firstn (Z.to_nat off) dst ++ firstn (Z.to_nat n) src
    ++ skipn (Z.to_nat (off + n)) dst.

Definition memset0 (dst : Memory) (off : Z) (n : Z) : Memory :=
  firstn (Z.to_nat off) dst ++ repeat x00 (Z.to_nat n)
    ++ skipn (Z.to_nat (off + n)) dst.

(** Modelled from the spec: the [Chunk] class (Chunks.h is not among the
    sources verified here).  A buffer paired with the stream time of its
    first byte.  The buffer is a [shared_ptr<Memory>], which [pullInChunk]
    leaves null for the end-of-stream result. *)
Record Chunk : Type := mkChunk {
  chunk : option Memory;
  ts : float
}.

(** Modelled from the spec: the length of a chunk, 0 without a buffer. *)
Definition chunkBytes (c : Chunk) : Z :=
  match chunk c with
  | Some m => numBytesOf m
  | None => 0
  end.

(** ** ChunkQueue *)

(** Modelled from the spec: the [Chunks] queue (Chunks.h is not among the
    sources verified here), section 4.2.  [current] is the chunk being
    consumed, [headOffset] the bytes of it already consumed, [queued] the
    chunks behind it in insertion order, [maxQueued] the capacity
    (0 = unbounded). *)
Record Chunks : Type := mkChunks {
  current : option Chunk;
  headOffset : Z;
  queued : list Chunk;
  maxQueued : Z;
  quitting : bool
}.

(** Modelled from the spec: a queue is created empty. *)
Definition newChunks (maxQueue : Z) : Chunks :=
  mkChunks None 0 [] maxQueue false.

(** Modelled from the spec: the read accessors into the current chunk.
    [curBuf] is the "no current buffer" signal when it is null. *)
Definition curBuf (q : Chunks) : option Memory :=
  match current q with
  | Some c => chunk c
  | None => None
  end.

(** Modelled from the spec: [currentBytes()]. *)
Definition curBytes (q : Chunks) : Z :=
  match current q with
  | Some c => chunkBytes c
  | None => 0
  end.

(** Modelled from the spec: [currentOffset()]. *)
Definition curOffset (q : Chunks) : Z := headOffset q.

(** Modelled from the spec: [currentTimestamp()]. *)
Definition curTs (q : Chunks) : float :=
  match current q with
  | Some c => ts c
  | None => 0%float
  end.

(** Modelled from the spec: [incOffset(n)] advances [headOffset] by [n]. *)
Definition incOffset (n : Z) (q : Chunks) : Chunks :=
  mkChunks (current q) (u32 (headOffset q + n)) (queued q) (maxQueued q)
           (quitting q).

(** Modelled from the spec: [waitNext()].  When the current chunk is absent or
    fully consumed it pops the next queued chunk and resets the offset; on an
    empty queue it blocks, unless [quit()] was called, in which case it leaves
    the current-chunk state empty.  The spec is silent on a call made while
    the current chunk still has unconsumed bytes; the state is left as it is
    (the fill loop never makes such a call). *)
Definition waitNext (q : Chunks) : res Chunks :=
  let consumed :=
    match current q with
    | Some c => headOffset q =? chunkBytes c
    | None => true
    end in
  if consumed then
    match queued q with
    | c :: rest => Ok (mkChunks (Some c) 0 rest (maxQueued q) (quitting q))
    | [] =>
        if quitting q
        then Ok (mkChunks None 0 [] (maxQueued q) true)
        else Blocks
    end
  else Ok q.

(** Modelled from the spec: [push(chunk)].  After [quit()] it is a no-op; a
    bounded queue at capacity blocks the caller. *)
Definition push (c : Chunk) (q : Chunks) : res Chunks :=
  if quitting q then Ok q
  else if (0 <? maxQueued q) && (maxQueued q <=? Z.of_nat (length (queued q)))
  then Blocks
  else Ok (mkChunks (current q) (headOffset q) (queued q ++ [c])
                    (maxQueued q) false).

(** Modelled from the spec: [quit()] sets the quitting flag, permanently. *)
Definition quit (q : Chunks) : Chunks :=
  mkChunks (current q) (headOffset q) (queued q) (maxQueued q) true.

(** ** AudioOptions *)

(** Modelled from the spec: the accessors of [AudioOptions] that PaContext.cc
    calls (Params.h is not among the sources verified here); the options
    reach the constructor already read from the host's objects. *)
Record AudioOptions : Type := mkAudioOptions {
  deviceID : Z;
  sampleRate : Z;
  channelCount : Z;
  sampleFormat : Z;
  sampleBits : Z;
  maxQueue : Z;
  closeOnError : bool
}.

(** ** PaContext *)

(** What the program prints on standard output, one constructor per [printf]. *)
Inductive Output : Type :=
| PrintFinishing (isInput : bool) (numBytes : Z)
    (* "Finishing %s - %d bytes not available to fill the last buffer\n" *)
| PrintAudioIO (err : string)        (* "AudioIO: %s\n" *)
| PrintVersion                        (* Pa_GetVersionInfo()->versionText *)
| PrintOptions (isInput : bool) (o : AudioOptions)
    (* "Input %s\n" / "Output %s\n" *)
| PrintDevice (isInput : bool) (device : Z).
    (* "%s device name is %s\n" *)

Record PaContext : Type := mkPaContext {
  mInOptions : option AudioOptions;
  mOutOptions : option AudioOptions;
  mInChunks : Chunks;
  mOutChunks : Chunks;
  mInLatency : float;
  mErrStr : string
}.

(** Modelled from the spec: [hasInput()] and [hasOutput()] (PaContext.h),
    whether the direction is configured. *)
Definition hasInput (this : PaContext) : bool :=
  match mInOptions this with Some _ => true | None => false end.

(** Modelled from the spec: see [hasInput]. *)
Definition hasOutput (this : PaContext) : bool :=
  match mOutOptions this with Some _ => true | None => false end.

(** Modelled from the spec: [getInLatency()] (PaContext.h), the measured
    input latency. *)
Definition getInLatency (this : PaContext) : float := mInLatency this.

(** ** The fill/drain loop: [PaContext::fillBuffer] *)

(** The variables of [fillBuffer] that the loop reads and writes: the
    destination [buf] with its write position [bufOff], the bytes still
    wanted [numBytes], the [timeStamp] and [finished] reference parameters,
    the queue behind the [chunks] pointer, and the lines printed. *)
Record FillState : Type := mkFillState {
  buf : Memory;
  bufOff : Z;
  numBytes : Z;
  timeStamp : float;
  chunks : Chunks;
  finished : bool;
  printed : list Output
}.

(** [!chunks->curBuf() || (chunks->curBuf() && (chunks->curBytes() == chunks->curOffset()))] *)
Definition needsNext (q : Chunks) : bool :=
  match curBuf q with
  | None => true
  | Some _ => curBytes q =? curOffset q
  end.

(** [(double)chunks->curOffset() / channelCount / (sampleBits / 8) / sampleRate] *)
Definition timeOffset (o : AudioOptions) (offset : Z) : float :=
  (to_double offset / to_double (channelCount o)
     / to_double (sampleBits o / 8) / to_double (sampleRate o))%float.

(** The [printf], [memset], [finished = true] that precede the [break]. *)
Definition finishFill (isInput : bool) (st : FillState) (q : Chunks)
  : FillState :=
  mkFillState (memset0 (buf st) (bufOff st) (numBytes st))
              (bufOff st) (numBytes st) (timeStamp st) q true
              (printed st ++ [PrintFinishing isInput (numBytes st)]).

(** [std::min<uint32_t>(numBytes, chunks->curBytes() - chunks->curOffset())] *)
Definition copyBytes (numBytes : Z) (q : Chunks) : Z :=
  Z.min numBytes (u32 (curBytes q - curOffset q)).

(** The rest of the loop body once a current chunk is there: the timestamp on
    the input path while nothing has been written yet, the copy, and the
    three counters. *)
Definition copyFill (this : PaContext) (isInput : bool) (st : FillState)
    (q : Chunks) : res FillState :=
  stamp <- (if (0 =? bufOff st) && isInput
            then o <- deref (mInOptions this) ;;
                 Ok (curTs q + timeOffset o (curOffset q))%float
            else Ok (timeStamp st)) ;;
  let n := copyBytes (numBytes st) q in
  cur <- deref (curBuf q) ;;
  let srcBuf := skipn (Z.to_nat (curOffset q)) cur in
  Ok (mkFillState (memcpy (buf st) (bufOff st) srcBuf n)
                  (u32 (bufOff st + n))
                  (u32 (numBytes st - n))
                  stamp
                  (incOffset n q)
                  (finished st)
                  (printed st)).

(** One pass through the body of [while (numBytes)].  The boolean tells
    whether the pass ended at the bottom of the body ([true]) or at the
    [break] ([false]). *)
Definition fillStep (this : PaContext) (isInput : bool) (st : FillState)
  : res (bool * FillState) :=
  if needsNext (chunks st) then
    q <- waitNext (chunks st) ;;
    match curBuf q with
    | None => Ok (false, finishFill isInput st q)
    | Some _ => st' <- copyFill this isInput st q ;; Ok (true, st')
    end
  else
    st' <- copyFill this isInput st (chunks st) ;; Ok (true, st').

Fixpoint fillLoop (fuel : nat) (this : PaContext) (isInput : bool)
    (st : FillState) : res FillState :=
  if numBytes st =? 0 then Ok st
  else
    match fuel with
    | O => OutOfFuel
    | S fuel' =>
        r <- fillStep this isInput st ;;
        let '(again, st') := r in
        if again then fillLoop fuel' this isInput st' else Ok st'
    end.

(** A pass that does not end the loop uses up the current chunk, so the next
    pass pops a queued chunk: two passes more than there are queued chunks
    always suffice (see [fillLoop_outcome]). *)
Definition fillFuel (q : Chunks) : nat := S (S (length (queued q))).

(** [fillBuffer(buf, numBytes, timeStamp, chunks, finished, isInput)].  The
    returned state carries the function's result in [bufOff] and its
    reference parameters in [timeStamp], [finished] and [chunks]. *)
Definition fillBuffer (this : PaContext) (dst : Memory) (n : Z)
    (q : Chunks) (fin : bool) (isInput : bool) : res FillState :=
  fillLoop (fillFuel q) this isInput
           (mkFillState dst 0 n 0%float q fin []).

(** ** The callers of the fill loop *)

(** [pullInChunk(numBytes, finished)]: the chunk handed to the caller, the
    [finished] flag, what was printed, and the context with its input queue
    advanced. *)
Definition setInChunks (this : PaContext) (q : Chunks) : PaContext :=
  mkPaContext (mInOptions this) (mOutOptions this) q (mOutChunks this)
              (mInLatency this) (mErrStr this).

Definition setOutChunks (this : PaContext) (q : Chunks) : PaContext :=
  mkPaContext (mInOptions this) (mOutOptions this) (mInChunks this) q
              (mInLatency this) (mErrStr this).

Definition pullInChunk (garbage : nat -> byte) (this : PaContext)
    (numBytes : Z) : res (Chunk * bool * list Output * PaContext) :=
  let result := makeNew garbage numBytes in
  st <- fillBuffer this result numBytes (mInChunks this) false true ;;
  let bytesRead := bufOff st in
  let result' :=
    if negb (bytesRead =? numBytes) then
      if 0 =? bytesRead then None
      else
        let trimResult := makeNew garbage bytesRead in
        Some (memcpy trimResult 0 (buf st) bytesRead)
    else Some (buf st) in
  Ok (mkChunk result' (timeStamp st), finished st, printed st,
      setInChunks this (chunks st)).

(** [pushOutChunk(chunk)] *)
Definition pushOutChunk (this : PaContext) (c : Chunk) : res PaContext :=
  q <- push c (mOutChunks this) ;;
  Ok (setOutChunks this q).

(** [frameCount * channelCount * sampleBits / 8] in [uint32_t] arithmetic. *)
Definition frameBytes (o : AudioOptions) (frameCount : Z) : Z :=
  u32 (u32 (u32 (frameCount * channelCount o) * sampleBits o) / 8).

(** [readPaBuffer(srcBuf, frameCount, inTimestamp)] *)
Definition readPaBuffer (garbage : nat -> byte) (this : PaContext)
    (srcBuf : Memory) (frameCount : Z) (inTimestamp : float)
  : res (bool * PaContext) :=
  o <- deref (mInOptions this) ;;
  let bytesAvailable := frameBytes o frameCount in
  let chunk := memcpy (makeNew garbage bytesAvailable) 0 srcBuf bytesAvailable in
  q <- push (mkChunk (Some chunk) inTimestamp) (mInChunks this) ;;
  Ok (true, setInChunks this q).

(** [fillPaBuffer(dstBuf, frameCount)]: the return value, the destination
    after the call, what was printed and the context. *)
Definition fillPaBuffer (this : PaContext) (dstBuf : Memory) (frameCount : Z)
  : res (bool * Memory * list Output * PaContext) :=
  o <- deref (mOutOptions this) ;;
  let bytesRemaining := frameBytes o frameCount in
  st <- fillBuffer this dstBuf bytesRemaining (mOutChunks this) false false ;;
  Ok (negb (finished st), buf st, printed st, setOutChunks this (chunks st)).

(** ** PortAudio *)

(** Constants of portaudio.h. *)
Definition paNoError : Z := 0.
Definition paFormatIsSupported : Z := 0.
Definition paNoDevice : Z := -1.
Definition paNoFlag : Z := 0.
Definition paFramesPerBufferUnspecified : Z := 0.

Definition paFloat32 : Z := 1.
Definition paInt32 : Z := 2.
Definition paInt24 : Z := 4.
Definition paInt16 : Z := 8.
Definition paInt8 : Z := 16.

Definition paInputUnderflow : Z := 1.
Definition paInputOverflow : Z := 2.
Definition paOutputUnderflow : Z := 4.
Definition paOutputOverflow : Z := 8.
Definition paPrimingOutput : Z := 16.

Inductive PaStreamCallbackResult : Type := paContinue | paComplete | paAbort.

Definition isComplete (r : PaStreamCallbackResult) : bool :=
  match r with paComplete => true | _ => false end.

Record PaStreamCallbackTimeInfo : Type := mkTimeInfo {
  inputBufferAdcTime : float;
  currentTime : float;
  outputBufferDacTime : float
}.

Record PaDeviceInfo : Type := mkDeviceInfo {
  maxInputChannels : Z;
  maxOutputChannels : Z;
  defaultLowInputLatency : float;
  defaultLowOutputLatency : float;
  defaultHighInputLatency : float;
  defaultHighOutputLatency : float
}.

Module Params.
(** [PaStreamParameters]; [hostApiSpecificStreamInfo] is always [NULL]. *)
Record t : Type := mk {
  device : Z;
  channelCount : Z;
  sampleFormat : Z;
  suggestedLatency : float
}.
End Params.

(** The answers of the audio engine to the calls the constructor makes.  The
    engine hands back an info record for every device index it is asked
    about. *)
Record PortAudio : Type := mkPortAudio {
  Pa_Initialize : Z;
  Pa_GetErrorText : Z -> string;
  Pa_GetDeviceCount : Z;
  Pa_GetDefaultInputDevice : Z;
  Pa_GetDefaultOutputDevice : Z;
  Pa_GetDeviceInfo : Z -> PaDeviceInfo;
  Pa_IsFormatSupported : option Params.t -> option Params.t -> float -> Z;
  Pa_OpenStream : option Params.t -> option Params.t -> float -> Z -> Z;
  streamInputLatency : float   (* Pa_GetStreamInfo(mStream)->inputLatency *)
}.

(** ** Status flags and the error string *)

Definition flagSet (statusFlags flag : Z) : bool :=
  negb (Z.land statusFlags flag =? 0).

Definition statusText (statusFlags : Z) : string :=
  let err := "portAudio status - "%string in
  let err := if flagSet statusFlags paInputUnderflow
             then (err ++ "input underflow ")%string else err in
  let err := if flagSet statusFlags paInputOverflow
             then (err ++ "input overflow ")%string else err in
  let err := if flagSet statusFlags paOutputUnderflow
             then (err ++ "output underflow ")%string else err in
  let err := if flagSet statusFlags paOutputOverflow
             then (err ++ "output overflow ")%string else err in
  let err := if flagSet statusFlags paPrimingOutput
             then (err ++ "priming output ")%string else err in
  err.

Definition setErrStr (this : PaContext) (s : string) : PaContext :=
  mkPaContext (mInOptions this) (mOutOptions this) (mInChunks this)
              (mOutChunks this) (mInLatency this) s.

(** [checkStatus(statusFlags)] *)
Definition checkStatus (this : PaContext) (statusFlags : Z) : PaContext :=
  let statusFlags := u32 statusFlags in
  if negb (statusFlags =? 0) then setErrStr this (statusText statusFlags)
  else this.

Definition isEmptyString (s : string) : bool :=
  match s with EmptyString => true | _ => false end.

(** [getErrStr(errStr, isInput)]: the return value, the caller's [errStr]
    after the call, what was printed, and the context. *)
Definition getErrStr (this : PaContext) (errStr : string) (isInput : bool)
  : res (bool * string * list Output * PaContext) :=
  options <- deref (if isInput then mInOptions this else mOutOptions this) ;;
  let '(errStr', out) :=
    if closeOnError options then (mErrStr this, [])
    else if negb (String.length (mErrStr this) =? 0)%nat
         then (errStr, [PrintAudioIO (mErrStr this)])
         else (errStr, []) in
  Ok (negb (isEmptyString errStr'), errStr', out, setErrStr this "").

(** [quit()] *)
Definition PaContext_quit (this : PaContext) : PaContext :=
  let this :=
    if hasInput this then setInChunks this (quit (mInChunks this))
    else this in
  if hasOutput this then setOutChunks this (quit (mOutChunks this))
  else this.

(** ** The realtime callback *)

(** The first two statements of [PaCallback]: the input timestamp.
    [streamTime] is what [Pa_GetStreamTime(mStream)] answers, that is
    [getCurTime()]. *)
Definition inTimestampOf (streamTime : float)
    (timeInfo : PaStreamCallbackTimeInfo) (paContext : PaContext) : float :=
  if (0 <? inputBufferAdcTime timeInfo)%float
  then inputBufferAdcTime timeInfo
  else (streamTime - getInLatency paContext)%float.

(** [PaCallback(input, output, frameCount, timeInfo, statusFlags, userData)]:
    the return code, the output buffer after the call, what was printed and
    the context. *)
Definition PaCallback (garbage : nat -> byte) (streamTime : float)
    (input output : Memory) (frameCount : Z)
    (timeInfo : PaStreamCallbackTimeInfo) (statusFlags : Z)
    (paContext : PaContext)
  : res (PaStreamCallbackResult * Memory * list Output * PaContext) :=
  let inTimestamp := inTimestampOf streamTime timeInfo paContext in
  let paContext := checkStatus paContext statusFlags in
  rd <- (if hasInput paContext
         then readPaBuffer garbage paContext input frameCount inTimestamp
         else Ok (false, paContext)) ;;
  let '(inOk, paContext) := rd in
  let inRetCode := if inOk then paContinue else paComplete in
  fl <- (if hasOutput paContext
         then fillPaBuffer paContext output frameCount
         else Ok (false, output, [], paContext)) ;;
  let '(outOk, output, out, paContext) := fl in
  let outRetCode := if outOk then paContinue else paComplete in
  Ok (if isComplete inRetCode && isComplete outRetCode
      then paComplete else paContinue,
      output, out, paContext).

(** ** Construction *)

(** [setParams(env, isInput, options, params, sampleRate)]: the stream
    parameters, the sample rate and what was printed.  [__arm__] tells
    whether the build defines the macro of that name, under which the
    suggested latency is overwritten at the end of the function. *)
Definition setParams (__arm__ : bool) (pa : PortAudio) (isInput : bool)
    (options : AudioOptions) : res (Params.t * float * list Output) :=
  let deviceID := int32_cast (deviceID options) in
  let device :=
    if (0 <=? deviceID) && (deviceID <? Pa_GetDeviceCount pa)
    then deviceID
    else if isInput then Pa_GetDefaultInputDevice pa
         else Pa_GetDefaultOutputDevice pa in
  if device =? paNoDevice then Throws "No default device"
  else
    let info := Pa_GetDeviceInfo pa device in
    let channels := int32_cast (channelCount options) in
    let maxChannels :=
      if isInput then maxInputChannels info else maxOutputChannels info in
    if maxChannels <? channels
    then Throws "Channel count exceeds maximum number of channels for device"
    else
      fmt <- (match sampleFormat options with
              | 1 => Ok paFloat32
              | 8 => Ok paInt8
              | 16 => Ok paInt16
              | 24 => Ok paInt24
              | 32 => Ok paInt32
              | _ => Throws "Invalid sampleFormat"
              end) ;;
      let suggestedLatency :=
        if isInput then defaultLowInputLatency info
        else defaultLowOutputLatency info in
      let suggestedLatency :=
        if __arm__
        then if isInput then defaultHighInputLatency info
             else defaultHighOutputLatency info
        else suggestedLatency in
      Ok (Params.mk device channels fmt suggestedLatency,
          to_double (sampleRate options),
          [PrintDevice isInput device]).

(** The constructor up to, and not including, its call of [Pa_OpenStream]:
    the two parameter blocks ([None] is the [NULL] passed for an absent
    direction), the sample rate and what was printed.  The choice of
    [framesPerBuffer], which calls nothing, is made in [PaContext_new]. *)
Definition beforeOpenStream (__arm__ : bool) (pa : PortAudio)
    (inOptions outOptions : option AudioOptions)
  : res (option Params.t * option Params.t * float * list Output) :=
  let errCode := Pa_Initialize pa in
  if negb (errCode =? paNoError)
  then Throws ("Could not initialize PortAudio: " ++ Pa_GetErrorText pa errCode)
  else
    match inOptions, outOptions with
    | None, None => Throws "Input and/or Output options must be specified"
    | _, _ =>
        let mismatch :=
          match inOptions, outOptions with
          | Some i, Some o => negb (sampleRate i =? sampleRate o)
          | _, _ => false
          end in
        if mismatch then Throws "Input and Output sample rates must match"
        else
          let out0 :=
            [PrintVersion]
              ++ match inOptions with
                 | Some i => [PrintOptions true i] | None => [] end
              ++ match outOptions with
                 | Some o => [PrintOptions false o] | None => [] end in
          rin <- (match inOptions with
                  | Some i =>
                      r <- setParams __arm__ pa true i ;;
                      let '(p, rate, out) := r in Ok (Some p, rate, out)
                  | None => Ok (None, 0%float, [])
                  end) ;;
          let '(inParams, sampleRate, out1) := rin in
          rout <- (match outOptions with
                   | Some o =>
                       r <- setParams __arm__ pa false o ;;
                       let '(p, rate, out) := r in Ok (Some p, rate, out)
                   | None => Ok (None, sampleRate, [])
                   end) ;;
          let '(outParams, sampleRate, out2) := rout in
          let errCode := Pa_IsFormatSupported pa inParams outParams sampleRate in
          if negb (errCode =? paFormatIsSupported)
          then Throws ("Format not supported: " ++ Pa_GetErrorText pa errCode)
          else Ok (inParams, outParams, sampleRate, out0 ++ out1 ++ out2)
    end.

(** [PaContext::PaContext(env, inOptions, outOptions)]: an absent options
    object is [None].  The stream is opened exactly when
    [beforeOpenStream] returns; a build that defines [__arm__] asks for
    buffers of 256 frames. *)
Definition PaContext_new (__arm__ : bool) (pa : PortAudio)
    (inOptions outOptions : option AudioOptions)
  : res (PaContext * list Output) :=
  let mInChunks :=
    newChunks (match inOptions with Some i => maxQueue i | None => 0 end) in
  let mOutChunks :=
    newChunks (match outOptions with Some o => maxQueue o | None => 0 end) in
  cfg <- beforeOpenStream __arm__ pa inOptions outOptions ;;
  let '(inParams, outParams, sampleRate, out) := cfg in
  let framesPerBuffer := paFramesPerBufferUnspecified in
  let framesPerBuffer := if __arm__ then 256 else framesPerBuffer in
  let errCode :=
    Pa_OpenStream pa inParams outParams sampleRate framesPerBuffer in
  if negb (errCode =? paNoError)
  then Throws ("Could not open stream: " ++ Pa_GetErrorText pa errCode)
  else Ok (mkPaContext inOptions outOptions mInChunks mOutChunks
                       (streamInputLatency pa) "",
           out).

(** Whether the constructor gets as far as calling [Pa_OpenStream]. *)
Definition opensStream (__arm__ : bool) (pa : PortAudio)
    (inOptions outOptions : option AudioOptions) : bool :=
  match beforeOpenStream __arm__ pa inOptions outOptions with
  | Ok _ => true
  | _ => false
  end.

(** ** Well-formed states *)

(** A [Memory] holds fewer than [2^32] bytes (its size is a [uint32_t]). *)
Definition chunkOk (c : Chunk) : bool := chunkBytes c <? 2 ^ 32.

(** The queue invariant of the data model: the head offset lies inside the
    current chunk. *)
Definition chunksOk (q : Chunks) : bool :=
  (0 <=? headOffset q) && (headOffset q <=? curBytes q)
  && match current q with Some c => chunkOk c | None => true end
  && forallb chunkOk (queued q).

(** Every chunk in the queue carries a buffer. *)
Definition hasData (c : Chunk) : bool :=
  match chunk c with Some _ => true | None => false end.

Definition allData (q : Chunks) : bool :=
  match current q with Some c => hasData c | None => true end
  && forallb hasData (queued q).

(** What a loop state has to satisfy when the loop is entered: the range
    [bufOff, bufOff + numBytes) lies inside the destination and its bounds
    are [uint32_t] values. *)
Definition fillOk (st : FillState) : bool :=
  chunksOk (chunks st)
  && (0 <=? bufOff st) && (0 <=? numBytes st)
  && (bufOff st + numBytes st <? 2 ^ 32)
  && (bufOff st + numBytes st <=? numBytesOf (buf st)).

(** ** Observations on a queue and on runs of the loop *)

Definition totalBytes (l : list Chunk) : Z :=
  fold_right (fun c acc => chunkBytes c + acc) 0 l.

(** The bytes that can still be consumed from a queue. *)
Definition avail (q : Chunks) : Z :=
  (curBytes q - curOffset q) + totalBytes (queued q).

(** The first queued chunk that has a byte to give; a chunk without a buffer
    ends the search, as it ends the fill. *)
Fixpoint firstData (l : list Chunk) : option Chunk :=
  match l with
  | [] => None
  | c :: l' =>
      match chunk c with
      | None => None
      | Some m => if numBytesOf m =? 0 then firstData l' else Some c
      end
  end.

(** The chunk and the offset in it at which the next byte will be read. *)
Definition firstSource (q : Chunks) : option (Chunk * Z) :=
  if needsNext q
  then match firstData (queued q) with
       | Some c => Some (c, 0)
       | None => None
       end
  else match current q with
       | Some c => Some (c, curOffset q)
       | None => None
       end.

(** The [incOffset] call of the pass that starts in [st], if the pass gets
    that far: the value of [numBytes] at the call, the argument and the queue
    the call is made on. *)
Definition incOffsetCall (st : FillState) : option (Z * Z * Chunks) :=
  if needsNext (chunks st) then
    match waitNext (chunks st) with
    | Ok q =>
        match curBuf q with
        | None => None
        | Some _ => Some (numBytes st, copyBytes (numBytes st) q, q)
        end
    | _ => None
    end
  else Some (numBytes st, copyBytes (numBytes st) (chunks st), chunks st).

(** All the [incOffset] calls of a run of the loop, in order. *)
Fixpoint incOffsetCalls (fuel : nat) (this : PaContext) (isInput : bool)
    (st : FillState) : list (Z * Z * Chunks) :=
  if numBytes st =? 0 then []
  else
    match fuel with
    | O => []
    | S fuel' =>
        match fillStep this isInput st with
        | Ok (again, st') =>
            match incOffsetCall st with
            | Some call =>
                call :: (if again
                         then incOffsetCalls fuel' this isInput st' else [])
            | None => []
            end
        | _ => []
        end
    end.

(** Chunks pushed one after the other. *)
Fixpoint pushAll (cs : list Chunk) (q : Chunks) : res Chunks :=
  match cs with
  | [] => Ok q
  | c :: cs' => q' <- push c q ;; pushAll cs' q'
  end.

(** Successive calls of [fillBuffer] on one queue, each with its own
    destination and size; the final states of the calls, in order. *)
Fixpoint fillCalls (this : PaContext) (isInput : bool) (q : Chunks)
    (reqs : list (Memory * Z)) : res (list FillState) :=
  match reqs with
  | [] => Ok []
  | (dst, n) :: reqs' =>
      st <- fillBuffer this dst n q false isInput ;;
      rest <- fillCalls this isInput (chunks st) reqs' ;;
      Ok (st :: rest)
  end.

Definition sumZ (l : list Z) : Z := fold_right Z.add 0 l.

(** The destination bytes at the positions [from, to) are all zero. *)
Definition zeroBetween (m : Memory) (from to : Z) : Prop :=
  forall i : nat, from <= Z.of_nat i < to -> nth_error m i = Some x00.

(** What a run of the loop from [st] to [st'] achieves on a queue whose
    chunks all carry data: it hands over as many bytes as were asked for or
    as the queue had, whichever is less, and when the queue had less it
    reports [finished] and leaves zeros in the rest of the requested range. *)
Definition fillPost (st st' : FillState) : Prop :=
  let k := Z.min (numBytes st) (avail (chunks st)) in
  bufOff st' = bufOff st + k
  /\ avail (chunks st') = avail (chunks st) - k
  /\ allData (chunks st') = true
  /\ quitting (chunks st') = quitting (chunks st)
  /\ (finished st' = true <->
      finished st = true \/ avail (chunks st) < numBytes st)
  /\ (avail (chunks st) < numBytes st ->
      zeroBetween (buf st') (bufOff st') (bufOff st + numBytes st)).

(** The precondition that the queue documents for [incOffset(n)], at a call
    made with [numBytes] bytes still wanted: there is a current chunk, [n] is
    the smaller of [numBytes] and the bytes left in the chunk, and the offset
    after the call is still inside the chunk. *)
Definition withinChunk (call : Z * Z * Chunks) : Prop :=
  let '(wanted, n, q) := call in
  curBuf q <> None
  /\ n = Z.min wanted (curBytes q - curOffset q)
  /\ 0 <= n <= curBytes q - curOffset q
  /\ curOffset (incOffset n q) = curOffset q + n
  /\ curOffset (incOffset n q) <= curBytes (incOffset n q).

(** A request the caller may make: a [uint32_t] size and a destination that
    has room for it. *)
Definition reqOk (r : Memory * Z) : bool :=
  (0 <=? snd r) && (snd r <? 2 ^ 32) && (snd r <=? numBytesOf (fst r)).

(** The device choice of [setParams]: whether the configured id names a
    device of the engine, and the engine's default device for the direction. *)
Definition deviceInRange (pa : PortAudio) (o : AudioOptions) : bool :=
  (0 <=? int32_cast (deviceID o))
  && (int32_cast (deviceID o) <? Pa_GetDeviceCount pa).

Definition defaultDevice (pa : PortAudio) (isInput : bool) : Z :=
  if isInput then Pa_GetDefaultInputDevice pa
  else Pa_GetDefaultOutputDevice pa.

(** The values of [sampleFormat] that [setParams] accepts. *)
Definition supportedFormats : list Z := [1; 8; 16; 24; 32].

(** ** Sample data *)

(** Two channels of 32-bit samples at 48 kHz. *)
Definition stereo48k : AudioOptions :=
  mkAudioOptions 0 48000 2 32 32 0 false.

Definition duplex : PaContext :=
  mkPaContext (Some stereo48k) (Some stereo48k) (newChunks 0) (newChunks 0)
              0%float "".

Definition tone (n : nat) (t : float) : Chunk :=
  mkChunk (Some (repeat x01 n)) t.

Definition stale : nat -> byte := fun _ => xff.

(** A queue whose current chunk, stamped 1.5 s, has been read up to byte 96. *)
Definition resumed96 : Chunks :=
  mkChunks (Some (tone 200 1.5%float)) 96 [tone 3 2%float] 0 true.

(** An output-only context whose queue is empty and was told to quit, and an
    input-only context with a measured input latency of 0.25 s. *)
Definition playback : PaContext :=
  mkPaContext None (Some stereo48k) (newChunks 0) (quit (newChunks 0))
              0%float "".

Definition capture : PaContext :=
  mkPaContext (Some stereo48k) None (newChunks 0) (newChunks 0)
              0.25%float "".

(** A context whose input queue holds a last chunk of 400 bytes and was told
    to quit. *)
Definition lastChunk400 : PaContext :=
  setInChunks duplex (quit (mkChunks None 0 [tone 400 3%float] 0 false)).

(** A fill of eight bytes from a queue that holds an empty chunk and a chunk
    of three bytes. *)
Definition shortFill : FillState :=
  mkFillState (repeat xff 8) 0 8 0%float
    (mkChunks None 0 [tone 0 1%float; tone 3 2%float] 0 true) false [].

(** A context that holds an unread input overflow report, and an engine
    with two devices and no default devices. *)
Definition overflowed : PaContext :=
  checkStatus duplex paInputOverflow.

Definition twoDevices : PortAudio :=
  mkPortAudio 0 (fun _ => "error"%string) 2 paNoDevice paNoDevice
              (fun _ => mkDeviceInfo 2 2 0%float 0%float 0%float 0%float)
              (fun _ _ _ => 0) (fun _ _ _ _ => 0) 0%float.

(** ** The bytes a queue still holds *)

(** The bytes of a chunk; a chunk without a buffer has none. *)
Definition chunkData (c : Chunk) : Memory :=
  match chunk c with
  | Some m => m
  | None => []
  end.

(** The bytes that are still to be read from a queue, in the order in which
    they will be read: the rest of the current chunk, then the queued chunks
    one after the other. *)
Definition stream (q : Chunks) : Memory :=
  skipn (Z.to_nat (headOffset q))
        (match current q with Some c => chunkData c | None => [] end)
    ++ concat (map chunkData (queued q)).

(** A queue of two chunks, of three and of two bytes, that was told to
    quit; the same queue before it was told. *)
Definition abc : Chunk := mkChunk (Some [x0a; x0b; x0c]) 1%float.

Definition de : Chunk := mkChunk (Some [x0d; x0e]) 2%float.

Definition twoChunks : Chunks := mkChunks None 0 [abc; de] 0 true.

Definition twoChunksOpen : Chunks := mkChunks None 0 [abc; de] 0 false.

(** An output-only context whose queue holds the two chunks and was told to
    quit, and an input-only context whose queue holds them. *)
Definition playingTwo : PaContext :=
  mkPaContext None (Some stereo48k) (newChunks 0) twoChunks 0%float "".

Definition recordedTwo : PaContext :=
  mkPaContext (Some stereo48k) None twoChunks (newChunks 0) 0%float "".

(** Eight bytes of input, one frame of [stereo48k]. *)
Definition oneFrame : Memory := [x01; x02; x03; x04; x05; x06; x07; x08].

(** An input-only context whose queue is drained and was told to quit. *)
Definition ended : PaContext :=
  mkPaContext (Some stereo48k) None (quit (newChunks 0)) (newChunks 0)
              0%float "".



(** The device [setParams] settles on, and the most channels that device
    takes in the direction asked for. *)
Definition chosenDevice (pa : PortAudio) (isInput : bool)
    (o : AudioOptions) : Z :=
  if deviceInRange pa o then int32_cast (deviceID o)
  else defaultDevice pa isInput.

Definition maxChannelsOf (pa : PortAudio) (isInput : bool)
    (o : AudioOptions) : Z :=
  let info := Pa_GetDeviceInfo pa (chosenDevice pa isInput o) in
  if isInput then maxInputChannels info else maxOutputChannels info.

(** An engine with two devices of two channels each, device 0 the default
    input and device 1 the default output. *)
Definition stereoEngine : PortAudio :=
  mkPortAudio 0 (fun _ => "error"%string) 2 0 1
              (fun _ => mkDeviceInfo 2 2 0.125%float 0.5%float 0.25%float 1%float)
              (fun _ _ _ => 0) (fun _ _ _ _ => 0) 0.25%float.

(** * Properties *)

(** ** Arithmetic and buffers *)

Lemma u32_small (z : Z) : 0 <= z < 2 ^ 32 -> u32 z = z.
Proof. intros H. unfold u32. now apply Z.mod_small. Qed.

Lemma u32_range (z : Z) : 0 <= u32 z < 2 ^ 32.
Proof. unfold u32. apply Z.mod_pos_bound. lia. Qed.

Lemma numBytesOf_nonneg (m : Memory) : 0 <= numBytesOf m.
Proof. unfold numBytesOf. lia. Qed.

Lemma chunkBytes_nonneg (c : Chunk) : 0 <= chunkBytes c.
Proof.
  unfold chunkBytes. destruct (chunk c); [apply numBytesOf_nonneg | lia].
Qed.

Lemma curBytes_nonneg (q : Chunks) : 0 <= curBytes q.
Proof.
  unfold curBytes. destruct (current q); [apply chunkBytes_nonneg | lia].
Qed.

Lemma totalBytes_nonneg (l : list Chunk) : 0 <= totalBytes l.
Proof.
  induction l as [|c l IH]; simpl; [lia|].
  pose proof (chunkBytes_nonneg c). lia.
Qed.

Lemma makeNew_length (g : nat -> byte) (n : Z) :
  0 <= n -> numBytesOf (makeNew g n) = n.
Proof.
  intros H. unfold numBytesOf, makeNew.
  rewrite length_map, length_seq. lia.
Qed.

Lemma memcpy_length (dst src : Memory) (off n : Z) :
  0 <= off -> 0 <= n -> off + n <= numBytesOf dst -> n <= numBytesOf src ->
  numBytesOf (memcpy dst off src n) = numBytesOf dst.
Proof.
  unfold numBytesOf, memcpy. intros Hoff Hn Hdst Hsrc.
  rewrite !length_app, !length_firstn, length_skipn. lia.
Qed.

Lemma memset0_length (dst : Memory) (off n : Z) :
  0 <= off -> 0 <= n -> off + n <= numBytesOf dst ->
  numBytesOf (memset0 dst off n) = numBytesOf dst.
Proof.
  unfold numBytesOf, memset0. intros Hoff Hn Hdst.
  rewrite !length_app, length_firstn, repeat_length, length_skipn. lia.
Qed.

Lemma memset0_zero (dst : Memory) (off n : Z) :
  0 <= off -> 0 <= n -> off + n <= numBytesOf dst ->
  zeroBetween (memset0 dst off n) off (off + n).
Proof.
  unfold numBytesOf, memset0, zeroBetween. intros Hoff Hn Hdst i Hi.
  rewrite nth_error_app2 by (rewrite length_firstn; lia).
  rewrite length_firstn.
  rewrite nth_error_app1 by (rewrite repeat_length; lia).
  apply nth_error_repeat. lia.
Qed.

Lemma memset0_before (dst : Memory) (off n : Z) :
  0 <= off -> off <= numBytesOf dst ->
  firstn (Z.to_nat off) (memset0 dst off n) = firstn (Z.to_nat off) dst.
Proof.
  unfold numBytesOf, memset0. intros Hoff Hdst.
  rewrite firstn_app.
  rewrite length_firstn.
  replace (Z.to_nat off - Nat.min (Z.to_nat off) (length dst))%nat with 0%nat
    by lia.
  rewrite firstn_firstn, Nat.min_id. simpl. now rewrite app_nil_r.
Qed.

Lemma memcpy_whole (g : nat -> byte) (src : Memory) (n : Z) :
  0 <= n -> n <= numBytesOf src ->
  memcpy (makeNew g n) 0 src n = firstn (Z.to_nat n) src.
Proof.
  intros Hn Hsrc. unfold memcpy. simpl.
  rewrite skipn_all2; [now rewrite app_nil_r|].
  pose proof (makeNew_length g n Hn) as L. unfold numBytesOf in L. lia.
Qed.

(** ** The invariant *)

Lemma chunksOk_elim (q : Chunks) :
  chunksOk q = true ->
  0 <= headOffset q <= curBytes q /\ curBytes q < 2 ^ 32
  /\ forallb chunkOk (queued q) = true.
Proof.
  unfold chunksOk. rewrite !andb_true_iff.
  intros [[[H0 H1] H2] H3]. apply Z.leb_le in H0, H1.
  repeat split; auto.
  unfold curBytes in *. destruct (current q).
  - unfold chunkOk in H2. now apply Z.ltb_lt in H2.
  - lia.
Qed.

Lemma chunksOk_intro (q : Chunks) :
  0 <= headOffset q <= curBytes q -> curBytes q < 2 ^ 32 ->
  forallb chunkOk (queued q) = true -> chunksOk q = true.
Proof.
  intros [H0 H1] H2 H3. unfold chunksOk. rewrite !andb_true_iff.
  repeat split; auto; try now apply Z.leb_le.
  unfold curBytes in H2. destruct (current q); auto.
  unfold chunkOk. now apply Z.ltb_lt.
Qed.

Lemma fillOk_elim (st : FillState) :
  fillOk st = true ->
  chunksOk (chunks st) = true /\ 0 <= bufOff st /\ 0 <= numBytes st
  /\ bufOff st + numBytes st < 2 ^ 32
  /\ bufOff st + numBytes st <= numBytesOf (buf st).
Proof.
  unfold fillOk. rewrite !andb_true_iff.
  intros [[[[H0 H1] H2] H3] H4].
  apply Z.leb_le in H1, H2, H4. apply Z.ltb_lt in H3. auto.
Qed.

Lemma fillOk_intro (st : FillState) :
  chunksOk (chunks st) = true -> 0 <= bufOff st -> 0 <= numBytes st ->
  bufOff st + numBytes st < 2 ^ 32 ->
  bufOff st + numBytes st <= numBytesOf (buf st) ->
  fillOk st = true.
Proof.
  intros H0 H1 H2 H3 H4. unfold fillOk. rewrite !andb_true_iff.
  repeat split; auto; try now apply Z.leb_le. now apply Z.ltb_lt.
Qed.

Lemma incOffset_ok (q : Chunks) (n : Z) :
  chunksOk q = true -> 0 <= n <= curBytes q - curOffset q ->
  chunksOk (incOffset n q) = true
  /\ curOffset (incOffset n q) = curOffset q + n.
Proof.
  intros Hq Hn. destruct (chunksOk_elim q Hq) as (H0 & H1 & H2).
  unfold curOffset in *.
  assert (E : u32 (headOffset q + n) = headOffset q + n)
    by (apply u32_small; lia).
  split.
  - apply chunksOk_intro; unfold curBytes in *; simpl; try rewrite E; auto.
    lia.
  - simpl. exact E.
Qed.

Lemma waitNext_ok (q q' : Chunks) :
  chunksOk q = true -> waitNext q = Ok q' -> chunksOk q' = true.
Proof.
  intros Hq. unfold waitNext.
  destruct (match current q with
            | Some c => headOffset q =? chunkBytes c | None => true end);
    [|intros E; now inversion E; subst].
  destruct (chunksOk_elim q Hq) as (_ & _ & H2).
  destruct (queued q) as [|c rest] eqn:Eq.
  - destruct (quitting q); [|discriminate].
    intros E; inversion E; subst. reflexivity.
  - intros E; inversion E; subst. simpl in H2.
    apply andb_true_iff in H2 as [Hc Hrest].
    apply chunksOk_intro; unfold curBytes; simpl; auto.
    + pose proof (chunkBytes_nonneg c). lia.
    + unfold chunkOk in Hc. now apply Z.ltb_lt in Hc.
Qed.

Lemma newChunks_ok (maxQueue : Z) : chunksOk (newChunks maxQueue) = true.
Proof. reflexivity. Qed.

Lemma quit_ok (q : Chunks) : chunksOk q = true -> chunksOk (quit q) = true.
Proof. intros H. exact H. Qed.

Lemma push_ok (c : Chunk) (q q' : Chunks) :
  chunkOk c = true -> chunksOk q = true -> push c q = Ok q' ->
  chunksOk q' = true.
Proof.
  intros Hc Hq. unfold push.
  destruct (quitting q); [intros E; now inversion E; subst|].
  destruct ((0 <? maxQueued q)
            && (maxQueued q <=? Z.of_nat (length (queued q))));
    [discriminate|].
  intros E; inversion E; subst; clear E.
  destruct (chunksOk_elim q Hq) as (H0 & H1 & H2).
  apply chunksOk_intro; unfold curBytes in *; simpl; auto.
  rewrite forallb_app, H2. simpl. now rewrite Hc.
Qed.

Lemma curBuf_bytes (q : Chunks) (m : Memory) :
  curBuf q = Some m -> curBytes q = numBytesOf m.
Proof.
  unfold curBuf, curBytes, chunkBytes.
  destruct (current q) as [c|]; [|discriminate].
  intros E. now rewrite E.
Qed.

Lemma copyBytes_exact (q : Chunks) (n : Z) :
  chunksOk q = true ->
  copyBytes n q = Z.min n (curBytes q - curOffset q).
Proof.
  intros Hq. destruct (chunksOk_elim q Hq) as (H0 & H1 & _).
  unfold copyBytes, curOffset. rewrite u32_small; [reflexivity | lia].
Qed.

(** ** One pass of the loop keeps the invariant *)

Lemma copyFill_inv (this : PaContext) (isInput : bool)
    (st st' : FillState) (q : Chunks) :
  fillOk st = true -> chunksOk q = true ->
  copyFill this isInput st q = Ok st' ->
  let n := copyBytes (numBytes st) q in
  0 <= n <= numBytes st /\ n <= curBytes q - curOffset q
  /\ bufOff st' = bufOff st + n /\ numBytes st' = numBytes st - n
  /\ chunks st' = incOffset n q
  /\ numBytesOf (buf st') = numBytesOf (buf st)
  /\ finished st' = finished st /\ printed st' = printed st
  /\ fillOk st' = true.
Proof.
  intros Hst Hq. cbv zeta.
  destruct (fillOk_elim st Hst) as (_ & Hoff & Hnum & Hlt & Hlen).
  destruct (chunksOk_elim q Hq) as (H0 & H1 & _).
  rewrite (copyBytes_exact q _ Hq).
  unfold copyFill.
  destruct (if (0 =? bufOff st) && isInput
            then o <- deref (mInOptions this) ;;
                 Ok (curTs q + timeOffset o (curOffset q))%float
            else Ok (timeStamp st)) as [stamp| | | |]; try discriminate.
  simpl bind. destruct (curBuf q) as [cur|] eqn:Ecur; [|discriminate].
  simpl. intros E. inversion E; subst; clear E. simpl.
  rewrite (copyBytes_exact q _ Hq).
  pose proof (curBuf_bytes q cur Ecur) as Hcur.
  unfold curOffset in *.
  set (n := Z.min (numBytes st) (curBytes q - headOffset q)).
  assert (Hn : 0 <= n <= numBytes st) by (unfold n; lia).
  assert (Hn' : n <= curBytes q - headOffset q) by (unfold n; lia).
  assert (Hsrc : numBytesOf (skipn (Z.to_nat (headOffset q)) cur)
                 = curBytes q - headOffset q).
  { rewrite Hcur. unfold numBytesOf in *. rewrite length_skipn. lia. }
  assert (Hbuf : numBytesOf (memcpy (buf st) (bufOff st)
                    (skipn (Z.to_nat (headOffset q)) cur) n)
                 = numBytesOf (buf st))
    by (apply memcpy_length; lia).
  repeat split; try lia; auto.
  - apply u32_small; lia.
  - apply u32_small; lia.
  - apply fillOk_intro; simpl.
    + apply incOffset_ok; auto. unfold curOffset. lia.
    + rewrite u32_small; lia.
    + rewrite u32_small; lia.
    + rewrite !u32_small; lia.
    + rewrite !u32_small, Hbuf; lia.
Qed.

Lemma finishFill_ok (isInput : bool) (st : FillState) (q : Chunks) :
  fillOk st = true -> chunksOk q = true ->
  fillOk (finishFill isInput st q) = true.
Proof.
  intros Hst Hq.
  destruct (fillOk_elim st Hst) as (_ & Hoff & Hnum & Hlt & Hlen).
  apply fillOk_intro; simpl; auto.
  rewrite memset0_length; lia.
Qed.

Lemma fillStep_inv (this : PaContext) (isInput : bool)
    (st st' : FillState) (again : bool) :
  fillOk st = true ->
  fillStep this isInput st = Ok (again, st') ->
  fillOk st' = true
  /\ bufOff st' + numBytes st' = bufOff st + numBytes st
  /\ bufOff st <= bufOff st'
  /\ numBytesOf (buf st') = numBytesOf (buf st)
  /\ (again = true -> finished st' = finished st)
  /\ (again = false -> finished st' = true /\ bufOff st' = bufOff st).
Proof.
  intros Hst. pose proof (fillOk_elim st Hst) as (Hq & Hoff & Hnum & Hlt & Hlen).
  unfold fillStep.
  destruct (needsNext (chunks st)).
  - destruct (waitNext (chunks st)) as [q| | | |] eqn:Ew; try discriminate.
    pose proof (waitNext_ok _ _ Hq Ew) as Hq'.
    simpl bind. destruct (curBuf q).
    + destruct (copyFill this isInput st q) as [s| | | |] eqn:Ec;
        try discriminate.
      simpl. intros E; inversion E; subst; clear E.
      pose proof (copyFill_inv _ _ _ _ _ Hst Hq' Ec) as H. cbv zeta in H.
      repeat split; try tauto; try lia; try discriminate.
    + intros E; inversion E; subst; clear E.
      repeat split; try discriminate; simpl; try lia.
      * now apply finishFill_ok.
      * apply memset0_length; lia.
  - destruct (copyFill this isInput st (chunks st)) as [s| | | |] eqn:Ec;
      try discriminate.
    simpl. intros E; inversion E; subst; clear E.
    pose proof (copyFill_inv _ _ _ _ _ Hst Hq Ec) as H. cbv zeta in H.
    repeat split; try tauto; try lia; try discriminate.
Qed.

(** ** The whole loop keeps the invariant *)

Lemma fillLoop_inv (this : PaContext) (isInput : bool) (fuel : nat) :
  forall st st' : FillState,
  fillOk st = true ->
  fillLoop fuel this isInput st = Ok st' ->
  fillOk st' = true
  /\ bufOff st' + numBytes st' = bufOff st + numBytes st
  /\ bufOff st <= bufOff st'
  /\ numBytesOf (buf st') = numBytesOf (buf st)
  /\ (finished st = true -> finished st' = true).
Proof.
  induction fuel as [|fuel IH]; intros st st' Hst; simpl.
  - destruct (numBytes st =? 0); [|discriminate].
    intros E; inversion E; subst. repeat split; auto; lia.
  - destruct (numBytes st =? 0).
    { intros E; inversion E; subst. repeat split; auto; lia. }
    destruct (fillStep this isInput st) as [[again s]| | | |] eqn:Es;
      try discriminate.
    pose proof (fillStep_inv _ _ _ _ _ Hst Es) as (H1 & H2 & H3 & H4 & H5 & H6).
    simpl bind. destruct again.
    + intros E. destruct (IH _ _ H1 E) as (I1 & I2 & I3 & I4 & I5).
      repeat split; auto; try lia.
      intros F. apply I5. rewrite (H5 eq_refl). exact F.
    + intros E; inversion E; subst.
      repeat split; auto; try lia. intros _. now apply H6.
Qed.

(** ** When the loop asks the queue for the next chunk *)

Lemma needsNext_true (q : Chunks) :
  chunksOk q = true -> needsNext q = true ->
  curBytes q = curOffset q
  /\ waitNext q =
     match queued q with
     | c :: rest => Ok (mkChunks (Some c) 0 rest (maxQueued q) (quitting q))
     | [] => if quitting q
             then Ok (mkChunks None 0 [] (maxQueued q) true) else Blocks
     end.
Proof.
  intros Hq Hn. destruct (chunksOk_elim q Hq) as (H0 & _ & _).
  unfold needsNext, curBuf, curBytes, curOffset, waitNext in *.
  destruct (current q) as [c|].
  - assert (E : chunkBytes c = headOffset q).
    { unfold chunkBytes in *. destruct (chunk c).
      - now apply Z.eqb_eq in Hn.
      - lia. }
    split; [exact E|].
    rewrite <- E, Z.eqb_refl. reflexivity.
  - split; [lia | reflexivity].
Qed.

Lemma needsNext_false (q : Chunks) :
  needsNext q = false ->
  exists m, curBuf q = Some m /\ curBytes q <> curOffset q.
Proof.
  unfold needsNext. destruct (curBuf q) as [m|]; [|discriminate].
  intros H. apply Z.eqb_neq in H. now exists m.
Qed.

Lemma needsNext_consumed (q : Chunks) (n : Z) :
  curBuf q <> None -> chunksOk q = true ->
  n = curBytes q - curOffset q ->
  needsNext (incOffset n q) = true.
Proof.
  intros Hb Hq Hn. destruct (chunksOk_elim q Hq) as (H0 & H1 & _).
  unfold needsNext, curBuf, curBytes, curOffset in *. simpl.
  destruct (current q) as [c|]; [|reflexivity].
  destruct (chunk c); [|reflexivity].
  apply Z.eqb_eq. rewrite u32_small; lia.
Qed.

Lemma copyFill_returns (this : PaContext) (isInput : bool)
    (st : FillState) (q : Chunks) :
  (isInput = true -> mInOptions this <> None) -> curBuf q <> None ->
  exists st', copyFill this isInput st q = Ok st'.
Proof.
  intros Hin Hb. unfold copyFill.
  destruct (curBuf q) as [cur|]; [|congruence].
  destruct ((0 =? bufOff st) && isInput) eqn:E.
  - apply andb_true_iff in E as [_ E].
    destruct (mInOptions this) as [o|]; [|now specialize (Hin E)].
    simpl. eauto.
  - simpl. eauto.
Qed.

Lemma avail_nonneg (q : Chunks) : chunksOk q = true -> 0 <= avail q.
Proof.
  intros Hq. destruct (chunksOk_elim q Hq) as (H0 & _ & _).
  unfold avail, curOffset. pose proof (totalBytes_nonneg (queued q)). lia.
Qed.

(** ** What the loop achieves on a queue of data chunks *)

Lemma incOffset_avail (q : Chunks) (n : Z) :
  chunksOk q = true -> 0 <= n <= curBytes q - curOffset q ->
  avail (incOffset n q) = avail q - n.
Proof.
  intros Hq Hn. destruct (incOffset_ok q n Hq Hn) as [_ E].
  unfold avail. rewrite E. unfold curBytes. simpl. lia.
Qed.

Lemma fillLoop_spec (this : PaContext) (isInput : bool) :
  (isInput = true -> mInOptions this <> None) ->
  forall (fuel : nat) (st : FillState),
  fillOk st = true -> allData (chunks st) = true ->
  (numBytes st <> 0 ->
   (length (queued (chunks st))
    + (if needsNext (chunks st) then 1 else 2) <= fuel)%nat) ->
  quitting (chunks st) = true \/ numBytes st <= avail (chunks st) ->
  exists st', fillLoop fuel this isInput st = Ok st' /\ fillPost st st'.
Proof.
  intros Hin. induction fuel as [|fuel IH]; intros st Hst Hdata Hfuel Hquit;
    pose proof (fillOk_elim st Hst) as (Hq & Hoff & Hnum & Hlt & Hlen);
    pose proof (avail_nonneg _ Hq) as Hav; simpl;
    destruct (numBytes st =? 0) eqn:E0;
    try (apply Z.eqb_eq in E0; exists st; split; [reflexivity|];
         unfold fillPost; rewrite E0;
         repeat split; auto; try lia; intros [?|?]; auto; lia).
  - apply Z.eqb_neq in E0. specialize (Hfuel E0).
    destruct (needsNext (chunks st)); lia.
  - apply Z.eqb_neq in E0. specialize (Hfuel E0).
    (* the copy and the rest of the loop, from a queue [q] with a chunk *)
    assert (Hcopy : forall q : Chunks,
      chunksOk q = true -> allData q = true -> curBuf q <> None ->
      avail q = avail (chunks st) -> quitting q = quitting (chunks st) ->
      (length (queued q) + 1 <= fuel)%nat ->
      exists st',
        (s <- copyFill this isInput st q ;;
         fillLoop fuel this isInput s) = Ok st' /\ fillPost st st').
    { intros q Hq' Hd' Hb Ha Hqt Hlen'.
      destruct (copyFill_returns this isInput st q Hin Hb) as [s Es].
      rewrite Es. simpl bind.
      pose proof (copyFill_inv _ _ _ _ _ Hst Hq' Es) as H. cbv zeta in H.
      rewrite (copyBytes_exact q _ Hq') in H.
      set (n := Z.min (numBytes st) (curBytes q - curOffset q)) in *.
      destruct H as (Hn & Hn' & Ho & Hnb & Hch & _ & Hfin & _ & Hs).
      assert (Has : avail (chunks s) = avail q - n)
        by (rewrite Hch; apply incOffset_avail; auto; lia).
      destruct (IH s Hs) as (st' & Est' & P).
      - rewrite Hch. exact Hd'.
      - intros Hne. rewrite Hch.
        assert (Hnx : needsNext (incOffset n q) = true)
          by (apply needsNext_consumed; auto; unfold n; lia).
        rewrite Hnx. simpl. lia.
      - destruct Hquit as [?|?];
          [left; rewrite Hch; simpl; congruence | right; lia].
      - exists st'. split; [exact Est'|].
        unfold fillPost in *. cbv zeta in *.
        destruct P as (P1 & P2 & P3 & P4 & P5 & P6).
        assert (Hle : n <= avail q).
        { unfold avail. pose proof (totalBytes_nonneg (queued q)). lia. }
        repeat split; auto; try lia.
        + rewrite P4, Hch. simpl. exact Hqt.
        + intros F. apply P5 in F. rewrite Hfin in F.
          destruct F as [?|?]; [now left | right; lia].
        + intros F. apply P5. rewrite Hfin.
          destruct F as [?|?]; [now left | right; lia].
        + intros F. replace (bufOff st + numBytes st)
            with (bufOff s + numBytes s) by lia.
          apply P6. lia. }
    unfold fillStep.
    destruct (needsNext (chunks st)) eqn:En.
    + destruct (needsNext_true _ Hq En) as [Erem Ew]. rewrite Ew.
      unfold allData in Hdata. apply andb_true_iff in Hdata as [Hd1 Hd2].
      destruct (chunksOk_elim _ Hq) as (_ & _ & Hall).
      destruct (queued (chunks st)) as [|c rest] eqn:Eq.
      * assert (Ha0 : avail (chunks st) = 0)
          by (unfold avail; rewrite Eq; simpl; lia).
        destruct Hquit as [Hqt|?]; [|lia]. rewrite Hqt. simpl.
        eexists. split; [reflexivity|].
        unfold fillPost. cbv zeta. simpl. rewrite Ha0.
        repeat split; auto; try lia.
        -- unfold avail, curBytes, curOffset. simpl. lia.
        -- intros _. apply memset0_zero; lia.
      * simpl in Hd2, Hall, Hfuel.
        apply andb_true_iff in Hd2 as [Hc Hrest].
        apply andb_true_iff in Hall as [Hcok Hrok].
        simpl bind.
        set (q := mkChunks (Some c) 0 rest (maxQueued (chunks st))
                           (quitting (chunks st))).
        assert (Eb : exists m, curBuf q = Some m).
        { unfold curBuf, hasData in *. simpl. destruct (chunk c); eauto.
          discriminate. }
        destruct Eb as [m Eb]. rewrite Eb.
        destruct (Hcopy q) as (st' & E' & P); auto.
        -- apply (waitNext_ok (chunks st)); auto.
        -- unfold allData. simpl. now rewrite Hc, Hrest.
        -- congruence.
        -- unfold avail, curBytes, curOffset in *. rewrite Eq. simpl. lia.
        -- simpl. lia.
        -- exists st'. split; [|exact P].
           destruct (copyFill this isInput st q) as [s| | | |];
             simpl in E' |- *; congruence.
    + destruct (needsNext_false _ En) as (m & Eb & Hne).
      destruct (Hcopy (chunks st)) as (st' & E' & P); auto.
      * congruence.
      * lia.
      * exists st'. split; [|exact P].
        destruct (copyFill this isInput st (chunks st)) as [s| | | |];
          simpl in E' |- *; congruence.
Qed.

(** The loop always comes to an end within its budget: it returns, or it
    waits on a queue that was not told to quit. *)
Lemma fillLoop_outcome (this : PaContext) (isInput : bool) :
  (isInput = true -> mInOptions this <> None) ->
  forall (fuel : nat) (st : FillState),
  fillOk st = true ->
  (numBytes st <> 0 ->
   (length (queued (chunks st))
    + (if needsNext (chunks st) then 1 else 2) <= fuel)%nat) ->
  (exists st', fillLoop fuel this isInput st = Ok st')
  \/ (fillLoop fuel this isInput st = Blocks
      /\ quitting (chunks st) = false).
Proof.
  intros Hin. induction fuel as [|fuel IH]; intros st Hst Hfuel;
    pose proof (fillOk_elim st Hst) as (Hq & _); simpl;
    destruct (numBytes st =? 0) eqn:E0; try (left; eauto; fail);
    apply Z.eqb_neq in E0; specialize (Hfuel E0).
  - destruct (needsNext (chunks st)); lia.
  - assert (Hcopy : forall q : Chunks,
      chunksOk q = true -> curBuf q <> None ->
      quitting q = quitting (chunks st) ->
      (length (queued q) + 1 <= fuel)%nat ->
      let r := s <- copyFill this isInput st q ;;
               fillLoop fuel this isInput s in
      (exists st', r = Ok st')
      \/ (r = Blocks /\ quitting (chunks st) = false)).
    { intros q Hq' Hb Hqt Hlen'. cbv zeta.
      destruct (copyFill_returns this isInput st q Hin Hb) as [s Es].
      rewrite Es. simpl bind.
      pose proof (copyFill_inv _ _ _ _ _ Hst Hq' Es) as H. cbv zeta in H.
      rewrite (copyBytes_exact q _ Hq') in H.
      destruct H as (Hn & Hn' & _ & Hnb & Hch & _ & _ & _ & Hs).
      destruct (IH s Hs) as [?|[? Hb']]; auto.
      - intros Hne. rewrite Hch.
        assert (Hnx : needsNext
                        (incOffset (Z.min (numBytes st)
                                          (curBytes q - curOffset q)) q)
                      = true)
          by (apply needsNext_consumed; auto; lia).
        rewrite Hnx. simpl. lia.
      - right. split; auto. rewrite Hch in Hb'. simpl in Hb'. congruence. }
    unfold fillStep.
    destruct (needsNext (chunks st)) eqn:En.
    + destruct (needsNext_true _ Hq En) as [_ Ew]. rewrite Ew.
      pose proof (waitNext_ok (chunks st)) as Hw. rewrite Ew in Hw.
      destruct (queued (chunks st)) as [|c rest] eqn:Eq.
      * destruct (quitting (chunks st)); simpl; eauto.
      * simpl bind. simpl in Hfuel.
        set (q := mkChunks (Some c) 0 rest (maxQueued (chunks st))
                           (quitting (chunks st))) in *.
        destruct (curBuf q) as [m|] eqn:Eb; [|simpl; eauto].
        destruct (Hcopy q) as [[st' E']|[E' Hb']]; auto.
        -- congruence.
        -- simpl. lia.
        -- left. exists st'.
           destruct (copyFill this isInput st q) as [s| | | |];
             simpl in E' |- *; congruence.
        -- right. split; auto.
           destruct (copyFill this isInput st q) as [s| | | |];
             simpl in E' |- *; congruence.
    + destruct (needsNext_false _ En) as (m & Eb & Hne).
      destruct (Hcopy (chunks st)) as [[st' E']|[E' Hb']]; auto.
      * congruence.
      * lia.
      * left. exists st'.
        destruct (copyFill this isInput st (chunks st)) as [s| | | |];
          simpl in E' |- *; congruence.
      * right. split; auto.
        destruct (copyFill this isInput st (chunks st)) as [s| | | |];
          simpl in E' |- *; congruence.
Qed.

Lemma fillBuffer_outcome (this : PaContext) (isInput : bool) (dst : Memory)
    (n : Z) (q : Chunks) (fin : bool) :
  (isInput = true -> mInOptions this <> None) ->
  chunksOk q = true -> reqOk (dst, n) = true ->
  (exists st, fillBuffer this dst n q fin isInput = Ok st)
  \/ (fillBuffer this dst n q fin isInput = Blocks /\ quitting q = false).
Proof.
  intros Hin Hq Hr.
  unfold reqOk in Hr. simpl in Hr. rewrite !andb_true_iff in Hr.
  destruct Hr as [[R0 R1] R2].
  apply Z.leb_le in R0, R2. apply Z.ltb_lt in R1.
  apply (fillLoop_outcome this isInput Hin (fillFuel q)
           (mkFillState dst 0 n 0%float q fin [])).
  - apply fillOk_intro; simpl; auto; lia.
  - intros _. simpl. unfold fillFuel. destruct (needsNext q); lia.
Qed.

Lemma fillBuffer_spec (this : PaContext) (isInput : bool) (dst : Memory)
    (n : Z) (q : Chunks) :
  (isInput = true -> mInOptions this <> None) ->
  chunksOk q = true -> allData q = true -> reqOk (dst, n) = true ->
  quitting q = true \/ n <= avail q ->
  exists st,
    fillBuffer this dst n q false isInput = Ok st
    /\ bufOff st = Z.min n (avail q)
    /\ avail (chunks st) = avail q - Z.min n (avail q)
    /\ chunksOk (chunks st) = true /\ allData (chunks st) = true
    /\ quitting (chunks st) = quitting q
    /\ (finished st = true <-> avail q < n)
    /\ (finished st = true -> zeroBetween (buf st) (bufOff st) n)
    /\ numBytesOf (buf st) = numBytesOf dst.
Proof.
  intros Hin Hq Hd Hr Hquit.
  unfold reqOk in Hr. simpl in Hr. rewrite !andb_true_iff in Hr.
  destruct Hr as [[R0 R1] R2].
  apply Z.leb_le in R0, R2. apply Z.ltb_lt in R1.
  set (st0 := mkFillState dst 0 n 0%float q false []).
  assert (Hst : fillOk st0 = true) by (apply fillOk_intro; simpl; auto; lia).
  destruct (fillLoop_spec this isInput Hin (fillFuel q) st0 Hst Hd)
    as (st & E & P).
  - intros _. simpl. unfold fillFuel. destruct (needsNext q); lia.
  - exact Hquit.
  - exists st. split; [exact E|].
    destruct (fillLoop_inv _ _ _ _ _ Hst E) as (I1 & I2 & I3 & I4 & _).
    destruct (fillOk_elim _ I1) as (Hq' & _).
    unfold fillPost in P. cbv zeta in P. simpl in P, I2, I4.
    destruct P as (P1 & P2 & P3 & P4 & P5 & P6).
    repeat split; auto.
    + intros F. apply P5 in F. destruct F; [discriminate | assumption].
    + intros F. apply P5. now right.
    + intros F. apply P6. apply P5 in F.
      destruct F; [discriminate | assumption].
Qed.

Lemma sumZ_sizes_nonneg (reqs : list (Memory * Z)) :
  forallb reqOk reqs = true -> 0 <= sumZ (map snd reqs).
Proof.
  induction reqs as [|r reqs IH]; simpl; [lia|].
  rewrite andb_true_iff. intros [Hr Hrest]. specialize (IH Hrest).
  unfold reqOk in Hr. rewrite !andb_true_iff in Hr.
  destruct Hr as [[R0 _] _]. apply Z.leb_le in R0. lia.
Qed.

Lemma fillCalls_spec (this : PaContext) (isInput : bool) :
  (isInput = true -> mInOptions this <> None) ->
  forall (reqs : list (Memory * Z)) (q : Chunks),
  chunksOk q = true -> allData q = true ->
  quitting q = true \/ sumZ (map snd reqs) <= avail q ->
  forallb reqOk reqs = true ->
  exists sts,
    fillCalls this isInput q reqs = Ok sts
    /\ sumZ (map bufOff sts) = Z.min (avail q) (sumZ (map snd reqs))
    /\ Forall2 (fun r st =>
                  finished st = true ->
                  zeroBetween (buf st) (bufOff st) (snd r)) reqs sts.
Proof.
  intros Hin. induction reqs as [|[dst n] reqs IH]; intros q Hq Hd Hqt Hr.
  - exists []. simpl. pose proof (avail_nonneg q Hq).
    repeat split; [lia | constructor].
  - simpl in Hr. apply andb_true_iff in Hr as [Hr Hrest].
    pose proof (sumZ_sizes_nonneg reqs Hrest) as Hsum.
    pose proof (avail_nonneg q Hq) as Hav.
    simpl in Hqt.
    assert (Hone : quitting q = true \/ n <= avail q)
      by (destruct Hqt; [now left | right; lia]).
    destruct (fillBuffer_spec this isInput dst n q Hin Hq Hd Hr Hone)
      as (st & E & B & A & Hq' & Hd' & Hqt' & _ & Z0 & _).
    destruct (IH (chunks st) Hq' Hd') as (sts & Es & S & F); auto.
    { rewrite Hqt'. destruct Hqt; [now left | right; lia]. }
    exists (st :: sts). simpl. rewrite E. simpl. rewrite Es. simpl.
    repeat split.
    + rewrite S, A, B. lia.
    + constructor; [exact Z0 | exact F].
Qed.

Lemma pushAll_queued (cs : list Chunk) :
  forall q q' : Chunks,
  quitting q = false -> pushAll cs q = Ok q' ->
  q' = mkChunks (current q) (headOffset q) (queued q ++ cs) (maxQueued q)
                false.
Proof.
  induction cs as [|c cs IH]; intros q q' Hq; simpl.
  - intros E; inversion E; subst. rewrite app_nil_r, <- Hq.
    now destruct q'.
  - unfold push. rewrite Hq.
    destruct ((0 <? maxQueued q)
              && (maxQueued q <=? Z.of_nat (length (queued q))));
      [discriminate|].
    simpl bind. intros E. apply IH in E; [|reflexivity].
    simpl in E. now rewrite <- app_assoc in E.
Qed.

(** ** The timestamp a fill returns *)

Lemma copyFill_stamp_fresh (this : PaContext) (o : AudioOptions)
    (st st' : FillState) (q : Chunks) :
  mInOptions this = Some o -> bufOff st = 0 ->
  copyFill this true st q = Ok st' ->
  timeStamp st' = (curTs q + timeOffset o (curOffset q))%float.
Proof.
  intros Ho Hb. unfold copyFill. rewrite Ho, Hb. simpl.
  destruct (curBuf q); [|discriminate].
  simpl. intros E; inversion E; subst. reflexivity.
Qed.

Lemma copyFill_stamp_kept (this : PaContext) (isInput : bool)
    (st st' : FillState) (q : Chunks) :
  bufOff st <> 0 \/ isInput = false ->
  copyFill this isInput st q = Ok st' ->
  timeStamp st' = timeStamp st.
Proof.
  intros H. unfold copyFill.
  assert (E : (0 =? bufOff st) && isInput = false).
  { destruct H as [H|H].
    - apply andb_false_iff. left. apply Z.eqb_neq. lia.
    - rewrite H. apply andb_false_r. }
  rewrite E. simpl. destruct (curBuf q); [|discriminate].
  simpl. intros E'; inversion E'; subst. reflexivity.
Qed.

Lemma fillStep_stamp_kept (this : PaContext) (isInput : bool)
    (st st' : FillState) (again : bool) :
  bufOff st <> 0 \/ isInput = false ->
  fillStep this isInput st = Ok (again, st') ->
  timeStamp st' = timeStamp st.
Proof.
  intros H. unfold fillStep.
  destruct (needsNext (chunks st)).
  - destruct (waitNext (chunks st)) as [q| | | |]; try discriminate.
    simpl bind. destruct (curBuf q).
    + destruct (copyFill this isInput st q) as [s| | | |] eqn:Ec;
        try discriminate.
      simpl. intros E; inversion E; subst.
      eapply copyFill_stamp_kept; eauto.
    + intros E; inversion E; subst. reflexivity.
  - destruct (copyFill this isInput st (chunks st)) as [s| | | |] eqn:Ec;
      try discriminate.
    simpl. intros E; inversion E; subst.
    eapply copyFill_stamp_kept; eauto.
Qed.

Lemma fillLoop_stamp_output (this : PaContext) (fuel : nat) :
  forall st st' : FillState,
  fillLoop fuel this false st = Ok st' -> timeStamp st' = timeStamp st.
Proof.
  induction fuel as [|fuel IH]; intros st st'; simpl;
    destruct (numBytes st =? 0); try discriminate;
    try (intros E; inversion E; subst; reflexivity).
  destruct (fillStep this false st) as [[again s]| | | |] eqn:Es;
    try discriminate.
  pose proof (fillStep_stamp_kept _ _ _ _ _ (or_intror eq_refl) Es) as K.
  simpl bind. destruct again.
  - intros E. rewrite (IH _ _ E). exact K.
  - intros E; inversion E; subst. exact K.
Qed.

Lemma fillLoop_stamp_kept (this : PaContext) (isInput : bool) (fuel : nat) :
  forall st st' : FillState,
  fillOk st = true -> 0 < bufOff st ->
  fillLoop fuel this isInput st = Ok st' -> timeStamp st' = timeStamp st.
Proof.
  induction fuel as [|fuel IH]; intros st st' Hst Hb; simpl;
    destruct (numBytes st =? 0); try discriminate;
    try (intros E; inversion E; subst; reflexivity).
  destruct (fillStep this isInput st) as [[again s]| | | |] eqn:Es;
    try discriminate.
  assert (Hne : bufOff st <> 0) by lia.
  pose proof (fillStep_stamp_kept _ _ _ _ _ (or_introl Hne) Es) as K.
  pose proof (fillStep_inv _ _ _ _ _ Hst Es) as (H1 & _ & H3 & _).
  simpl bind. destruct again.
  - intros E. rewrite (IH _ _ H1 ltac:(lia) E). exact K.
  - intros E; inversion E; subst. exact K.
Qed.

Lemma fillLoop_stamp_fresh (this : PaContext) (o : AudioOptions)
    (fuel : nat) :
  mInOptions this = Some o ->
  forall st st' : FillState,
  fillOk st = true -> bufOff st = 0 ->
  fillLoop fuel this true st = Ok st' -> 0 < bufOff st' ->
  exists c off,
    firstSource (chunks st) = Some (c, off)
    /\ timeStamp st' = (ts c + timeOffset o off)%float.
Proof.
  intros Ho. induction fuel as [|fuel IH]; intros st st' Hst Hb; simpl;
    destruct (numBytes st =? 0) eqn:E0; try discriminate;
    try (intros E; inversion E; subst; lia).
  apply Z.eqb_neq in E0.
  pose proof (fillOk_elim st Hst) as (Hq & _ & Hnum & _).
  unfold fillStep. destruct (needsNext (chunks st)) eqn:En.
  - destruct (needsNext_true _ Hq En) as [_ Ew].
    pose proof (waitNext_ok (chunks st)) as Hw. rewrite Ew in *.
    destruct (queued (chunks st)) as [|c rest] eqn:Eq.
    { destruct (quitting (chunks st)); simpl; [|discriminate].
      intros E; inversion E; subst. simpl. lia. }
    simpl bind.
    set (q := mkChunks (Some c) 0 rest (maxQueued (chunks st))
                       (quitting (chunks st))) in *.
    specialize (Hw q Hq eq_refl).
    destruct (curBuf q) as [m|] eqn:Em.
    2:{ intros E; inversion E; subst. simpl. lia. }
    destruct (copyFill this true st q) as [s| | | |] eqn:Ec; try discriminate.
    simpl. intros E Hpos.
    pose proof (copyFill_inv _ _ _ _ _ Hst Hw Ec) as H. cbv zeta in H.
    rewrite (copyBytes_exact q _ Hw) in H.
    destruct H as (Hn & _ & Hoff & _ & Hch & _ & _ & _ & Hs).
    pose proof (copyFill_stamp_fresh _ _ _ _ _ Ho Hb Ec) as Hts.
    pose proof (curBuf_bytes q m Em) as Hm.
    unfold curBuf in Em. simpl in Em.
    unfold curOffset in *. simpl headOffset in *.
    unfold curTs in Hts. simpl in Hts.
    rewrite Z.sub_0_r in *.
    unfold firstSource. rewrite En, Eq. simpl. rewrite Em.
    destruct (Z.eq_dec (Z.min (numBytes st) (curBytes q)) 0) as [Hz|Hz].
    + rewrite Hz in *.
      assert (Hm0 : numBytesOf m = 0) by lia.
      rewrite Hm0. simpl.
      destruct (IH s st' Hs ltac:(lia) E Hpos) as (c' & off & F & T).
      rewrite Hch in F. unfold firstSource in F.
      rewrite needsNext_consumed in F; auto.
      * simpl in F. exists c', off. split; [exact F | exact T].
      * unfold curBuf. simpl. congruence.
      * unfold curOffset. simpl. lia.
    + assert (Hm0 : numBytesOf m <> 0) by lia.
      apply Z.eqb_neq in Hm0. rewrite Hm0.
      exists c, 0. split; [reflexivity|].
      rewrite (fillLoop_stamp_kept _ _ _ _ _ Hs ltac:(lia) E). exact Hts.
  - destruct (needsNext_false _ En) as (m & Eb & Hne).
    destruct (copyFill this true st (chunks st)) as [s| | | |] eqn:Ec;
      try discriminate.
    simpl. intros E Hpos.
    pose proof (copyFill_inv _ _ _ _ _ Hst Hq Ec) as H. cbv zeta in H.
    rewrite (copyBytes_exact _ _ Hq) in H.
    destruct H as (Hn & _ & Hoff & _ & _ & _ & _ & _ & Hs).
    destruct (chunksOk_elim _ Hq) as (H0 & _ & _). unfold curOffset in *.
    pose proof (copyFill_stamp_fresh _ _ _ _ _ Ho Hb Ec) as Hts.
    unfold firstSource. rewrite En.
    unfold curBuf, curTs in *.
    destruct (current (chunks st)) as [c|]; [|discriminate].
    exists c, (headOffset (chunks st)). split; [reflexivity|].
    rewrite (fillLoop_stamp_kept _ _ _ _ _ Hs ltac:(lia) E). exact Hts.
Qed.

(** C1 (as amended).  A fill on the input path that copies at least one byte
    returns the timestamp of the chunk its first byte comes from, plus the
    time that the offset of that byte takes up in the chunk:
    offset / channelCount / (sampleBits / 8) / sampleRate.  With 2 channels
    of 4-byte samples at 48000 Hz and an offset of 96 bytes this is the
    chunk's timestamp plus 12 / 48000.  A fill on the output path returns
    the timestamp 0. *)
Theorem fillBuffer_timestamp (this : PaContext) (o : AudioOptions)
    (dst : Memory) (n : Z) (q : Chunks) (fin isInput : bool)
    (st : FillState) :
  (isInput = true -> mInOptions this = Some o) ->
  chunksOk q = true -> reqOk (dst, n) = true ->
  fillBuffer this dst n q fin isInput = Ok st -> 0 < bufOff st ->
  if isInput
  then exists c off,
         firstSource q = Some (c, off)
         /\ timeStamp st = (ts c + timeOffset o off)%float
         /\ (channelCount o = 2 -> sampleBits o = 32 ->
             sampleRate o = 48000 -> off = 96 ->
             timeStamp st = (ts c + 12 / 48000)%float)
  else timeStamp st = 0%float.
Proof.
  intros Hin Hq Hr E Hpos.
  destruct isInput.
  - unfold reqOk in Hr. simpl in Hr. rewrite !andb_true_iff in Hr.
    destruct Hr as [[R0 R1] R2].
    apply Z.leb_le in R0, R2. apply Z.ltb_lt in R1.
    unfold fillBuffer in E.
    assert (Hst : fillOk (mkFillState dst 0 n 0%float q fin []) = true)
      by (apply fillOk_intro; simpl; auto; lia).
    destruct (fillLoop_stamp_fresh this o _ (Hin eq_refl) _ _
                Hst eq_refl E Hpos) as (c & off & F & T).
    exists c, off. repeat split; auto.
    intros Hc Hb Hrate Hoff. rewrite T. unfold timeOffset.
    rewrite Hc, Hb, Hrate, Hoff. reflexivity.
  - unfold fillBuffer in E. apply fillLoop_stamp_output in E. exact E.
Qed.

Lemma fillBuffer_timestamp_witness :
  exists st,
    fillBuffer duplex (repeat xff 8) 8 resumed96 false true = Ok st
    /\ exists c off,
         firstSource resumed96 = Some (c, off)
         /\ timeStamp st = (ts c + timeOffset stereo48k off)%float
         /\ (channelCount stereo48k = 2 -> sampleBits stereo48k = 32 ->
             sampleRate stereo48k = 48000 -> off = 96 ->
             timeStamp st = (ts c + 12 / 48000)%float).
Proof.
  eexists. split; [vm_compute; reflexivity|].
  refine (fillBuffer_timestamp duplex stereo48k (repeat xff 8) 8 resumed96
            false true _ (fun _ => eq_refl) eq_refl eq_refl _ _).
  - vm_compute. reflexivity.
  - reflexivity.
Defined.

(** The output path: eight bytes are copied from a chunk stamped 1.5 s that
    is resumed at byte 96, and the timestamp handed back is 0. *)
Lemma output_fill_timestamp_is_zero :
  exists st,
    fillBuffer duplex (repeat xff 8) 8 resumed96 false false = Ok st
    /\ 0 < bufOff st
    /\ curOffset resumed96 = 96 /\ curTs resumed96 = 1.5%float
    /\ channelCount stereo48k = 2 /\ sampleBits stereo48k / 8 = 4
    /\ sampleRate stereo48k = 48000
    /\ timeStamp st = 0%float
    /\ timeStamp st <> (1.5 + 12 / 48000)%float.
Proof.
  eexists. split; [vm_compute; reflexivity|].
  repeat split. vm_compute. discriminate.
Qed.

(** An input fill that meets an empty chunk first: the timestamp derived in
    the first pass (1 s) is replaced in the second pass, which copies the
    first byte, by that of the next chunk (2 s). *)
Example leading_empty_chunk_timestamp :
  match fillStep duplex true shortFill,
        fillLoop 4 duplex true shortFill with
  | Ok (_, first), Ok last =>
      (bufOff first, timeStamp first, bufOff last, timeStamp last)
  | _, _ => (0, 0%float, 0, 0%float)
  end
  = (0, 1%float, 3, 2%float).
Proof. vm_compute. reflexivity. Qed.

(** ** Drain to silence *)

(** C2.  In a pass of the loop (so with [numBytes] not zero) in which
    [waitNext()] returns and leaves no current buffer, the [numBytes] bytes
    of the destination from the write position on are set to zero,
    [finished] is set, and the loop ends there with a normal return: the
    bytes written so far are the result, what was written before stays, and
    one line is printed. *)
Theorem fill_exhausted_zero_fills (this : PaContext) (isInput : bool)
    (fuel : nat) (st : FillState) (q : Chunks) :
  numBytes st <> 0 ->
  needsNext (chunks st) = true -> waitNext (chunks st) = Ok q ->
  curBuf q = None ->
  0 <= bufOff st -> 0 <= numBytes st ->
  bufOff st + numBytes st <= numBytesOf (buf st) ->
  exists st',
    fillLoop (S fuel) this isInput st = Ok st'
    /\ finished st' = true
    /\ bufOff st' = bufOff st
    /\ zeroBetween (buf st') (bufOff st) (bufOff st + numBytes st)
    /\ firstn (Z.to_nat (bufOff st)) (buf st')
       = firstn (Z.to_nat (bufOff st)) (buf st)
    /\ numBytesOf (buf st') = numBytesOf (buf st)
    /\ chunks st' = q
    /\ printed st' = printed st ++ [PrintFinishing isInput (numBytes st)].
Proof.
  intros H0 Hn Hw Hb Hoff Hnum Hlen.
  exists (finishFill isInput st q). split.
  - simpl. apply Z.eqb_neq in H0. rewrite H0.
    unfold fillStep. rewrite Hn, Hw. simpl. rewrite Hb. reflexivity.
  - simpl. repeat split.
    + apply memset0_zero; lia.
    + apply memset0_before; lia.
    + apply memset0_length; lia.
Qed.

Lemma fill_exhausted_zero_fills_witness :
  exists st',
    fillBuffer duplex (repeat xff 256) 256 (quit (newChunks 0)) false false
    = Ok st'
    /\ finished st' = true
    /\ bufOff st' = 0
    /\ zeroBetween (buf st') 0 (0 + 256)
    /\ firstn (Z.to_nat 0) (buf st') = firstn (Z.to_nat 0) (repeat xff 256)
    /\ numBytesOf (buf st') = numBytesOf (repeat xff 256)
    /\ chunks st' = mkChunks None 0 [] 0 true
    /\ printed st' = [] ++ [PrintFinishing false 256].
Proof.
  refine (fill_exhausted_zero_fills duplex false 1
            (mkFillState (repeat xff 256) 0 256 0%float (quit (newChunks 0))
                         false [])
            (mkChunks None 0 [] 0 true) _ eq_refl eq_refl eq_refl _ _ _);
    vm_compute; discriminate.
Defined.

(** The same drain seen from the callback's output path: 32 frames of two
    4-byte samples are 256 bytes, all zero; the path reports that it is done
    and the stored error string is untouched. *)
Example drain_to_silence_256 :
  match fillPaBuffer playback (repeat xff 256) 32 with
  | Ok (goOn, dst, out, ctx) => (goOn, dst, out, mErrStr ctx)
  | _ => (true, [], [], "?"%string)
  end
  = (false, repeat x00 256, [PrintFinishing false 256], mErrStr playback).
Proof. vm_compute. reflexivity. Qed.

(** ** Byte conservation *)

(** C3.  Chunks with a total of T bytes are pushed onto a fresh queue.  If
    the queue is then told to quit, or if no more than T bytes are asked for
    in all, the fill calls that follow all return, the byte counts they
    return add up to the smaller of T and the sum of the sizes asked for, and
    in every call that reports [finished] the destination holds zeros from
    the returned count up to the size asked for.  (The statement holds for
    every list of calls, hence for the calls up to and including the one
    that reports [finished].) *)
Theorem fill_byte_conservation (this : PaContext) (isInput : bool)
    (maxQueue : Z) (cs : list Chunk) (q : Chunks) (quitCalled : bool)
    (reqs : list (Memory * Z)) :
  (isInput = true -> mInOptions this <> None) ->
  forallb chunkOk cs = true -> forallb hasData cs = true ->
  pushAll cs (newChunks maxQueue) = Ok q ->
  forallb reqOk reqs = true ->
  quitCalled = true \/ sumZ (map snd reqs) <= totalBytes cs ->
  exists sts,
    fillCalls this isInput (if quitCalled then quit q else q) reqs = Ok sts
    /\ sumZ (map bufOff sts) = Z.min (totalBytes cs) (sumZ (map snd reqs))
    /\ Forall2 (fun r st =>
                  finished st = true ->
                  zeroBetween (buf st) (bufOff st) (snd r)) reqs sts.
Proof.
  intros Hin Hok Hdata Hpush Hreqs Hquit.
  apply pushAll_queued in Hpush; [|reflexivity]. simpl in Hpush. subst q.
  set (q := if quitCalled then quit _ else _).
  assert (Ha : avail q = totalBytes cs) by (unfold q; now destruct quitCalled).
  rewrite <- Ha.
  apply fillCalls_spec; auto.
  - unfold q. destruct quitCalled; exact Hok.
  - unfold q. destruct quitCalled; exact Hdata.
  - rewrite Ha. unfold q.
    destruct Hquit as [->|H]; [now left | now right].
Qed.

Lemma fill_byte_conservation_witness :
  exists sts,
    fillCalls duplex true
              (quit (mkChunks None 0 [tone 3 1%float; tone 2 2%float] 0 false))
              [(repeat xff 4, 4); (repeat xff 4, 4)] = Ok sts
    /\ sumZ (map bufOff sts)
       = Z.min (totalBytes [tone 3 1%float; tone 2 2%float])
               (sumZ (map snd [(repeat xff 4, 4); (repeat xff 4, 4)]))
    /\ Forall2 (fun r st =>
                  finished st = true ->
                  zeroBetween (buf st) (bufOff st) (snd r))
               [(repeat xff 4, 4); (repeat xff 4, 4)] sts.
Proof.
  refine (fill_byte_conservation duplex true 0
            [tone 3 1%float; tone 2 2%float] _ true
            [(repeat xff 4, 4); (repeat xff 4, 4)]
            _ eq_refl eq_refl eq_refl eq_refl (or_introl eq_refl)).
  intros _. discriminate.
Defined.

Example two_fills_of_five_bytes :
  match fillCalls duplex true
          (quit (mkChunks None 0 [tone 3 1%float; tone 2 2%float] 0 false))
          [(repeat xff 4, 4); (repeat xff 4, 4)] with
  | Ok sts => map (fun st => (bufOff st, finished st, buf st)) sts
  | _ => []
  end
  = [(4, false, [x01; x01; x01; x01]); (1, true, [x01; x00; x00; x00])].
Proof. reflexivity. Qed.

(** ** The callback *)

Lemma fillLoop_output_this (this1 this2 : PaContext) (fuel : nat) :
  forall st : FillState,
  fillLoop fuel this1 false st = fillLoop fuel this2 false st.
Proof.
  assert (C : forall st q, copyFill this1 false st q = copyFill this2 false st q).
  { intros st q. unfold copyFill. now rewrite andb_false_r. }
  assert (S : forall st, fillStep this1 false st = fillStep this2 false st).
  { intros st. unfold fillStep. rewrite C.
    destruct (needsNext (chunks st)); [|reflexivity].
    destruct (waitNext (chunks st)); try reflexivity.
    simpl. destruct (curBuf a); [now rewrite C | reflexivity]. }
  induction fuel as [|fuel IH]; intros st; simpl; [reflexivity|].
  rewrite S. destruct (numBytes st =? 0); [reflexivity|].
  destruct (fillStep this2 false st) as [[again s]| | | |]; try reflexivity.
  simpl. destruct again; [apply IH | reflexivity].
Qed.

Lemma checkStatus_fields (this : PaContext) (flags : Z) :
  mInOptions (checkStatus this flags) = mInOptions this
  /\ mOutOptions (checkStatus this flags) = mOutOptions this
  /\ mInChunks (checkStatus this flags) = mInChunks this
  /\ mOutChunks (checkStatus this flags) = mOutChunks this
  /\ mInLatency (checkStatus this flags) = mInLatency this.
Proof.
  unfold checkStatus. destruct (negb (u32 flags =? 0)); simpl; auto.
Qed.

Lemma readPaBuffer_result (g : nat -> byte) (this this' : PaContext)
    (srcBuf : Memory) (frameCount : Z) (t : float) (b : bool) :
  readPaBuffer g this srcBuf frameCount t = Ok (b, this') ->
  b = true
  /\ mInOptions this' = mInOptions this
  /\ mOutOptions this' = mOutOptions this
  /\ mOutChunks this' = mOutChunks this
  /\ exists m, push (mkChunk (Some m) t) (mInChunks this)
               = Ok (mInChunks this').
Proof.
  unfold readPaBuffer.
  destruct (mInOptions this) as [o|] eqn:Eo; [|discriminate].
  simpl bind.
  destruct (push _ (mInChunks this)) as [q| | | |] eqn:Ep; try discriminate.
  simpl. intros E; inversion E; subst. simpl. repeat split; auto.
  eexists. exact Ep.
Qed.

Lemma fillPaBuffer_result (this this' : PaContext) (dstBuf dst' : Memory)
    (frameCount : Z) (b : bool) (out : list Output) :
  fillPaBuffer this dstBuf frameCount = Ok (b, dst', out, this') ->
  exists o st,
    mOutOptions this = Some o
    /\ fillBuffer this dstBuf (frameBytes o frameCount) (mOutChunks this)
                  false false = Ok st
    /\ b = negb (finished st) /\ dst' = buf st
    /\ mInChunks this' = mInChunks this.
Proof.
  unfold fillPaBuffer. destruct (mOutOptions this) as [o|]; [|discriminate].
  simpl bind.
  destruct (fillBuffer this dstBuf _ (mOutChunks this) false false)
    as [st| | | |] eqn:Ef; try discriminate.
  simpl. intros E; inversion E; subst. exists o, st. simpl. auto.
Qed.

(** C4.  When the callback returns, it returns "complete" exactly when both
    directions report complete, which is to say when every configured
    direction does: the input direction reports complete exactly when no
    input is configured, the output direction exactly when no output is
    configured or the fill of the output buffer reported [finished].  In
    every other case the callback returns "continue". *)
Theorem PaCallback_complete_iff (g : nat -> byte) (streamTime : float)
    (input output : Memory) (frameCount : Z)
    (timeInfo : PaStreamCallbackTimeInfo) (statusFlags : Z)
    (ctx ctx' : PaContext) (rc : PaStreamCallbackResult)
    (output' : Memory) (out : list Output) :
  PaCallback g streamTime input output frameCount timeInfo statusFlags ctx
  = Ok (rc, output', out, ctx') ->
  exists inComplete outComplete : bool,
    (inComplete = true <-> hasInput ctx = false)
    /\ (outComplete = true <->
        hasOutput ctx = false
        \/ exists o st,
             mOutOptions ctx = Some o
             /\ fillBuffer ctx output (frameBytes o frameCount)
                           (mOutChunks ctx) false false = Ok st
             /\ finished st = true)
    /\ (rc = paComplete <-> inComplete = true /\ outComplete = true)
    /\ (rc = paComplete <->
        (hasInput ctx = true -> inComplete = true)
        /\ (hasOutput ctx = true -> outComplete = true))
    /\ (rc <> paComplete -> rc = paContinue).
Proof.
  unfold PaCallback.
  destruct (checkStatus_fields ctx statusFlags) as (C1 & C2 & C3 & C4 & _).
  set (ctx1 := checkStatus ctx statusFlags) in *.
  unfold hasInput, hasOutput. rewrite C1.
  destruct (mInOptions ctx) as [i|] eqn:Ei.
  - (* input configured: the input side never reports complete *)
    destruct (readPaBuffer g ctx1 input frameCount _) as [[b ctx2]| | | |]
      eqn:Er; try discriminate.
    apply readPaBuffer_result in Er as (-> & _ & R2 & R3 & _).
    simpl bind. rewrite R2, C2.
    destruct (mOutOptions ctx) as [o|] eqn:Eo.
    + destruct (fillPaBuffer ctx2 output frameCount)
        as [[[[b d] p] c]| | | |] eqn:Ef; try discriminate.
      apply fillPaBuffer_result in Ef as (o' & st & F1 & F2 & -> & -> & _).
      rewrite R2, C2 in F1. inversion F1; subst o'.
      rewrite R3, C4 in F2. unfold fillBuffer in F2.
      rewrite (fillLoop_output_this ctx2 ctx) in F2.
      fold (fillBuffer ctx output (frameBytes o frameCount) (mOutChunks ctx)
                       false false) in F2.
      simpl. intros E; inversion E; subst.
      exists false, (finished st). repeat split; try discriminate; try tauto.
      * intros F. right. exists o, st. auto.
      * intros [?|(o' & st' & Eo' & Est & F)]; [discriminate|].
        inversion Eo'; subst o'. rewrite F2 in Est.
        inversion Est; subst. exact F.
      * intros [H _]; discriminate.
      * intros [H _]. now specialize (H eq_refl).
    + simpl. intros E; inversion E; subst.
      exists false, true. repeat split; try discriminate; try tauto.
      * intros [H _]; discriminate.
      * intros [H _]. now specialize (H eq_refl).
  - (* no input: the output side decides *)
    simpl bind. rewrite C2.
    destruct (mOutOptions ctx) as [o|] eqn:Eo.
    + destruct (fillPaBuffer ctx1 output frameCount)
        as [[[[b d] p] c]| | | |] eqn:Ef; try discriminate.
      apply fillPaBuffer_result in Ef as (o' & st & F1 & F2 & -> & -> & _).
      rewrite C2 in F1. inversion F1; subst o'.
      rewrite C4 in F2. unfold fillBuffer in F2.
      rewrite (fillLoop_output_this ctx1 ctx) in F2.
      fold (fillBuffer ctx output (frameBytes o frameCount) (mOutChunks ctx)
                       false false) in F2.
      simpl. intros E; inversion E; subst.
      exists true, (finished st). repeat split; auto; try discriminate.
      * intros F. right. exists o, st. auto.
      * intros [?|(o' & st' & Eo' & Est & F)]; [discriminate|].
        inversion Eo'; subst o'. rewrite F2 in Est.
        inversion Est; subst. exact F.
      * destruct (finished st); [reflexivity | discriminate].
      * intros [_ F]. rewrite F. reflexivity.
      * destruct (finished st); [reflexivity | discriminate].
      * intros [_ F]. rewrite (F eq_refl). reflexivity.
      * destruct (finished st); simpl; congruence.
    + simpl. intros E; inversion E; subst.
      exists true, true. repeat split; auto; try discriminate.
      congruence.
Qed.

Lemma PaCallback_complete_iff_witness :
  exists inComplete outComplete : bool,
    (inComplete = true <-> hasInput playback = false)
    /\ (outComplete = true <->
        hasOutput playback = false
        \/ exists o st,
             mOutOptions playback = Some o
             /\ fillBuffer playback (repeat xff 16) (frameBytes o 2)
                           (mOutChunks playback) false false = Ok st
             /\ finished st = true)
    /\ (paComplete = paComplete <-> inComplete = true /\ outComplete = true)
    /\ (paComplete = paComplete <->
        (hasInput playback = true -> inComplete = true)
        /\ (hasOutput playback = true -> outComplete = true))
    /\ (paComplete <> paComplete -> paComplete = paContinue).
Proof.
  eapply (PaCallback_complete_iff stale 0%float [] (repeat xff 16) 2
            (mkTimeInfo 0 0 0) 0 playback).
  vm_compute. reflexivity.
Defined.

(** The callback returns when the input queue is unbounded and the output
    queue was told to quit. *)
Lemma PaCallback_returns (g : nat -> byte) (streamTime : float)
    (input output : Memory) (frameCount : Z)
    (timeInfo : PaStreamCallbackTimeInfo) (statusFlags : Z)
    (ctx : PaContext) :
  maxQueued (mInChunks ctx) = 0 ->
  (forall o, mOutOptions ctx = Some o ->
             chunksOk (mOutChunks ctx) = true
             /\ quitting (mOutChunks ctx) = true
             /\ reqOk (output, frameBytes o frameCount) = true) ->
  exists r,
    PaCallback g streamTime input output frameCount timeInfo statusFlags ctx
    = Ok r.
Proof.
  intros Hmax Hout. unfold PaCallback.
  destruct (checkStatus_fields ctx statusFlags) as (C1 & C2 & C3 & C4 & _).
  set (ctx1 := checkStatus ctx statusFlags) in *.
  assert (Hrd : exists ctx2,
            (if hasInput ctx1
             then readPaBuffer g ctx1 input frameCount
                    (inTimestampOf streamTime timeInfo ctx)
             else Ok (false, ctx1))
            = Ok (hasInput ctx1, ctx2)
            /\ mOutOptions ctx2 = mOutOptions ctx
            /\ mOutChunks ctx2 = mOutChunks ctx).
  { unfold hasInput, readPaBuffer.
    destruct (mInOptions ctx1) as [i|]; [|eauto].
    simpl bind. unfold push. rewrite C3, Hmax.
    destruct (quitting (mInChunks ctx)); simpl; eauto. }
  destruct Hrd as (ctx2 & -> & O2 & Q2). simpl bind.
  unfold hasOutput, fillPaBuffer. rewrite O2.
  destruct (mOutOptions ctx) as [o|]; [|simpl; eauto].
  destruct (Hout o eq_refl) as (Hq & Hqt & Hr).
  simpl bind. rewrite Q2.
  destruct (fillBuffer_outcome ctx2 false output (frameBytes o frameCount)
              (mOutChunks ctx) false ltac:(discriminate) Hq Hr)
    as [[st ->]|[_ Hb]]; [simpl; eauto | congruence].
Qed.

Lemma outputSide_keeps_input (this this' : PaContext) (output d : Memory)
    (frameCount : Z) (b : bool) (p : list Output) :
  (if hasOutput this then fillPaBuffer this output frameCount
   else Ok (false, output, [], this)) = Ok (b, d, p, this') ->
  mInChunks this' = mInChunks this.
Proof.
  destruct (hasOutput this); intros E.
  - now apply fillPaBuffer_result in E as (_ & _ & _ & _ & _ & _ & ->).
  - now inversion E.
Qed.

(** C7.  When the callback returns for a context with input configured, the
    chunk it has put on the input queue is stamped with the ADC time of the
    input buffer if that time is greater than 0, and with the stream time
    less the input latency otherwise.  (A queue that was told to quit takes
    no chunk.) *)
Theorem PaCallback_input_timestamp (g : nat -> byte) (streamTime : float)
    (input output : Memory) (frameCount : Z)
    (timeInfo : PaStreamCallbackTimeInfo) (statusFlags : Z)
    (ctx ctx' : PaContext) (rc : PaStreamCallbackResult)
    (output' : Memory) (out : list Output) :
  hasInput ctx = true -> quitting (mInChunks ctx) = false ->
  PaCallback g streamTime input output frameCount timeInfo statusFlags ctx
  = Ok (rc, output', out, ctx') ->
  exists c,
    queued (mInChunks ctx') = queued (mInChunks ctx) ++ [c]
    /\ ((0 <? inputBufferAdcTime timeInfo)%float = true ->
        ts c = inputBufferAdcTime timeInfo)
    /\ ((0 <? inputBufferAdcTime timeInfo)%float = false ->
        ts c = (streamTime - mInLatency ctx)%float).
Proof.
  intros Hin Hq. unfold PaCallback.
  destruct (checkStatus_fields ctx statusFlags) as (C1 & C2 & C3 & C4 & _).
  set (ctx1 := checkStatus ctx statusFlags) in *.
  unfold hasInput in *. rewrite C1.
  destruct (mInOptions ctx) as [i|]; [|discriminate].
  destruct (readPaBuffer g ctx1 input frameCount _) as [[b ctx2]| | | |]
    eqn:Er; try discriminate.
  apply readPaBuffer_result in Er as (-> & _ & _ & _ & m & Ep).
  rewrite C3 in Ep. unfold push in Ep. rewrite Hq in Ep.
  destruct ((0 <? maxQueued (mInChunks ctx))
            && (maxQueued (mInChunks ctx)
                <=? Z.of_nat (length (queued (mInChunks ctx)))));
    [discriminate|].
  inversion Ep as [Eq]; clear Ep.
  simpl bind.
  destruct (if hasOutput ctx2 then fillPaBuffer ctx2 output frameCount
            else Ok (false, output, [], ctx2))
    as [[[[b d] p] c]| | | |] eqn:Ef; try discriminate.
  simpl. intros E; inversion E; subst.
  rewrite (outputSide_keeps_input _ _ _ _ _ _ _ Ef), <- Eq. simpl.
  eexists. split; [reflexivity|]. simpl. unfold inTimestampOf, getInLatency.
  split; intros ->; reflexivity.
Qed.

Lemma PaCallback_input_timestamp_witness :
  exists c,
    queued (mInChunks (setInChunks capture
              (mkChunks None 0
                 [mkChunk (Some (repeat x01 16)) 0.75%float] 0 false)))
    = queued (mInChunks capture) ++ [c]
    /\ ((0 <? inputBufferAdcTime (mkTimeInfo 0 0 0))%float = true ->
        ts c = inputBufferAdcTime (mkTimeInfo 0 0 0))
    /\ ((0 <? inputBufferAdcTime (mkTimeInfo 0 0 0))%float = false ->
        ts c = (1 - mInLatency capture)%float).
Proof.
  eapply (PaCallback_input_timestamp stale 1%float (repeat x01 16) [] 2
            (mkTimeInfo 0 0 0) 0 capture);
    vm_compute; reflexivity.
Defined.

(** ** Pulling input *)

(** C5 (as amended).  [pullInChunk(numBytes)] returns the timestamp, the
    [finished] flag and the queue that its fill leaves, and, with b the byte
    count of the fill: if 0 < b < numBytes the chunk's buffer has exactly b
    bytes, the first b bytes the fill wrote; if b = 0 and numBytes > 0 the
    chunk has no buffer; if b = numBytes (which includes b = numBytes = 0)
    the chunk's buffer is the fill's buffer, of numBytes bytes. *)
Theorem pullInChunk_trims (g : nat -> byte) (this : PaContext)
    (numBytes : Z) (st : FillState) :
  chunksOk (mInChunks this) = true -> 0 <= numBytes < 2 ^ 32 ->
  fillBuffer this (makeNew g numBytes) numBytes (mInChunks this) false true
  = Ok st ->
  exists c,
    pullInChunk g this numBytes
    = Ok (c, finished st, printed st, setInChunks this (chunks st))
    /\ ts c = timeStamp st
    /\ 0 <= bufOff st <= numBytes
    /\ (0 < bufOff st < numBytes ->
        exists m, chunk c = Some m /\ numBytesOf m = bufOff st
                  /\ m = firstn (Z.to_nat (bufOff st)) (buf st))
    /\ (bufOff st = 0 -> 0 < numBytes -> chunk c = None)
    /\ (bufOff st = numBytes ->
        chunk c = Some (buf st) /\ numBytesOf (buf st) = numBytes).
Proof.
  intros Hq Hn E. unfold pullInChunk. rewrite E.
  cbv beta iota zeta delta [bind].
  eexists. split; [reflexivity|]. cbn [chunk ts].
  unfold fillBuffer in E.
  pose proof (makeNew_length g numBytes (proj1 Hn)) as Hlen.
  assert (Hst : fillOk (mkFillState (makeNew g numBytes) 0 numBytes 0%float
                          (mInChunks this) false []) = true)
    by (apply fillOk_intro; simpl; auto; lia).
  destruct (fillLoop_inv _ _ _ _ _ Hst E) as (I1 & I2 & I3 & I4 & _).
  destruct (fillOk_elim _ I1) as (_ & B0 & B1 & _).
  simpl in I2, I3, I4. rewrite Hlen in I4.
  split; [reflexivity|]. split; [lia|]. split; [|split].
  - intros Hb. assert (Hne : (bufOff st =? numBytes) = false)
      by (apply Z.eqb_neq; lia).
    assert (Hne0 : (0 =? bufOff st) = false) by (apply Z.eqb_neq; lia).
    rewrite Hne, Hne0. simpl.
    rewrite memcpy_whole by lia.
    eexists. repeat split.
    unfold numBytesOf in *. rewrite length_firstn. lia.
  - intros Hb Hpos. assert (Hne : (bufOff st =? numBytes) = false)
      by (apply Z.eqb_neq; lia).
    rewrite Hne, Hb. reflexivity.
  - intros Hb. split; [|exact I4]. rewrite Hb, Z.eqb_refl. reflexivity.
Qed.

Lemma pullInChunk_trims_witness :
  exists st c,
    fillBuffer lastChunk400 (makeNew stale 1000) 1000
               (mInChunks lastChunk400) false true = Ok st
    /\ bufOff st = 400
    /\ pullInChunk stale lastChunk400 1000
       = Ok (c, finished st, printed st, setInChunks lastChunk400 (chunks st))
    /\ ts c = timeStamp st
    /\ 0 <= bufOff st <= 1000
    /\ (0 < bufOff st < 1000 ->
        exists m, chunk c = Some m /\ numBytesOf m = bufOff st
                  /\ m = firstn (Z.to_nat (bufOff st)) (buf st))
    /\ (bufOff st = 0 -> 0 < 1000 -> chunk c = None)
    /\ (bufOff st = 1000 ->
        chunk c = Some (buf st) /\ numBytesOf (buf st) = 1000).
Proof.
  assert (E : exists st,
             fillBuffer lastChunk400 (makeNew stale 1000) 1000
                        (mInChunks lastChunk400) false true = Ok st
             /\ bufOff st = 400).
  { eexists. split; [vm_compute; reflexivity | reflexivity]. }
  destruct E as (st & E & B).
  destruct (pullInChunk_trims stale lastChunk400 1000 st eq_refl
              ltac:(lia) E) as (c & H).
  exists st, c. tauto.
Defined.

(** On a queue that was told to quit, [pullInChunk] returns. *)
Lemma pullInChunk_returns (g : nat -> byte) (this : PaContext)
    (numBytes : Z) :
  mInOptions this <> None -> chunksOk (mInChunks this) = true ->
  quitting (mInChunks this) = true -> 0 <= numBytes < 2 ^ 32 ->
  exists r, pullInChunk g this numBytes = Ok r.
Proof.
  intros Hin Hq Hqt Hn. unfold pullInChunk.
  destruct (fillBuffer_outcome this true (makeNew g numBytes) numBytes
              (mInChunks this) false (fun _ => Hin) Hq)
    as [[st ->]|[_ Hb]].
  - unfold reqOk. simpl. rewrite makeNew_length by lia.
    rewrite !andb_true_iff, !Z.leb_le, Z.ltb_lt. lia.
  - simpl. eauto.
  - congruence.
Qed.

(** A request for no bytes: the fill yields 0 bytes, and the chunk handed
    back has a buffer, of length 0; the queue still holds data. *)
Lemma pullInChunk_zero_request :
  let this := setInChunks duplex resumed96 in
  exists st c,
    fillBuffer this (makeNew stale 0) 0 (mInChunks this) false true = Ok st
    /\ bufOff st = 0
    /\ pullInChunk stale this 0
       = Ok (c, false, [], setInChunks this (chunks st))
    /\ chunk c = Some []
    /\ chunk c <> None.
Proof.
  eexists. eexists.
  split; [vm_compute; reflexivity|].
  split; [reflexivity|].
  split; [vm_compute; reflexivity|].
  split; [reflexivity | discriminate].
Qed.

(** ** The offset stays inside the current chunk *)

Lemma fillStep_incOffsetCall (this : PaContext) (isInput : bool)
    (st st' : FillState) (again : bool) :
  fillOk st = true ->
  fillStep this isInput st = Ok (again, st') ->
  if again
  then exists n q,
         incOffsetCall st = Some (numBytes st, n, q)
         /\ chunks st' = incOffset n q
         /\ withinChunk (numBytes st, n, q)
  else incOffsetCall st = None.
Proof.
  intros Hst. pose proof (fillOk_elim st Hst) as (Hq & _ & Hnum & _).
  assert (Hcall : forall q s, chunksOk q = true ->
            copyFill this isInput st q = Ok s ->
            chunks s = incOffset (copyBytes (numBytes st) q) q
            /\ withinChunk (numBytes st, copyBytes (numBytes st) q, q)).
  { intros q s Hq' Ec.
    pose proof (copyFill_inv _ _ _ _ _ Hst Hq' Ec) as H. cbv zeta in H.
    destruct H as (Hn & Hn' & _ & _ & Hch & _).
    split; [exact Hch|]. unfold withinChunk.
    destruct (incOffset_ok q (copyBytes (numBytes st) q) Hq') as [Hok Hoff];
      [lia|].
    destruct (chunksOk_elim _ Hok) as (H0 & _).
    repeat split; try lia.
    - unfold copyFill in Ec.
      destruct (if (0 =? bufOff st) && isInput
                then o <- deref (mInOptions this) ;;
                     Ok (curTs q + timeOffset o (curOffset q))%float
                else Ok (timeStamp st)); try discriminate.
      simpl in Ec. destruct (curBuf q); [discriminate | discriminate].
    - apply copyBytes_exact; auto.
    - unfold curOffset in *. lia. }
  unfold fillStep, incOffsetCall.
  destruct (needsNext (chunks st)).
  - destruct (waitNext (chunks st)) as [q| | | |] eqn:Ew; try discriminate.
    pose proof (waitNext_ok _ _ Hq Ew) as Hq'.
    simpl bind. destruct (curBuf q).
    + destruct (copyFill this isInput st q) as [s| | | |] eqn:Ec;
        try discriminate.
      simpl. intros E; inversion E; subst.
      destruct (Hcall _ _ Hq' Ec). eauto.
    + intros E; inversion E; subst. reflexivity.
  - destruct (copyFill this isInput st (chunks st)) as [s| | | |] eqn:Ec;
      try discriminate.
    simpl. intros E; inversion E; subst.
    destruct (Hcall _ _ Hq Ec). eauto.
Qed.

(** C6.  Started in a state that satisfies the queue invariant, the fill loop
    makes every one of its [incOffset(n)] calls on a queue with a current
    chunk, with [n] the smaller of the bytes still wanted and the bytes left
    in that chunk, so that n <= curBytes - curOffset and the offset after the
    call does not pass the end of the chunk; the queue the loop leaves
    behind satisfies the invariant again. *)
Theorem incOffset_within_chunk (this : PaContext) (isInput : bool)
    (fuel : nat) (st : FillState) :
  fillOk st = true ->
  Forall withinChunk (incOffsetCalls fuel this isInput st)
  /\ (forall st', fillLoop fuel this isInput st = Ok st' ->
                  chunksOk (chunks st') = true
                  /\ 0 <= curOffset (chunks st') <= curBytes (chunks st')).
Proof.
  intros Hst. split.
  - revert st Hst. induction fuel as [|fuel IH]; intros st Hst; simpl;
      destruct (numBytes st =? 0); try constructor.
    destruct (fillStep this isInput st) as [[again s]| | | |] eqn:Es;
      try constructor.
    pose proof (fillStep_incOffsetCall _ _ _ _ _ Hst Es) as Hc.
    pose proof (fillStep_inv _ _ _ _ _ Hst Es) as (Hs & _).
    destruct again.
    + destruct Hc as (n & q & -> & _ & W).
      constructor; [exact W | now apply IH].
    + rewrite Hc. constructor.
  - intros st' E.
    destruct (fillLoop_inv _ _ _ _ _ Hst E) as (I1 & _).
    destruct (fillOk_elim _ I1) as (Hq & _).
    split; [exact Hq|]. now destruct (chunksOk_elim _ Hq).
Qed.

Lemma incOffset_within_chunk_witness :
  Forall withinChunk (incOffsetCalls 4 duplex true shortFill)
  /\ (forall st', fillLoop 4 duplex true shortFill = Ok st' ->
                  chunksOk (chunks st') = true
                  /\ 0 <= curOffset (chunks st') <= curBytes (chunks st')).
Proof.
  exact (incOffset_within_chunk duplex true 4 shortFill eq_refl).
Defined.

Example shortFill_calls :
  map (fun call => snd (fst call)) (incOffsetCalls 4 duplex true shortFill)
  = [0; 3].
Proof. reflexivity. Qed.

(** ** The error string *)

Lemma length_zero_empty (s : string) :
  (String.length s =? 0)%nat = isEmptyString s.
Proof. now destruct s. Qed.

Lemma isEmptyString_spec (s : string) :
  isEmptyString s = true <-> s = ""%string.
Proof. destruct s; simpl; split; congruence. Qed.

(** C9.  [getErrStr], called for a configured direction, always leaves the
    stored error string empty.  With [closeOnError] set for that direction
    the stored string is copied to the caller's string and nothing is
    printed; otherwise the caller's string is left as it was and the stored
    string, if it is not empty, is printed.  The call returns true exactly
    when the caller's string is not empty afterwards.  Nothing else in the
    context changes. *)
Theorem getErrStr_fetch_and_clear (this : PaContext) (errStr : string)
    (isInput : bool) (o : AudioOptions) :
  (if isInput then mInOptions this else mOutOptions this) = Some o ->
  exists ret errStr' out,
    getErrStr this errStr isInput = Ok (ret, errStr', out, setErrStr this "")
    /\ mErrStr (setErrStr this "") = ""%string
    /\ (closeOnError o = true -> errStr' = mErrStr this /\ out = [])
    /\ (closeOnError o = false ->
        errStr' = errStr
        /\ (mErrStr this <> ""%string -> out = [PrintAudioIO (mErrStr this)])
        /\ (mErrStr this = ""%string -> out = []))
    /\ (ret = true <-> errStr' <> ""%string).
Proof.
  intros Ho. unfold getErrStr. rewrite Ho. simpl bind.
  rewrite length_zero_empty.
  assert (R : forall s, negb (isEmptyString s) = true <-> s <> ""%string).
  { intros s. rewrite negb_true_iff, <- isEmptyString_spec.
    destruct (isEmptyString s); split; congruence. }
  destruct (closeOnError o).
  - do 3 eexists. split; [reflexivity|]. repeat split; try discriminate.
    all: apply R.
  - destruct (isEmptyString (mErrStr this)) eqn:Ee; simpl.
    + do 3 eexists. split; [reflexivity|].
      apply isEmptyString_spec in Ee.
      repeat split; try discriminate; try apply R. congruence.
    + do 3 eexists. split; [reflexivity|].
      repeat split; try discriminate; try apply R.
      intros Hs. apply isEmptyString_spec in Hs. congruence.
Qed.

Lemma getErrStr_fetch_and_clear_witness :
  exists ret errStr' out,
    getErrStr overflowed "" true
    = Ok (ret, errStr', out, setErrStr overflowed "")
    /\ mErrStr (setErrStr overflowed "") = ""%string
    /\ (closeOnError stereo48k = true ->
        errStr' = mErrStr overflowed /\ out = [])
    /\ (closeOnError stereo48k = false ->
        errStr' = ""%string
        /\ (mErrStr overflowed <> ""%string ->
            out = [PrintAudioIO (mErrStr overflowed)])
        /\ (mErrStr overflowed = ""%string -> out = []))
    /\ (ret = true <-> errStr' <> ""%string).
Proof.
  exact (getErrStr_fetch_and_clear overflowed "" true stereo48k eq_refl).
Defined.

Example overflowed_text :
  mErrStr overflowed = "portAudio status - input overflow "%string.
Proof. reflexivity. Qed.

(** ** Construction *)

Lemma format_switch_invalid (f : Z) :
  ~ In f supportedFormats ->
  match f with
  | 1 => Ok paFloat32
  | 8 => Ok paInt8
  | 16 => Ok paInt16
  | 24 => Ok paInt24
  | 32 => Ok paInt32
  | _ => Throws "Invalid sampleFormat"
  end = @Throws Z "Invalid sampleFormat".
Proof.
  unfold supportedFormats. intros H.
  destruct f as [|p|p]; try reflexivity.
  do 6 (try match goal with
            | p : positive |- _ => destruct p as [p|p|]
            end; try reflexivity).
  all: exfalso; apply H; simpl; tauto.
Qed.

Lemma format_switch_valid (f fmt : Z) :
  match f with
  | 1 => Ok paFloat32
  | 8 => Ok paInt8
  | 16 => Ok paInt16
  | 24 => Ok paInt24
  | 32 => Ok paInt32
  | _ => Throws "Invalid sampleFormat"
  end = Ok fmt ->
  (f = 1 /\ fmt = paFloat32) \/ (f = 8 /\ fmt = paInt8)
  \/ (f = 16 /\ fmt = paInt16) \/ (f = 24 /\ fmt = paInt24)
  \/ (f = 32 /\ fmt = paInt32).
Proof.
  destruct f as [|p|p]; try discriminate.
  do 6 (try match goal with
            | p : positive |- _ => destruct p as [p|p|]
            end; try discriminate).
  all: intros E; inversion E; tauto.
Qed.

Lemma setParams_cases (__arm__ : bool) (pa : PortAudio) (isInput : bool)
    (o : AudioOptions) :
  setParams __arm__ pa isInput o =
  if chosenDevice pa isInput o =? paNoDevice
  then Throws "No default device"
  else if maxChannelsOf pa isInput o <? int32_cast (channelCount o)
  then Throws "Channel count exceeds maximum number of channels for device"
  else
    fmt <- (match sampleFormat o with
            | 1 => Ok paFloat32
            | 8 => Ok paInt8
            | 16 => Ok paInt16
            | 24 => Ok paInt24
            | 32 => Ok paInt32
            | _ => Throws "Invalid sampleFormat"
            end) ;;
    Ok (Params.mk (chosenDevice pa isInput o) (int32_cast (channelCount o))
                  fmt
                  (let info :=
                     Pa_GetDeviceInfo pa (chosenDevice pa isInput o) in
                   if __arm__
                   then if isInput then defaultHighInputLatency info
                        else defaultHighOutputLatency info
                   else if isInput then defaultLowInputLatency info
                        else defaultLowOutputLatency info),
        to_double (sampleRate o),
        [PrintDevice isInput (chosenDevice pa isInput o)]).
Proof. reflexivity. Qed.

Lemma format_switch_supported (f : Z) :
  In f supportedFormats ->
  exists fmt,
    match f with
    | 1 => Ok paFloat32
    | 8 => Ok paInt8
    | 16 => Ok paInt16
    | 24 => Ok paInt24
    | 32 => Ok paInt32
    | _ => Throws "Invalid sampleFormat"
    end = Ok fmt.
Proof.
  unfold supportedFormats. simpl.
  intros [<-|[<-|[<-|[<-|[<-|[]]]]]]; eexists; reflexivity.
Qed.

Lemma setParams_returns (__arm__ : bool) (pa : PortAudio) (isInput : bool)
    (o : AudioOptions) (fmt : Z) :
  chosenDevice pa isInput o <> paNoDevice ->
  int32_cast (channelCount o) <= maxChannelsOf pa isInput o ->
  (sampleFormat o = 1 /\ fmt = paFloat32)
  \/ (sampleFormat o = 8 /\ fmt = paInt8)
  \/ (sampleFormat o = 16 /\ fmt = paInt16)
  \/ (sampleFormat o = 24 /\ fmt = paInt24)
  \/ (sampleFormat o = 32 /\ fmt = paInt32) ->
  exists p rate out,
    setParams __arm__ pa isInput o = Ok (p, rate, out)
    /\ Params.device p = chosenDevice pa isInput o
    /\ Params.sampleFormat p = fmt.
Proof.
  intros Hd Hc Hf. rewrite setParams_cases.
  apply Z.eqb_neq in Hd. rewrite Hd.
  assert ((maxChannelsOf pa isInput o <? int32_cast (channelCount o)) = false)
    as -> by (apply Z.ltb_ge; lia).
  destruct Hf as [[E ->]|[[E ->]|[[E ->]|[[E ->]|[E ->]]]]]; rewrite E;
    cbn [bind]; do 3 eexists; repeat split.
Qed.

Lemma supported_format_cases (f : Z) :
  In f supportedFormats ->
  exists fmt,
    (f = 1 /\ fmt = paFloat32) \/ (f = 8 /\ fmt = paInt8)
    \/ (f = 16 /\ fmt = paInt16) \/ (f = 24 /\ fmt = paInt24)
    \/ (f = 32 /\ fmt = paInt32).
Proof.
  unfold supportedFormats. simpl.
  intros [<-|[<-|[<-|[<-|[<-|[]]]]]]; eexists; tauto.
Qed.

Lemma setParams_outcome (__arm__ : bool) (pa : PortAudio) (isInput : bool)
    (o : AudioOptions) :
  (exists r, setParams __arm__ pa isInput o = Ok r)
  \/ (exists msg, setParams __arm__ pa isInput o = Throws msg).
Proof.
  unfold setParams.
  destruct (_ =? paNoDevice); [right; eauto|].
  destruct (_ <? _); [right; eauto|].
  destruct (match sampleFormat o with
            | 1 => Ok paFloat32 | 8 => Ok paInt8 | 16 => Ok paInt16
            | 24 => Ok paInt24 | 32 => Ok paInt32
            | _ => Throws "Invalid sampleFormat" end) eqn:E;
    simpl; eauto.
  all: exfalso; destruct (sampleFormat o) as [|p|p]; try discriminate;
    do 6 (try match goal with
              | p : positive |- _ => destruct p as [p|p|]
              end; try discriminate).
Qed.

Lemma setParams_invalid_format (__arm__ : bool) (pa : PortAudio)
    (isInput : bool) (o : AudioOptions) :
  ~ In (sampleFormat o) supportedFormats ->
  exists msg, setParams __arm__ pa isInput o = Throws msg.
Proof.
  intros H. unfold setParams.
  destruct (_ =? paNoDevice); [eauto|].
  destruct (_ <? _); [eauto|].
  rewrite (format_switch_invalid _ H). simpl. eauto.
Qed.

Lemma setParams_format (__arm__ : bool) (pa : PortAudio) (isInput : bool)
    (o : AudioOptions) (p : Params.t) (rate : float) (out : list Output) :
  setParams __arm__ pa isInput o = Ok (p, rate, out) ->
  (sampleFormat o = 1 /\ Params.sampleFormat p = paFloat32)
  \/ (sampleFormat o = 8 /\ Params.sampleFormat p = paInt8)
  \/ (sampleFormat o = 16 /\ Params.sampleFormat p = paInt16)
  \/ (sampleFormat o = 24 /\ Params.sampleFormat p = paInt24)
  \/ (sampleFormat o = 32 /\ Params.sampleFormat p = paInt32).
Proof.
  unfold setParams.
  destruct (_ =? paNoDevice); [discriminate|].
  destruct (_ <? _); [discriminate|].
  destruct (match sampleFormat o with
            | 1 => Ok paFloat32 | 8 => Ok paInt8 | 16 => Ok paInt16
            | 24 => Ok paInt24 | 32 => Ok paInt32
            | _ => Throws "Invalid sampleFormat" end) as [fmt| | | |] eqn:E;
    try discriminate.
  simpl. intros E'; inversion E'; subst. simpl.
  now apply format_switch_valid.
Qed.

Lemma beforeOpenStream_rejects (__arm__ : bool) (pa : PortAudio)
    (inOptions outOptions : option AudioOptions) :
  (inOptions = None /\ outOptions = None)
  \/ (exists i o, inOptions = Some i /\ outOptions = Some o
                  /\ sampleRate i <> sampleRate o)
  \/ (exists o, (inOptions = Some o \/ outOptions = Some o)
                /\ ~ In (sampleFormat o) supportedFormats) ->
  exists msg, beforeOpenStream __arm__ pa inOptions outOptions = Throws msg.
Proof.
  intros H. unfold beforeOpenStream.
  destruct (negb (Pa_Initialize pa =? paNoError)); [eauto|].
  destruct H as [[-> ->] | [(i & o & -> & -> & Hr) | (o & Ho & Hf)]].
  - eauto.
  - apply Z.eqb_neq in Hr. rewrite Hr. simpl. eauto.
  - destruct inOptions as [i|], outOptions as [o'|];
      try (destruct Ho; discriminate).
    + destruct (negb (sampleRate i =? sampleRate o')); [eauto|].
      destruct Ho as [Ho|Ho]; inversion Ho; subst.
      * destruct (setParams_invalid_format __arm__ pa true o Hf) as [msg ->].
        simpl. eauto.
      * destruct (setParams_outcome __arm__ pa true i)
          as [[[[p r] out] ->]|[msg ->]];
          [|simpl; eauto].
        destruct (setParams_invalid_format __arm__ pa false o Hf) as [msg ->].
        simpl. eauto.
    + destruct Ho as [Ho|Ho]; inversion Ho; subst.
      destruct (setParams_invalid_format __arm__ pa true o Hf) as [msg ->].
      simpl. eauto.
    + destruct Ho as [Ho|Ho]; inversion Ho; subst.
      destruct (setParams_invalid_format __arm__ pa false o Hf) as [msg ->].
      simpl. eauto.
Qed.

(** C8.  Construction throws, before the stream is opened, when neither
    input nor output options are given, when both are given with different
    sample rates, and when the [sampleFormat] of options that are given is
    none of 1, 8, 16, 24, 32.  When [setParams] returns, the sample format
    of the stream parameters is the engine's format for the option's value:
    1 float32, 8 int8, 16 int16, 24 int24, 32 int32.  And it does return,
    with that format, for each of the five values, whenever the device it
    settles on exists and takes the channels asked for. *)
Theorem construction_rejects (__arm__ : bool) (pa : PortAudio) :
  (forall inOptions outOptions : option AudioOptions,
     (inOptions = None /\ outOptions = None)
     \/ (exists i o, inOptions = Some i /\ outOptions = Some o
                     /\ sampleRate i <> sampleRate o)
     \/ (exists o, (inOptions = Some o \/ outOptions = Some o)
                   /\ ~ In (sampleFormat o) supportedFormats) ->
     (exists msg, PaContext_new __arm__ pa inOptions outOptions = Throws msg)
     /\ opensStream __arm__ pa inOptions outOptions = false)
  /\ (forall (isInput : bool) (o : AudioOptions) (p : Params.t)
             (rate : float) (out : list Output),
        setParams __arm__ pa isInput o = Ok (p, rate, out) ->
        (sampleFormat o = 1 /\ Params.sampleFormat p = paFloat32)
        \/ (sampleFormat o = 8 /\ Params.sampleFormat p = paInt8)
        \/ (sampleFormat o = 16 /\ Params.sampleFormat p = paInt16)
        \/ (sampleFormat o = 24 /\ Params.sampleFormat p = paInt24)
        \/ (sampleFormat o = 32 /\ Params.sampleFormat p = paInt32))
  /\ (forall (isInput : bool) (o : AudioOptions) (fmt : Z),
        chosenDevice pa isInput o <> paNoDevice ->
        int32_cast (channelCount o) <= maxChannelsOf pa isInput o ->
        (sampleFormat o = 1 /\ fmt = paFloat32)
        \/ (sampleFormat o = 8 /\ fmt = paInt8)
        \/ (sampleFormat o = 16 /\ fmt = paInt16)
        \/ (sampleFormat o = 24 /\ fmt = paInt24)
        \/ (sampleFormat o = 32 /\ fmt = paInt32) ->
        exists p rate out,
          setParams __arm__ pa isInput o = Ok (p, rate, out)
          /\ Params.sampleFormat p = fmt).
Proof.
  split; [|split].
  - intros inOptions outOptions H.
    destruct (beforeOpenStream_rejects __arm__ pa inOptions outOptions H)
      as [msg E].
    unfold PaContext_new, opensStream. rewrite E. simpl. eauto.
  - intros isInput o p rate out. apply setParams_format.
  - intros isInput o fmt Hd Hc Hf.
    destruct (setParams_returns __arm__ pa isInput o fmt Hd Hc Hf)
      as (p & rate & out & E & _ & F).
    eauto.
Qed.

Lemma construction_rejects_witness :
  ((exists msg,
      PaContext_new false twoDevices (Some stereo48k)
        (Some (mkAudioOptions 0 44100 2 16 16 0 false)) = Throws msg)
   /\ opensStream false twoDevices (Some stereo48k)
        (Some (mkAudioOptions 0 44100 2 16 16 0 false)) = false)
  /\ ((exists msg,
         PaContext_new false twoDevices None
           (Some (mkAudioOptions 0 44100 2 12 16 0 false)) = Throws msg)
      /\ opensStream false twoDevices None
           (Some (mkAudioOptions 0 44100 2 12 16 0 false)) = false)
  /\ ((sampleFormat stereo48k = 1 /\ paInt32 = paFloat32)
      \/ (sampleFormat stereo48k = 8 /\ paInt32 = paInt8)
      \/ (sampleFormat stereo48k = 16 /\ paInt32 = paInt16)
      \/ (sampleFormat stereo48k = 24 /\ paInt32 = paInt24)
      \/ (sampleFormat stereo48k = 32 /\ paInt32 = paInt32))
  /\ (exists p rate out,
        setParams false twoDevices true (mkAudioOptions 0 48000 2 1 32 0 false)
        = Ok (p, rate, out) /\ Params.sampleFormat p = paFloat32)
  /\ (exists p rate out,
        setParams false twoDevices true (mkAudioOptions 0 48000 2 8 8 0 false)
        = Ok (p, rate, out) /\ Params.sampleFormat p = paInt8)
  /\ (exists p rate out,
        setParams true twoDevices false
                  (mkAudioOptions 1 48000 2 16 16 0 false)
        = Ok (p, rate, out) /\ Params.sampleFormat p = paInt16)
  /\ (exists p rate out,
        setParams true twoDevices false
                  (mkAudioOptions 1 48000 2 24 24 0 false)
        = Ok (p, rate, out) /\ Params.sampleFormat p = paInt24)
  /\ (exists p rate out,
        setParams false twoDevices true stereo48k
        = Ok (p, rate, out) /\ Params.sampleFormat p = paInt32).
Proof.
  split; [|split; [|split; [|split; [|split; [|split; [|split]]]]]].
  - apply (proj1 (construction_rejects false twoDevices)).
    right. left. exists stereo48k, (mkAudioOptions 0 44100 2 16 16 0 false).
    repeat split. simpl. lia.
  - apply (proj1 (construction_rejects false twoDevices)).
    right. right. exists (mkAudioOptions 0 44100 2 12 16 0 false).
    split; [now right|]. simpl. lia.
  - apply (proj1 (proj2 (construction_rejects false twoDevices)) true
             stereo48k (Params.mk 0 2 paInt32 0%float) (to_double 48000)
             [PrintDevice true 0]).
    reflexivity.
  - apply (proj2 (proj2 (construction_rejects false twoDevices)) true
             (mkAudioOptions 0 48000 2 1 32 0 false) paFloat32);
      [vm_compute; discriminate | vm_compute; discriminate |].
    left. split; reflexivity.
  - apply (proj2 (proj2 (construction_rejects false twoDevices)) true
             (mkAudioOptions 0 48000 2 8 8 0 false) paInt8);
      [vm_compute; discriminate | vm_compute; discriminate |].
    right. left. split; reflexivity.
  - apply (proj2 (proj2 (construction_rejects true twoDevices)) false
             (mkAudioOptions 1 48000 2 16 16 0 false) paInt16);
      [vm_compute; discriminate | vm_compute; discriminate |].
    right. right. left. split; reflexivity.
  - apply (proj2 (proj2 (construction_rejects true twoDevices)) false
             (mkAudioOptions 1 48000 2 24 24 0 false) paInt24);
      [vm_compute; discriminate | vm_compute; discriminate |].
    right. right. right. left. split; reflexivity.
  - apply (proj2 (proj2 (construction_rejects false twoDevices)) true
             stereo48k paInt32);
      [vm_compute; discriminate | vm_compute; discriminate |].
    right. right. right. right. split; reflexivity.
Defined.

(** ** The device *)

Lemma setParams_device (__arm__ : bool) (pa : PortAudio) (isInput : bool)
    (o : AudioOptions) :
  let device := if deviceInRange pa o then int32_cast (deviceID o)
                else defaultDevice pa isInput in
  (setParams __arm__ pa isInput o = Throws "No default device" <->
   device = paNoDevice)
  /\ (forall p rate out,
        setParams __arm__ pa isInput o = Ok (p, rate, out) ->
        Params.device p = device).
Proof.
  cbv zeta. unfold setParams, deviceInRange, defaultDevice.
  set (device := if (0 <=? int32_cast (deviceID o))
                    && (int32_cast (deviceID o) <? Pa_GetDeviceCount pa)
                 then int32_cast (deviceID o)
                 else if isInput then Pa_GetDefaultInputDevice pa
                      else Pa_GetDefaultOutputDevice pa).
  destruct (device =? paNoDevice) eqn:Ed.
  - apply Z.eqb_eq in Ed. split; [tauto | discriminate].
  - apply Z.eqb_neq in Ed.
    destruct ((if isInput then maxInputChannels (Pa_GetDeviceInfo pa device)
               else maxOutputChannels (Pa_GetDeviceInfo pa device))
              <? int32_cast (channelCount o)).
    + split; [split; [discriminate | tauto] | discriminate].
    + destruct (match sampleFormat o with
                | 1 => Ok paFloat32 | 8 => Ok paInt8 | 16 => Ok paInt16
                | 24 => Ok paInt24 | 32 => Ok paInt32
                | _ => Throws "Invalid sampleFormat" end) as [fmt| | | |] eqn:E;
        simpl.
      * split; [split; [discriminate | tauto]|].
        intros p rate out E'. inversion E'; subst. reflexivity.
      * split; [split; [discriminate | tauto] | discriminate].
      * split; [split; [discriminate | tauto] | discriminate].
      * assert (msg = "Invalid sampleFormat"%string) as ->.
        { destruct (sampleFormat o) as [|p|p]; try congruence;
            do 6 (try match goal with
                      | p : positive |- _ => destruct p as [p|p|]
                      end; try congruence). }
        split; [split; [discriminate | tauto] | discriminate].
      * split; [split; [discriminate | tauto] | discriminate].
Qed.

Lemma beforeOpenStream_no_device (__arm__ : bool) (pa : PortAudio)
    (inOptions outOptions : option AudioOptions) :
  beforeOpenStream __arm__ pa inOptions outOptions
  = Throws "No default device" ->
  (exists i, inOptions = Some i
             /\ setParams __arm__ pa true i = Throws "No default device")
  \/ (exists o, outOptions = Some o
                /\ setParams __arm__ pa false o = Throws "No default device").
Proof.
  unfold beforeOpenStream.
  destruct (negb (Pa_Initialize pa =? paNoError)); [discriminate|].
  destruct inOptions as [i|].
  - destruct (match outOptions with
              | Some o => negb (sampleRate i =? sampleRate o)
              | None => false end); [discriminate|].
    destruct (setParams __arm__ pa true i) as [[[p r] out]| | | |] eqn:E;
      simpl; try discriminate.
    + intros H. right.
      destruct outOptions as [o|].
      * destruct (setParams __arm__ pa false o)
          as [[[p' r'] out']| | | |] eqn:E';
          simpl in H; try discriminate.
        -- destruct (negb _) in H; discriminate.
        -- inversion H; subst. eauto.
      * simpl in H. destruct (negb _) in H; discriminate.
    + intros H; inversion H; subst. left. eauto.
  - destruct outOptions as [o|]; [|discriminate].
    simpl. intros H. right.
    destruct (setParams __arm__ pa false o) as [[[p' r'] out']| | | |] eqn:E';
      simpl in H; try discriminate.
    + destruct (negb _) in H; discriminate.
    + inversion H; subst. eauto.
Qed.

Lemma PaContext_new_succeeds (__arm__ : bool) (pa : PortAudio)
    (inOptions outOptions : option AudioOptions) :
  Pa_Initialize pa = paNoError ->
  (forall ip op rate,
     Pa_IsFormatSupported pa ip op rate = paFormatIsSupported) ->
  (forall ip op rate frames, Pa_OpenStream pa ip op rate frames = paNoError) ->
  inOptions <> None \/ outOptions <> None ->
  (forall i o, inOptions = Some i -> outOptions = Some o ->
               sampleRate i = sampleRate o) ->
  (forall (isInput : bool) o,
     (if isInput then inOptions else outOptions) = Some o ->
     chosenDevice pa isInput o <> paNoDevice
     /\ int32_cast (channelCount o) <= maxChannelsOf pa isInput o
     /\ In (sampleFormat o) supportedFormats) ->
  exists ctx out, PaContext_new __arm__ pa inOptions outOptions = Ok (ctx, out).
Proof.
  intros Hi Hf Ho Hsome Hrate Hdir.
  assert (S : forall (isInput : bool) o,
            (if isInput then inOptions else outOptions) = Some o ->
            exists p rate out,
              setParams __arm__ pa isInput o = Ok (p, rate, out)).
  { intros isInput o E. destruct (Hdir isInput o E) as (Hd & Hc & Hs).
    destruct (supported_format_cases _ Hs) as [fmt Hfmt].
    destruct (setParams_returns __arm__ pa isInput o fmt Hd Hc Hfmt)
      as (p & rate & out & E' & _). eauto. }
  unfold PaContext_new, beforeOpenStream. rewrite Hi, Z.eqb_refl.
  cbn [negb].
  destruct inOptions as [i|], outOptions as [o|].
  - rewrite (Hrate i o eq_refl eq_refl), Z.eqb_refl. cbn [negb].
    destruct (S true i eq_refl) as (p1 & r1 & o1 & ->).
    destruct (S false o eq_refl) as (p2 & r2 & o2 & ->).
    cbn [bind]. rewrite Hf, Z.eqb_refl. cbn [negb bind].
    rewrite Ho, Z.eqb_refl. cbn [negb]. eauto.
  - destruct (S true i eq_refl) as (p1 & r1 & o1 & ->).
    cbn [bind]. rewrite Hf, Z.eqb_refl. cbn [negb bind].
    rewrite Ho, Z.eqb_refl. cbn [negb]. eauto.
  - destruct (S false o eq_refl) as (p2 & r2 & o2 & ->).
    cbn [bind]. rewrite Hf, Z.eqb_refl. cbn [negb bind].
    rewrite Ho, Z.eqb_refl. cbn [negb]. eauto.
  - destruct Hsome as [H|H]; now elim H.
Qed.

(** C10.  [setParams] uses the configured device id when it is at least 0
    and less than the engine's device count, and the engine's default input
    (or output) device otherwise.  It throws "No default device" exactly
    when the id is out of that range and the engine has no default device
    for the direction, and the constructor throws that error only when this
    is so for the input or the output options it was given.  With an id out
    of range and a default device that exists, [setParams] does not fail
    for the device: it returns parameters for the default device whenever
    that device takes the channels asked for and the sample format is
    supported, and a construction whose ids are all out of range returns a
    context when the engine accepts the format and opens the stream. *)
Theorem device_fallback (__arm__ : bool) (pa : PortAudio) :
  (forall o,
     deviceInRange pa o = true <->
     0 <= int32_cast (deviceID o) < Pa_GetDeviceCount pa)
  /\ (forall isInput o p rate out,
        setParams __arm__ pa isInput o = Ok (p, rate, out) ->
        Params.device p = if deviceInRange pa o
                          then int32_cast (deviceID o)
                          else defaultDevice pa isInput)
  /\ (forall isInput o,
        setParams __arm__ pa isInput o = Throws "No default device" <->
        deviceInRange pa o = false /\ defaultDevice pa isInput = paNoDevice)
  /\ (forall inOptions outOptions,
        PaContext_new __arm__ pa inOptions outOptions
        = Throws "No default device" ->
        exists (isInput : bool) (o : AudioOptions),
          (if isInput then inOptions else outOptions) = Some o
          /\ deviceInRange pa o = false
          /\ defaultDevice pa isInput = paNoDevice)
  /\ (forall (isInput : bool) o,
        deviceInRange pa o = false ->
        defaultDevice pa isInput <> paNoDevice ->
        int32_cast (channelCount o)
        <= (let info := Pa_GetDeviceInfo pa (defaultDevice pa isInput) in
            if isInput then maxInputChannels info
            else maxOutputChannels info) ->
        In (sampleFormat o) supportedFormats ->
        exists p rate out,
          setParams __arm__ pa isInput o = Ok (p, rate, out)
          /\ Params.device p = defaultDevice pa isInput)
  /\ (forall inOptions outOptions,
        Pa_Initialize pa = paNoError ->
        (forall ip op rate,
           Pa_IsFormatSupported pa ip op rate = paFormatIsSupported) ->
        (forall ip op rate frames,
           Pa_OpenStream pa ip op rate frames = paNoError) ->
        inOptions <> None \/ outOptions <> None ->
        (forall i o, inOptions = Some i -> outOptions = Some o ->
                     sampleRate i = sampleRate o) ->
        (forall (isInput : bool) o,
           (if isInput then inOptions else outOptions) = Some o ->
           deviceInRange pa o = false
           /\ defaultDevice pa isInput <> paNoDevice
           /\ int32_cast (channelCount o)
              <= (let info :=
                    Pa_GetDeviceInfo pa (defaultDevice pa isInput) in
                  if isInput then maxInputChannels info
                  else maxOutputChannels info)
           /\ In (sampleFormat o) supportedFormats) ->
        exists ctx out,
          PaContext_new __arm__ pa inOptions outOptions = Ok (ctx, out)).
Proof.
  assert (R : forall o,
            deviceInRange pa o = true <->
            0 <= int32_cast (deviceID o) < Pa_GetDeviceCount pa).
  { intros o. unfold deviceInRange.
    rewrite andb_true_iff, Z.leb_le, Z.ltb_lt. tauto. }
  assert (T : forall isInput o,
            setParams __arm__ pa isInput o = Throws "No default device" <->
            deviceInRange pa o = false
            /\ defaultDevice pa isInput = paNoDevice).
  { intros isInput o.
    destruct (setParams_device __arm__ pa isInput o) as [D _].
    cbv zeta in D.
    rewrite D. destruct (deviceInRange pa o) eqn:E.
    - apply R in E. unfold paNoDevice.
      split; [lia | intros [? _]; discriminate].
    - tauto. }
  split; [exact R|]. split; [|split; [exact T|split; [|split]]].
  - intros isInput o p rate out E.
    destruct (setParams_device __arm__ pa isInput o) as [_ D].
    now apply D in E.
  - intros inOptions outOptions E.
    assert (B : beforeOpenStream __arm__ pa inOptions outOptions
                = Throws "No default device").
    { unfold PaContext_new in E.
      destruct (beforeOpenStream __arm__ pa inOptions outOptions)
        as [[[[ip op] r] out]| | | |]; cbn [bind] in E; try discriminate.
      - cbv zeta in E. destruct (negb _) in E; discriminate.
      - now inversion E. }
    destruct (beforeOpenStream_no_device _ _ _ _ B)
      as [(i & Hi & Ti) | (o & Ho & To)].
    + exists true, i. apply T in Ti. tauto.
    + exists false, o. apply T in To. tauto.
  - intros isInput o Hr Hd Hc Hs.
    assert (C : chosenDevice pa isInput o = defaultDevice pa isInput)
      by (unfold chosenDevice; now rewrite Hr).
    destruct (supported_format_cases _ Hs) as [fmt Hfmt].
    destruct (setParams_returns __arm__ pa isInput o fmt) as
      (p & rate & out & E & Dv & _); auto.
    + now rewrite C.
    + unfold maxChannelsOf. rewrite C. exact Hc.
    + rewrite C in Dv. eauto.
  - intros inOptions outOptions Hi Hf Ho Hsome Hrate Hdir.
    apply PaContext_new_succeeds; auto.
    intros isInput o E. destruct (Hdir isInput o E) as (Hr & Hd & Hc & Hs).
    assert (C : chosenDevice pa isInput o = defaultDevice pa isInput)
      by (unfold chosenDevice; now rewrite Hr).
    unfold maxChannelsOf. rewrite C. auto.
Qed.

Lemma device_fallback_witness :
  (setParams false twoDevices true (mkAudioOptions 5 48000 2 16 16 0 false)
   = Throws "No default device" <->
   deviceInRange twoDevices (mkAudioOptions 5 48000 2 16 16 0 false) = false
   /\ defaultDevice twoDevices true = paNoDevice)
  /\ (setParams false twoDevices false
                (mkAudioOptions (-1) 48000 2 16 16 0 false)
      = Throws "No default device" <->
      deviceInRange twoDevices (mkAudioOptions (-1) 48000 2 16 16 0 false)
      = false
      /\ defaultDevice twoDevices false = paNoDevice)
  /\ (exists p rate out,
        setParams false stereoEngine false
                  (mkAudioOptions 4294967295 48000 2 16 16 0 false)
        = Ok (p, rate, out)
        /\ Params.device p = defaultDevice stereoEngine false)
  /\ (exists p rate out,
        setParams true stereoEngine true
                  (mkAudioOptions 7 48000 2 16 16 0 false)
        = Ok (p, rate, out)
        /\ Params.device p = defaultDevice stereoEngine true)
  /\ (exists ctx out,
        PaContext_new false stereoEngine
          (Some (mkAudioOptions 7 48000 2 16 16 0 false))
          (Some (mkAudioOptions 4294967295 48000 2 16 16 0 false))
        = Ok (ctx, out)).
Proof.
  split; [|split; [|split; [|split]]].
  - apply (proj1 (proj2 (proj2 (device_fallback false twoDevices)))).
  - apply (proj1 (proj2 (proj2 (device_fallback false twoDevices)))).
  - apply (proj1 (proj2 (proj2 (proj2 (proj2
             (device_fallback false stereoEngine))))) false
             (mkAudioOptions 4294967295 48000 2 16 16 0 false));
      [reflexivity | vm_compute; discriminate | vm_compute; discriminate |].
    vm_compute. tauto.
  - apply (proj1 (proj2 (proj2 (proj2 (proj2
             (device_fallback true stereoEngine))))) true
             (mkAudioOptions 7 48000 2 16 16 0 false));
      [reflexivity | vm_compute; discriminate | vm_compute; discriminate |].
    vm_compute. tauto.
  - apply (proj2 (proj2 (proj2 (proj2 (proj2
             (device_fallback false stereoEngine)))))
             (Some (mkAudioOptions 7 48000 2 16 16 0 false))
             (Some (mkAudioOptions 4294967295 48000 2 16 16 0 false)));
      try reflexivity.
    + left. discriminate.
    + intros i o E1 E2. inversion E1; inversion E2; reflexivity.
    + intros [|] o E; inversion E; subst;
        (split; [reflexivity|]); (split; [vm_compute; discriminate|]);
        (split; [vm_compute; discriminate|]); vm_compute; tauto.
Defined.

Example fallback_to_default_output :
  setParams false (mkPortAudio 0 (fun _ => "error"%string) 2 0 1
               (fun _ => mkDeviceInfo 2 2 0%float 0%float 0%float 0%float)
               (fun _ _ _ => 0) (fun _ _ _ _ => 0) 0%float)
            false (mkAudioOptions (-1) 48000 2 16 16 0 false)
  = Ok (Params.mk 1 2 paInt16 0%float, to_double 48000,
        [PrintDevice false 1]).
Proof. reflexivity. Qed.

(** * Further properties *)

(** ** The bytes a fill delivers *)

Lemma firstn_plus {A : Type} (a b : nat) (l : list A) :
  firstn (a + b) l = firstn a l ++ firstn b (skipn a l).
Proof.
  revert l. induction a as [|a IH]; intros l; simpl; [reflexivity|].
  destruct l as [|x l]; simpl.
  - now rewrite firstn_nil.
  - now rewrite IH.
Qed.

Lemma firstn_app_le {A : Type} (n : nat) (l1 l2 : list A) :
  (n <= length l1)%nat -> firstn n (l1 ++ l2) = firstn n l1.
Proof.
  intros H. rewrite firstn_app.
  replace (n - length l1)%nat with 0%nat by lia.
  simpl. apply app_nil_r.
Qed.

Lemma skipn_app_le {A : Type} (n : nat) (l1 l2 : list A) :
  (n <= length l1)%nat -> skipn n (l1 ++ l2) = skipn n l1 ++ l2.
Proof.
  intros H. rewrite skipn_app.
  replace (n - length l1)%nat with 0%nat by lia.
  reflexivity.
Qed.

Lemma chunkData_length (c : Chunk) :
  Z.of_nat (length (chunkData c)) = chunkBytes c.
Proof.
  unfold chunkData, chunkBytes, numBytesOf. now destruct (chunk c).
Qed.

Lemma waitNext_stream (q q' : Chunks) :
  waitNext q = Ok q' -> stream q' = stream q.
Proof.
  unfold waitNext.
  destruct (current q) as [c|] eqn:Ec.
  - destruct (headOffset q =? chunkBytes c) eqn:E;
      [|intros H; now inversion H].
    apply Z.eqb_eq in E.
    assert (Hnil : skipn (Z.to_nat (headOffset q)) (chunkData c) = []).
    { apply skipn_all2. pose proof (chunkData_length c). lia. }
    unfold stream. rewrite Ec, Hnil.
    destruct (queued q) as [|c' rest].
    + destruct (quitting q); [|discriminate].
      intros H; inversion H; subst. reflexivity.
    + intros H; inversion H; subst. reflexivity.
  - unfold stream. rewrite Ec.
    destruct (queued q) as [|c' rest].
    + destruct (quitting q); [|discriminate].
      intros H; inversion H; subst. simpl. now rewrite skipn_nil.
    + intros H; inversion H; subst. simpl. now rewrite skipn_nil.
Qed.

Lemma copyFill_content (this : PaContext) (isInput : bool)
    (st s : FillState) (q : Chunks) :
  fillOk st = true -> chunksOk q = true ->
  copyFill this isInput st q = Ok s ->
  let n := Z.to_nat (bufOff s - bufOff st) in
  buf s = firstn (Z.to_nat (bufOff st)) (buf st)
            ++ firstn n (stream q)
            ++ skipn (Z.to_nat (bufOff st) + n) (buf st)
  /\ length (firstn n (stream q)) = n
  /\ stream (chunks s) = skipn n (stream q).
Proof.
  intros Hst Hq Ec. cbv zeta.
  pose proof (copyFill_inv _ _ _ _ _ Hst Hq Ec) as H. cbv zeta in H.
  rewrite (copyBytes_exact q _ Hq) in H.
  destruct H as (Hn & Hn' & Hoff & _ & Hch & _).
  destruct (fillOk_elim st Hst) as (_ & Hb0 & _).
  destruct (chunksOk_elim q Hq) as (H0 & H1 & _).
  unfold copyFill in Ec.
  destruct (if (0 =? bufOff st) && isInput
            then o <- deref (mInOptions this) ;;
                 Ok (curTs q + timeOffset o (curOffset q))%float
            else Ok (timeStamp st)) as [stamp| | | |]; try discriminate.
  simpl bind in Ec. destruct (curBuf q) as [cur|] eqn:Ecur; [|discriminate].
  simpl in Ec. inversion Ec as [Es]. clear Ec.
  rewrite (copyBytes_exact q _ Hq) in *.
  pose proof (curBuf_bytes q cur Ecur) as Hcur.
  unfold curOffset in *.
  set (m := Z.min (numBytes st) (curBytes q - headOffset q)) in *.
  assert (Hdata : exists c, current q = Some c /\ chunkData c = cur).
  { unfold curBuf in Ecur. destruct (current q) as [c|]; [|discriminate].
    exists c. unfold chunkData. now rewrite Ecur. }
  destruct Hdata as (c & Ecq & Hdata).
  assert (Hrest : (Z.to_nat m
                   <= length (skipn (Z.to_nat (headOffset q)) cur))%nat).
  { rewrite length_skipn. unfold numBytesOf in Hcur. lia. }
  rewrite <- Es in Hoff. cbn [buf bufOff chunks] in Hoff |- *.
  rewrite Hoff. replace (bufOff st + m - bufOff st) with m by lia.
  unfold stream. cbn [incOffset current headOffset queued].
  rewrite Ecq, Hdata.
  rewrite (firstn_app_le _ _ _ Hrest), (skipn_app_le _ _ _ Hrest), skipn_skipn.
  split; [|split].
  - unfold memcpy. rewrite Z2Nat.inj_add by lia. reflexivity.
  - rewrite length_firstn. lia.
  - rewrite u32_small by lia.
    now rewrite Z2Nat.inj_add, Nat.add_comm by lia.
Qed.

Lemma splice_parts {A : Type} (B X : list A) (a E : nat) :
  (a <= length B)%nat -> (a + length X <= E)%nat ->
  let L := firstn a B ++ X ++ skipn (a + length X) B in
  firstn (a + length X) L = firstn a B ++ X /\ skipn E L = skipn E B.
Proof.
  intros Ha HE. cbv zeta.
  assert (Hl : length (firstn a B ++ X) = (a + length X)%nat)
    by (rewrite length_app, length_firstn; lia).
  rewrite app_assoc. split.
  - rewrite firstn_app_le by lia. apply firstn_all2. lia.
  - rewrite skipn_app, Hl.
    rewrite (skipn_all2 (firstn a B ++ X)) by lia.
    simpl. rewrite skipn_skipn. f_equal. lia.
Qed.

Lemma fillStep_cases (this : PaContext) (isInput : bool)
    (st s : FillState) (again : bool) :
  fillOk st = true ->
  fillStep this isInput st = Ok (again, s) ->
  exists q,
    stream q = stream (chunks st) /\ chunksOk q = true
    /\ if again then copyFill this isInput st q = Ok s
       else s = finishFill isInput st q.
Proof.
  intros Hst. destruct (fillOk_elim st Hst) as (Hq & _).
  unfold fillStep. destruct (needsNext (chunks st)).
  - destruct (waitNext (chunks st)) as [q| | | |] eqn:Ew; try discriminate.
    simpl bind. destruct (curBuf q).
    + destruct (copyFill this isInput st q) as [s'| | | |] eqn:Ec;
        try discriminate.
      simpl. intros E; inversion E; subst.
      exists q. split; [now apply waitNext_stream|].
      split; [now apply (waitNext_ok (chunks st))|exact Ec].
    + intros E; inversion E; subst.
      exists q. split; [now apply waitNext_stream|].
      split; [now apply (waitNext_ok (chunks st))|reflexivity].
  - destruct (copyFill this isInput st (chunks st)) as [s'| | | |] eqn:Ec;
      try discriminate.
    simpl. intros E; inversion E; subst. exists (chunks st). auto.
Qed.

Lemma fillLoop_content (this : PaContext) (isInput : bool) (fuel : nat) :
  forall st st' : FillState,
  fillOk st = true ->
  fillLoop fuel this isInput st = Ok st' ->
  let k := Z.to_nat (bufOff st' - bufOff st) in
  buf st' = firstn (Z.to_nat (bufOff st)) (buf st)
              ++ firstn k (stream (chunks st))
              ++ repeat x00 (Z.to_nat (numBytes st'))
              ++ skipn (Z.to_nat (bufOff st + numBytes st)) (buf st)
  /\ length (firstn k (stream (chunks st))) = k
  /\ stream (chunks st') = skipn k (stream (chunks st))
  /\ (numBytes st' <> 0 -> finished st' = true).
Proof.
  assert (Hbase : forall st : FillState,
            numBytes st = 0 ->
            let k := Z.to_nat (bufOff st - bufOff st) in
            buf st = firstn (Z.to_nat (bufOff st)) (buf st)
                       ++ firstn k (stream (chunks st))
                       ++ repeat x00 (Z.to_nat (numBytes st))
                       ++ skipn (Z.to_nat (bufOff st + numBytes st)) (buf st)
            /\ length (firstn k (stream (chunks st))) = k
            /\ stream (chunks st) = skipn k (stream (chunks st))
            /\ (numBytes st <> 0 -> finished st = true)).
  { intros st E. cbv zeta. rewrite E, Z.sub_diag, Z.add_0_r. simpl.
    rewrite firstn_skipn. repeat split. congruence. }
  induction fuel as [|fuel IH]; intros st st' Hst; simpl;
    destruct (numBytes st =? 0) eqn:E0; try discriminate;
    try (apply Z.eqb_eq in E0; intros E; inversion E; subst;
         now apply Hbase).
  destruct (fillStep this isInput st) as [[again s]| | | |] eqn:Es;
    try discriminate.
  destruct (fillOk_elim st Hst) as (_ & Hb0 & Hn0 & _ & Hlen).
  destruct (fillStep_cases _ _ _ _ _ Hst Es) as (q & Hsq & Hq & Hc).
  pose proof (fillStep_inv _ _ _ _ _ Hst Es) as (Hs & Hsum & Hle & _).
  simpl bind. destruct again.
  - intros E.
    destruct (copyFill_content _ _ _ _ _ Hst Hq Hc) as (C1 & C2 & C3).
    destruct (IH _ _ Hs E) as (I1 & I2 & I3 & I4).
    destruct (fillLoop_inv _ _ _ _ _ Hs E) as (_ & _ & Hle' & _).
    rewrite Hsq in C1, C2, C3. rewrite C3 in I1, I2, I3.
    set (S := stream (chunks st)) in *.
    set (n1 := Z.to_nat (bufOff s - bufOff st)) in *.
    set (k2 := Z.to_nat (bufOff st' - bufOff s)) in *.
    assert (Hk : Z.to_nat (bufOff st' - bufOff st) = (n1 + k2)%nat)
      by (unfold n1, k2; lia).
    cbv zeta. rewrite Hk.
    assert (Ha : Z.to_nat (bufOff s) = (Z.to_nat (bufOff st) + n1)%nat)
      by (unfold n1; lia).
    destruct (splice_parts (buf st) (firstn n1 S) (Z.to_nat (bufOff st))
                (Z.to_nat (bufOff st + numBytes st))) as [P1 P2].
    { unfold numBytesOf in Hlen. lia. }
    { rewrite C2. destruct (fillOk_elim s Hs) as (_ & _ & Hns & _).
      unfold n1. lia. }
    rewrite C2 in P1, P2. rewrite <- C1 in P1, P2.
    split; [|split; [|split]].
    + rewrite I1, Ha, P1, Hsum, P2, firstn_plus, <- !app_assoc. reflexivity.
    + rewrite firstn_plus, length_app, C2, I2. reflexivity.
    + rewrite I3, skipn_skipn. f_equal. lia.
    + exact I4.
  - intros E; inversion E; subst st'. subst s. cbv zeta. simpl.
    rewrite Z.sub_diag. simpl. rewrite Hsq.
    repeat split.
Qed.

(** X1.  A fill that returns has written to the destination the next bytes
    of the queue, in queue order, then zeros up to the size asked for, and
    has left the destination beyond that size as it was; the queue is left
    holding exactly the bytes that were not delivered. *)
Theorem fillBuffer_delivers_stream (this : PaContext) (dst : Memory) (n : Z)
    (q : Chunks) (fin isInput : bool) (st : FillState) :
  chunksOk q = true -> reqOk (dst, n) = true ->
  fillBuffer this dst n q fin isInput = Ok st ->
  let k := Z.to_nat (bufOff st) in
  buf st = firstn k (stream q) ++ repeat x00 (Z.to_nat (n - bufOff st))
             ++ skipn (Z.to_nat n) dst
  /\ length (firstn k (stream q)) = k
  /\ stream (chunks st) = skipn k (stream q).
Proof.
  intros Hq Hr E. cbv zeta.
  unfold reqOk in Hr. simpl in Hr. rewrite !andb_true_iff in Hr.
  destruct Hr as [[R0 R1] R2].
  apply Z.leb_le in R0, R2. apply Z.ltb_lt in R1.
  unfold fillBuffer in E.
  assert (Hst : fillOk (mkFillState dst 0 n 0%float q fin []) = true)
    by (apply fillOk_intro; simpl; auto; lia).
  destruct (fillLoop_content _ _ _ _ _ Hst E) as (C1 & C2 & C3 & _).
  destruct (fillLoop_inv _ _ _ _ _ Hst E) as (_ & I2 & _).
  simpl in C1, C2, C3, I2. rewrite Z.sub_0_r in C1, C2, C3.
  replace (n - bufOff st) with (numBytes st) by lia.
  auto.
Qed.

Lemma fillBuffer_delivers_stream_witness :
  exists st,
    fillBuffer duplex (repeat xff 8) 6 twoChunks false false = Ok st
    /\ buf st = firstn (Z.to_nat (bufOff st)) (stream twoChunks)
                  ++ repeat x00 (Z.to_nat (6 - bufOff st))
                  ++ skipn (Z.to_nat 6) (repeat xff 8)
    /\ length (firstn (Z.to_nat (bufOff st)) (stream twoChunks))
       = Z.to_nat (bufOff st)
    /\ stream (chunks st) = skipn (Z.to_nat (bufOff st)) (stream twoChunks).
Proof.
  eexists. split; [vm_compute; reflexivity|].
  refine (fillBuffer_delivers_stream duplex (repeat xff 8) 6 twoChunks
            false false _ eq_refl eq_refl _).
  vm_compute. reflexivity.
Defined.

Example six_from_five :
  match fillBuffer duplex (repeat xff 8) 6 twoChunks false false with
  | Ok st => (bufOff st, buf st)
  | _ => (0, [])
  end = (5, [x0a; x0b; x0c; x0d; x0e; x00; xff; xff]).
Proof. reflexivity. Qed.

(** ** A short fill means the end of the stream *)

Lemma stream_length (q : Chunks) :
  chunksOk q = true -> Z.of_nat (length (stream q)) = avail q.
Proof.
  intros Hq. destruct (chunksOk_elim q Hq) as (H0 & _ & _).
  unfold stream, avail, curBytes, curOffset in *.
  rewrite length_app, length_skipn.
  assert (T : forall l, Z.of_nat (length (concat (map chunkData l)))
                        = totalBytes l).
  { induction l as [|c l IH]; simpl; [reflexivity|].
    rewrite length_app, Nat2Z.inj_add, IH, chunkData_length. reflexivity. }
  rewrite Nat2Z.inj_add, T.
  destruct (current q) as [c|].
  - pose proof (chunkData_length c). lia.
  - simpl. lia.
Qed.

Lemma fillStep_allData (this : PaContext) (isInput : bool)
    (st s : FillState) (again : bool) :
  fillOk st = true -> allData (chunks st) = true ->
  fillStep this isInput st = Ok (again, s) ->
  allData (chunks s) = true
  /\ quitting (chunks s) = quitting (chunks st)
  /\ (again = false ->
      quitting (chunks st) = true /\ stream (chunks s) = []).
Proof.
  intros Hst Hd. destruct (fillOk_elim st Hst) as (Hq & _).
  assert (Hcopy : forall q s', chunksOk q = true ->
            copyFill this isInput st q = Ok s' ->
            chunks s' = incOffset (copyBytes (numBytes st) q) q).
  { intros q s' Hq' Ec.
    pose proof (copyFill_inv _ _ _ _ _ Hst Hq' Ec) as H. cbv zeta in H.
    tauto. }
  unfold fillStep. destruct (needsNext (chunks st)) eqn:En.
  - destruct (needsNext_true _ Hq En) as [_ Ew]. rewrite Ew.
    pose proof (waitNext_ok (chunks st)) as Hw. rewrite Ew in Hw.
    unfold allData in Hd. apply andb_true_iff in Hd as [_ Hd].
    destruct (queued (chunks st)) as [|c rest] eqn:Eq.
    + destruct (quitting (chunks st)) eqn:Eqt; [|discriminate].
      simpl. intros E; inversion E; subst. simpl. repeat split.
    + simpl in Hd. apply andb_true_iff in Hd as [Hc Hrest].
      simpl bind.
      set (q := mkChunks (Some c) 0 rest (maxQueued (chunks st))
                         (quitting (chunks st))) in *.
      assert (Eb : exists m, curBuf q = Some m).
      { unfold curBuf, hasData in *. simpl. destruct (chunk c); eauto.
        discriminate. }
      destruct Eb as [m Eb]. rewrite Eb.
      destruct (copyFill this isInput st q) as [s'| | | |] eqn:Ec;
        try discriminate.
      simpl. intros E; inversion E; subst.
      rewrite (Hcopy _ _ (Hw q Hq eq_refl) Ec).
      unfold allData. simpl. rewrite Hc, Hrest.
      repeat split; discriminate.
  - destruct (copyFill this isInput st (chunks st)) as [s'| | | |] eqn:Ec;
      try discriminate.
    simpl. intros E; inversion E; subst.
    rewrite (Hcopy _ _ Hq Ec). repeat split; auto; discriminate.
Qed.

Lemma fillLoop_short (this : PaContext) (isInput : bool) (fuel : nat) :
  forall st st' : FillState,
  fillOk st = true -> allData (chunks st) = true ->
  fillLoop fuel this isInput st = Ok st' -> numBytes st' <> 0 ->
  quitting (chunks st) = true /\ stream (chunks st') = [].
Proof.
  induction fuel as [|fuel IH]; intros st st' Hst Hd; simpl;
    destruct (numBytes st =? 0) eqn:E0; try discriminate;
    try (apply Z.eqb_eq in E0; intros E; inversion E; subst; congruence).
  destruct (fillStep this isInput st) as [[again s]| | | |] eqn:Es;
    try discriminate.
  destruct (fillStep_allData _ _ _ _ _ Hst Hd Es) as (Hd' & Hqt & Hbr).
  pose proof (fillStep_inv _ _ _ _ _ Hst Es) as (Hs & _).
  simpl bind. destruct again.
  - intros E Hne. destruct (IH _ _ Hs Hd' E Hne) as [Q S].
    split; [congruence | exact S].
  - intros E _; inversion E; subst. now apply Hbr.
Qed.

Lemma fillBuffer_exact (this : PaContext) (isInput : bool) (dst : Memory)
    (n : Z) (q : Chunks) (st : FillState) :
  (isInput = true -> mInOptions this <> None) ->
  chunksOk q = true -> allData q = true -> reqOk (dst, n) = true ->
  fillBuffer this dst n q false isInput = Ok st ->
  (quitting q = true \/ n <= avail q)
  /\ bufOff st = Z.min n (avail q)
  /\ (finished st = true <-> avail q < n)
  /\ chunksOk (chunks st) = true /\ allData (chunks st) = true
  /\ quitting (chunks st) = quitting q
  /\ avail (chunks st) = avail q - Z.min n (avail q)
  /\ numBytesOf (buf st) = numBytesOf dst.
Proof.
  intros Hin Hq Hd Hr E.
  assert (Hcase : quitting q = true \/ n <= avail q).
  { destruct (quitting q) eqn:Eqt; [now left | right].
    pose proof Hr as Hr'.
    unfold reqOk in Hr'. simpl in Hr'. rewrite !andb_true_iff in Hr'.
    destruct Hr' as [[R0 R1] R2].
    apply Z.leb_le in R0, R2. apply Z.ltb_lt in R1.
    assert (Hst : fillOk (mkFillState dst 0 n 0%float q false []) = true)
      by (apply fillOk_intro; simpl; auto; lia).
    unfold fillBuffer in E.
    destruct (Z.eq_dec (numBytes st) 0) as [Hz|Hnz].
    - destruct (fillLoop_content _ _ _ _ _ Hst E) as (_ & C2 & _).
      destruct (fillLoop_inv _ _ _ _ _ Hst E) as (_ & I2 & _).
      simpl in C2, I2. rewrite length_firstn in C2.
      pose proof (stream_length q Hq). lia.
    - destruct (fillLoop_short _ _ _ _ _ Hst Hd E Hnz) as [Q _].
      simpl in Q. congruence. }
  split; [exact Hcase|].
  destruct (fillBuffer_spec this isInput dst n q Hin Hq Hd Hr Hcase)
    as (st2 & E2 & H).
  rewrite E in E2. inversion E2; subst st2. tauto.
Qed.

(** X2.  On a queue whose chunks all carry data, a fill returns fewer bytes
    than were asked for only at the end of the stream: the queue was told to
    quit, every byte it held has been delivered, and [finished] is set.  On
    a queue that was not told to quit and holds fewer bytes than are asked
    for, the fill does not return: it waits for more. *)
Theorem short_fill_is_end_of_stream (this : PaContext) (isInput : bool)
    (dst : Memory) (n : Z) (q : Chunks) :
  (isInput = true -> mInOptions this <> None) ->
  chunksOk q = true -> allData q = true -> reqOk (dst, n) = true ->
  (forall st,
     fillBuffer this dst n q false isInput = Ok st -> bufOff st < n ->
     quitting q = true /\ finished st = true
     /\ Z.of_nat (length (stream q)) = bufOff st
     /\ stream (chunks st) = [])
  /\ (quitting q = false -> avail q < n ->
      fillBuffer this dst n q false isInput = Blocks).
Proof.
  intros Hin Hq Hd Hr. split.
  - intros st E Hshort.
    destruct (fillBuffer_exact _ _ _ _ _ _ Hin Hq Hd Hr E)
      as (_ & B & F & _).
    pose proof Hr as Hr'.
    unfold reqOk in Hr'. simpl in Hr'. rewrite !andb_true_iff in Hr'.
    destruct Hr' as [[R0 R1] R2].
    apply Z.leb_le in R0, R2. apply Z.ltb_lt in R1.
    assert (Hst : fillOk (mkFillState dst 0 n 0%float q false []) = true)
      by (apply fillOk_intro; simpl; auto; lia).
    unfold fillBuffer in E.
    destruct (fillLoop_inv _ _ _ _ _ Hst E) as (_ & I2 & _). simpl in I2.
    destruct (fillLoop_short _ _ _ _ _ Hst Hd E ltac:(lia)) as [Q S].
    rewrite (stream_length q Hq).
    repeat split; auto; [apply F|]; lia.
  - intros Hqt Hlt.
    destruct (fillBuffer_outcome this isInput dst n q false Hin Hq Hr)
      as [[st E]|[E _]]; [|exact E].
    destruct (fillBuffer_exact _ _ _ _ _ _ Hin Hq Hd Hr E) as ([?|?] & _);
      [congruence | lia].
Qed.

Lemma short_fill_is_end_of_stream_witness :
  (forall st,
     fillBuffer duplex (repeat xff 8) 6 twoChunks false true = Ok st ->
     bufOff st < 6 ->
     quitting twoChunks = true /\ finished st = true
     /\ Z.of_nat (length (stream twoChunks)) = bufOff st
     /\ stream (chunks st) = [])
  /\ (quitting twoChunksOpen = false -> avail twoChunksOpen < 6 ->
      fillBuffer duplex (repeat xff 8) 6 twoChunksOpen false true = Blocks).
Proof.
  split.
  - apply (short_fill_is_end_of_stream duplex true (repeat xff 8) 6
             twoChunks); try reflexivity. discriminate.
  - apply (short_fill_is_end_of_stream duplex true (repeat xff 8) 6
             twoChunksOpen); try reflexivity. discriminate.
Defined.

(** ** What one callback does *)

Lemma PaCallback_parts (g : nat -> byte) (streamTime : float)
    (input output : Memory) (frameCount : Z)
    (timeInfo : PaStreamCallbackTimeInfo) (statusFlags : Z)
    (ctx ctx' : PaContext) (rc : PaStreamCallbackResult)
    (output' : Memory) (out : list Output) :
  PaCallback g streamTime input output frameCount timeInfo statusFlags ctx
  = Ok (rc, output', out, ctx') ->
  exists ctx2,
    mInOptions ctx2 = mInOptions ctx /\ mOutOptions ctx2 = mOutOptions ctx
    /\ mOutChunks ctx2 = mOutChunks ctx /\ mInLatency ctx2 = mInLatency ctx
    /\ mErrStr ctx2 = mErrStr (checkStatus ctx statusFlags)
    /\ match mInOptions ctx with
       | Some i =>
           push (mkChunk
                   (Some (memcpy (makeNew g (frameBytes i frameCount)) 0 input
                                 (frameBytes i frameCount)))
                   (inTimestampOf streamTime timeInfo ctx))
                (mInChunks ctx) = Ok (mInChunks ctx2)
       | None => mInChunks ctx2 = mInChunks ctx
       end
    /\ match mOutOptions ctx with
       | Some o =>
           exists st,
             fillBuffer ctx output (frameBytes o frameCount) (mOutChunks ctx)
                        false false = Ok st
             /\ output' = buf st /\ out = printed st
             /\ ctx' = setOutChunks ctx2 (chunks st)
             /\ rc = if negb (hasInput ctx) && finished st
                     then paComplete else paContinue
       | None =>
           output' = output /\ out = [] /\ ctx' = ctx2
           /\ rc = if hasInput ctx then paContinue else paComplete
       end.
Proof.
  unfold PaCallback.
  destruct (checkStatus_fields ctx statusFlags) as (C1 & C2 & C3 & C4 & C5).
  set (ctx1 := checkStatus ctx statusFlags) in *.
  assert (Hrd : forall r,
            (if hasInput ctx1
             then readPaBuffer g ctx1 input frameCount
                    (inTimestampOf streamTime timeInfo ctx)
             else Ok (false, ctx1)) = Ok r ->
            fst r = hasInput ctx
            /\ mInOptions (snd r) = mInOptions ctx
            /\ mOutOptions (snd r) = mOutOptions ctx
            /\ mOutChunks (snd r) = mOutChunks ctx
            /\ mInLatency (snd r) = mInLatency ctx
            /\ mErrStr (snd r) = mErrStr ctx1
            /\ match mInOptions ctx with
               | Some i =>
                   push (mkChunk
                           (Some (memcpy (makeNew g (frameBytes i frameCount))
                                         0 input (frameBytes i frameCount)))
                           (inTimestampOf streamTime timeInfo ctx))
                        (mInChunks ctx) = Ok (mInChunks (snd r))
               | None => mInChunks (snd r) = mInChunks ctx
               end).
  { intros r. unfold hasInput, readPaBuffer. rewrite C1.
    destruct (mInOptions ctx) as [i|] eqn:Ei.
    - simpl bind. rewrite C3.
      destruct (push _ (mInChunks ctx)) as [q| | | |] eqn:Ep;
        try discriminate.
      simpl. intros E; inversion E; subst. simpl. repeat split; auto.
    - intros E; inversion E; subst. simpl. repeat split; auto. }
  destruct (if hasInput ctx1
            then readPaBuffer g ctx1 input frameCount
                   (inTimestampOf streamTime timeInfo ctx)
            else Ok (false, ctx1)) as [[b ctx2]| | | |] eqn:Er;
    try discriminate.
  destruct (Hrd _ eq_refl) as (R0 & R1 & R2 & R3 & R4 & R5 & R6).
  simpl in R0, R1, R2, R3, R4, R5, R6. subst b.
  simpl bind. intros E. exists ctx2.
  repeat (split; [assumption|]).
  unfold hasOutput, fillPaBuffer in E. rewrite R2 in E.
  destruct (mOutOptions ctx) as [o|].
  - simpl bind in E. rewrite R3 in E.
    unfold fillBuffer in E. rewrite (fillLoop_output_this ctx2 ctx) in E.
    fold (fillBuffer ctx output (frameBytes o frameCount) (mOutChunks ctx)
                     false false) in E.
    destruct (fillBuffer ctx output (frameBytes o frameCount) (mOutChunks ctx)
                         false false) as [st| | | |]; try discriminate.
    simpl in E. inversion E; subst. exists st. repeat split.
    destruct (hasInput ctx), (finished st); reflexivity.
  - simpl in E. inversion E; subst. repeat split.
    destruct (hasInput ctx); reflexivity.
Qed.

Lemma fillBuffer_pieces (this : PaContext) (dst : Memory) (n : Z)
    (q : Chunks) (fin isInput : bool) (st : FillState) :
  chunksOk q = true -> reqOk (dst, n) = true ->
  fillBuffer this dst n q fin isInput = Ok st ->
  buf st = firstn (Z.to_nat (bufOff st)) (stream q)
             ++ repeat x00 (Z.to_nat n - Z.to_nat (bufOff st))
             ++ skipn (Z.to_nat n) dst
  /\ stream (chunks st) = skipn (Z.to_nat (bufOff st)) (stream q)
  /\ 0 <= bufOff st <= n.
Proof.
  intros Hq Hr E.
  unfold reqOk in Hr. simpl in Hr. rewrite !andb_true_iff in Hr.
  destruct Hr as [[R0 R1] R2].
  apply Z.leb_le in R0, R2. apply Z.ltb_lt in R1.
  unfold fillBuffer in E.
  assert (Hst : fillOk (mkFillState dst 0 n 0%float q fin []) = true)
    by (apply fillOk_intro; simpl; auto; lia).
  destruct (fillLoop_content _ _ _ _ _ Hst E) as (C1 & _ & C3 & _).
  destruct (fillLoop_inv _ _ _ _ _ Hst E) as (I1 & I2 & I3 & _).
  destruct (fillOk_elim _ I1) as (_ & _ & B1 & _).
  simpl in C1, C3, I2, I3. rewrite Z.sub_0_r in C1, C3.
  replace (Z.to_nat n - Z.to_nat (bufOff st))%nat
    with (Z.to_nat (numBytes st)) by lia.
  repeat split; auto; lia.
Qed.

Lemma PaCallback_output_of (g : nat -> byte) (streamTime : float)
    (input output : Memory) (frameCount : Z)
    (timeInfo : PaStreamCallbackTimeInfo) (statusFlags : Z)
    (ctx ctx' : PaContext) (o : AudioOptions) (rc : PaStreamCallbackResult)
    (output' : Memory) (out : list Output) :
  mOutOptions ctx = Some o ->
  chunksOk (mOutChunks ctx) = true -> allData (mOutChunks ctx) = true ->
  reqOk (output, frameBytes o frameCount) = true ->
  PaCallback g streamTime input output frameCount timeInfo statusFlags ctx
  = Ok (rc, output', out, ctx') ->
  let n := frameBytes o frameCount in
  let k := Z.to_nat (Z.min n (avail (mOutChunks ctx))) in
  output' = firstn k (stream (mOutChunks ctx))
              ++ repeat x00 (Z.to_nat n - k) ++ skipn (Z.to_nat n) output
  /\ stream (mOutChunks ctx') = skipn k (stream (mOutChunks ctx))
  /\ (rc = paComplete <->
      hasInput ctx = false /\ avail (mOutChunks ctx) < n).
Proof.
  intros Ho Hq Hd Hr E. cbv zeta.
  destruct (PaCallback_parts _ _ _ _ _ _ _ _ _ _ _ _ E)
    as (ctx2 & _ & _ & _ & _ & _ & _ & P).
  rewrite Ho in P. destruct P as (st & Ef & -> & _ & -> & ->).
  destruct (fillBuffer_exact ctx false _ _ _ _ ltac:(discriminate)
              Hq Hd Hr Ef) as (_ & B & F & _).
  destruct (fillBuffer_pieces _ _ _ _ _ _ _ Hq Hr Ef) as (P1 & P2 & _).
  rewrite B in P1, P2. simpl. repeat split; auto.
  - destruct (hasInput ctx); [discriminate | reflexivity].
  - apply F. destruct (hasInput ctx), (finished st);
      simpl in *; congruence.
  - intros [-> Hlt]. apply F in Hlt. rewrite Hlt. reflexivity.
Qed.

Lemma fillBuffer_waits (this : PaContext) (isInput : bool) (dst : Memory)
    (n : Z) (q : Chunks) :
  (isInput = true -> mInOptions this <> None) ->
  chunksOk q = true -> allData q = true -> reqOk (dst, n) = true ->
  quitting q = false -> avail q < n ->
  fillBuffer this dst n q false isInput = Blocks.
Proof.
  intros Hin Hq Hd Hr Hqt Hlt.
  destruct (fillBuffer_outcome this isInput dst n q false Hin Hq Hr)
    as [[st E]|[E _]]; [|exact E].
  destruct (fillBuffer_exact _ _ _ _ _ _ Hin Hq Hd Hr E) as ([?|?] & _);
    [congruence | lia].
Qed.

Lemma inputSide_no_wait (g : nat -> byte) (ctx : PaContext) (input : Memory)
    (frameCount : Z) (t : float) :
  (hasInput ctx = true ->
   quitting (mInChunks ctx) = true \/ maxQueued (mInChunks ctx) <= 0
   \/ Z.of_nat (length (queued (mInChunks ctx))) < maxQueued (mInChunks ctx)) ->
  exists ctx2,
    (if hasInput ctx then readPaBuffer g ctx input frameCount t
     else Ok (false, ctx)) = Ok (hasInput ctx, ctx2)
    /\ mOutOptions ctx2 = mOutOptions ctx
    /\ mOutChunks ctx2 = mOutChunks ctx.
Proof.
  unfold hasInput, readPaBuffer.
  destruct (mInOptions ctx) as [i|]; [|eauto].
  intros H. specialize (H eq_refl). cbn [bind deref]. unfold push.
  destruct (quitting (mInChunks ctx)); [cbn [bind]; eauto|].
  assert (((0 <? maxQueued (mInChunks ctx))
           && (maxQueued (mInChunks ctx)
               <=? Z.of_nat (length (queued (mInChunks ctx))))) = false)
    as ->.
  { apply andb_false_iff.
    destruct H as [H|[H|H]]; [discriminate | left | right].
    - apply Z.ltb_ge. lia.
    - apply Z.leb_gt. lia. }
  cbn [bind]. eauto.
Qed.

(** X3.  When the output queue holds only chunks with data and either was
    told to quit or holds at least the bytes the frames ask for, and the
    input queue, if input is configured, takes a chunk without waiting (it
    was told to quit, is unbounded or has room), the callback returns
    without waiting.  It has then filled the output buffer with the next
    bytes of the output queue, as many as the frames ask for or as the
    queue holds, followed by silence up to the bytes the frames ask for;
    the queue keeps the rest; and it returns "complete" exactly when no
    input is configured and the queue held fewer bytes than the frames ask
    for.  When the output queue was not told to quit and holds fewer bytes
    than the frames ask for, the callback does not return: it waits for
    more. *)
Theorem PaCallback_output (g : nat -> byte) (streamTime : float)
    (input output : Memory) (frameCount : Z)
    (timeInfo : PaStreamCallbackTimeInfo) (statusFlags : Z)
    (ctx : PaContext) (o : AudioOptions) :
  mOutOptions ctx = Some o ->
  chunksOk (mOutChunks ctx) = true -> allData (mOutChunks ctx) = true ->
  reqOk (output, frameBytes o frameCount) = true ->
  (hasInput ctx = true ->
   quitting (mInChunks ctx) = true \/ maxQueued (mInChunks ctx) <= 0
   \/ Z.of_nat (length (queued (mInChunks ctx))) < maxQueued (mInChunks ctx)) ->
  let n := frameBytes o frameCount in
  let k := Z.to_nat (Z.min n (avail (mOutChunks ctx))) in
  (quitting (mOutChunks ctx) = true \/ n <= avail (mOutChunks ctx) ->
   exists rc output' out ctx',
     PaCallback g streamTime input output frameCount timeInfo statusFlags ctx
     = Ok (rc, output', out, ctx')
     /\ output' = firstn k (stream (mOutChunks ctx))
                    ++ repeat x00 (Z.to_nat n - k)
                    ++ skipn (Z.to_nat n) output
     /\ stream (mOutChunks ctx') = skipn k (stream (mOutChunks ctx))
     /\ (rc = paComplete <->
         hasInput ctx = false /\ avail (mOutChunks ctx) < n))
  /\ (quitting (mOutChunks ctx) = false -> avail (mOutChunks ctx) < n ->
      PaCallback g streamTime input output frameCount timeInfo statusFlags
                 ctx = Blocks).
Proof.
  intros Ho Hq Hd Hr Hin. cbv zeta.
  destruct (checkStatus_fields ctx statusFlags) as (C1 & C2 & C3 & C4 & _).
  assert (Hin1 : hasInput (checkStatus ctx statusFlags) = hasInput ctx)
    by (unfold hasInput; now rewrite C1).
  destruct (inputSide_no_wait g (checkStatus ctx statusFlags) input frameCount
              (inTimestampOf streamTime timeInfo ctx))
    as (ctx2 & Erd & O2 & Q2).
  { rewrite Hin1, C3. exact Hin. }
  rewrite C2 in O2. rewrite C4 in Q2.
  assert (Hcb : PaCallback g streamTime input output frameCount timeInfo
                           statusFlags ctx
                = (fl <- fillBuffer ctx2 output (frameBytes o frameCount)
                                    (mOutChunks ctx) false false ;;
                   Ok (if isComplete (if hasInput ctx then paContinue
                                      else paComplete)
                          && isComplete (if negb (finished fl) then paContinue
                                         else paComplete)
                       then paComplete else paContinue,
                       buf fl, printed fl, setOutChunks ctx2 (chunks fl)))).
  { unfold PaCallback. rewrite Erd, Hin1. cbn [bind].
    unfold hasOutput, fillPaBuffer. rewrite O2, Ho. cbn [bind deref].
    rewrite Q2.
    destruct (fillBuffer ctx2 output (frameBytes o frameCount)
                         (mOutChunks ctx) false false); reflexivity. }
  split.
  - intros Hcase.
    destruct (fillBuffer_spec ctx2 false output (frameBytes o frameCount)
                (mOutChunks ctx) ltac:(discriminate) Hq Hd Hr Hcase)
      as (st & Ef & _).
    pose proof Hcb as E. rewrite Ef in E. cbn [bind] in E.
    do 4 eexists. split; [exact E|].
    exact (PaCallback_output_of _ _ _ _ _ _ _ _ _ _ _ _ _ Ho Hq Hd Hr E).
  - intros Hqt Hlt. rewrite Hcb.
    rewrite (fillBuffer_waits ctx2 false output (frameBytes o frameCount)
               (mOutChunks ctx) ltac:(discriminate) Hq Hd Hr Hqt Hlt).
    reflexivity.
Qed.

Lemma PaCallback_output_witness :
  (exists rc output' out ctx',
     PaCallback stale 0%float [] (repeat xff 8) 1 (mkTimeInfo 0 0 0) 0
                playingTwo = Ok (rc, output', out, ctx')
     /\ output' = firstn (Z.to_nat (Z.min (frameBytes stereo48k 1)
                                          (avail (mOutChunks playingTwo))))
                         (stream (mOutChunks playingTwo))
                    ++ repeat x00
                         (Z.to_nat (frameBytes stereo48k 1)
                          - Z.to_nat (Z.min (frameBytes stereo48k 1)
                                            (avail (mOutChunks playingTwo))))
                    ++ skipn (Z.to_nat (frameBytes stereo48k 1))
                             (repeat xff 8)
     /\ stream (mOutChunks ctx')
        = skipn (Z.to_nat (Z.min (frameBytes stereo48k 1)
                                 (avail (mOutChunks playingTwo))))
                (stream (mOutChunks playingTwo))
     /\ (rc = paComplete <->
         hasInput playingTwo = false
         /\ avail (mOutChunks playingTwo) < frameBytes stereo48k 1))
  /\ PaCallback stale 0%float oneFrame (repeat xff 8) 1 (mkTimeInfo 0 0 0) 0
                (setOutChunks duplex twoChunksOpen) = Blocks.
Proof.
  split.
  - apply (proj1 (PaCallback_output stale 0%float [] (repeat xff 8) 1
                    (mkTimeInfo 0 0 0) 0 playingTwo stereo48k
                    eq_refl eq_refl eq_refl eq_refl
                    ltac:(discriminate))).
    left. reflexivity.
  - apply (proj2 (PaCallback_output stale 0%float oneFrame (repeat xff 8) 1
                    (mkTimeInfo 0 0 0) 0 (setOutChunks duplex twoChunksOpen)
                    stereo48k eq_refl eq_refl eq_refl eq_refl
                    ltac:(intros _; right; left; vm_compute; discriminate)));
      [reflexivity | vm_compute; reflexivity].
Defined.

Example last_callback_of_playingTwo :
  match PaCallback stale 0%float [] (repeat xff 8) 1 (mkTimeInfo 0 0 0) 0
                   playingTwo with
  | Ok (rc, output', _, _) => (rc, output')
  | _ => (paAbort, [])
  end = (paComplete, [x0a; x0b; x0c; x0d; x0e; x00; x00; x00]).
Proof. reflexivity. Qed.

(** X4.  A callback that returns leaves the options and the input latency
    of the context as they were.  The stored error string is the text for
    the status flags when one of their low 32 bits is set and is unchanged
    otherwise.  Without input configured the input queue is untouched;
    without output configured the output buffer and the output queue are
    untouched and nothing is printed. *)
Theorem PaCallback_frame (g : nat -> byte) (streamTime : float)
    (input output : Memory) (frameCount : Z)
    (timeInfo : PaStreamCallbackTimeInfo) (statusFlags : Z)
    (ctx ctx' : PaContext) (rc : PaStreamCallbackResult)
    (output' : Memory) (out : list Output) :
  PaCallback g streamTime input output frameCount timeInfo statusFlags ctx
  = Ok (rc, output', out, ctx') ->
  mInOptions ctx' = mInOptions ctx /\ mOutOptions ctx' = mOutOptions ctx
  /\ mInLatency ctx' = mInLatency ctx
  /\ mErrStr ctx' = (if u32 statusFlags =? 0 then mErrStr ctx
                     else statusText (u32 statusFlags))
  /\ (hasInput ctx = false -> mInChunks ctx' = mInChunks ctx)
  /\ (hasOutput ctx = false ->
      output' = output /\ out = [] /\ mOutChunks ctx' = mOutChunks ctx).
Proof.
  intros E.
  destruct (PaCallback_parts _ _ _ _ _ _ _ _ _ _ _ _ E)
    as (ctx2 & P1 & P2 & P3 & P4 & P5 & P6 & P7).
  assert (Herr : mErrStr (checkStatus ctx statusFlags)
                 = if u32 statusFlags =? 0 then mErrStr ctx
                   else statusText (u32 statusFlags)).
  { unfold checkStatus. now destruct (u32 statusFlags =? 0). }
  rewrite Herr in P5. unfold hasInput, hasOutput.
  destruct (mOutOptions ctx) as [o|] eqn:Eo.
  - destruct P7 as (st & _ & _ & _ & -> & _). simpl.
    repeat split; auto; try discriminate.
    intros Hi. destruct (mInOptions ctx); [discriminate | exact P6].
  - destruct P7 as (-> & -> & -> & _).
    repeat split; auto.
    intros Hi. destruct (mInOptions ctx); [discriminate | exact P6].
Qed.

Lemma PaCallback_frame_witness :
  exists ctx',
    mInOptions ctx' = mInOptions playingTwo
    /\ mOutOptions ctx' = mOutOptions playingTwo
    /\ mInLatency ctx' = mInLatency playingTwo
    /\ mErrStr ctx' = (if u32 4 =? 0 then mErrStr playingTwo
                       else statusText (u32 4))
    /\ (hasInput playingTwo = false ->
        mInChunks ctx' = mInChunks playingTwo)
    /\ (hasOutput playingTwo = false ->
        [x0a; x0b; x0c; x0d; x0e; x00; x00; x00] = repeat xff 8
        /\ [PrintFinishing false 3] = []
        /\ mOutChunks ctx' = mOutChunks playingTwo).
Proof.
  eexists.
  eapply (PaCallback_frame stale 0%float [] (repeat xff 8) 1
            (mkTimeInfo 0 0 0) 4 playingTwo _ paComplete).
  vm_compute. reflexivity.
Defined.

(** ** Pulling input, byte for byte *)

Lemma pullInChunk_content (g : nat -> byte) (this this' : PaContext)
    (n : Z) (c : Chunk) (fin : bool) (out : list Output) :
  mInOptions this <> None ->
  chunksOk (mInChunks this) = true -> allData (mInChunks this) = true ->
  0 <= n < 2 ^ 32 ->
  pullInChunk g this n = Ok (c, fin, out, this') ->
  let k := Z.to_nat (Z.min n (avail (mInChunks this))) in
  chunkData c = firstn k (stream (mInChunks this))
  /\ stream (mInChunks this') = skipn k (stream (mInChunks this))
  /\ (chunk c = None <-> 0 < n /\ avail (mInChunks this) = 0)
  /\ (fin = true <-> avail (mInChunks this) < n).
Proof.
  intros Hin Hq Hd Hn. cbv zeta. unfold pullInChunk.
  destruct (fillBuffer this (makeNew g n) n (mInChunks this) false true)
    as [st| | | |] eqn:Ef; try discriminate.
  cbv beta iota zeta delta [bind]. intros E. inversion E; subst; clear E.
  assert (Hr : reqOk (makeNew g n, n) = true).
  { unfold reqOk. simpl. rewrite makeNew_length by lia.
    rewrite !andb_true_iff, !Z.leb_le, Z.ltb_lt. lia. }
  destruct (fillBuffer_exact this true _ _ _ _ (fun _ => Hin) Hq Hd Hr Ef)
    as (_ & B & F & _ & _ & _ & _ & L).
  destruct (fillBuffer_pieces _ _ _ _ _ _ _ Hq Hr Ef) as (P1 & P2 & _).
  pose proof (avail_nonneg _ Hq) as Hav.
  pose proof (stream_length _ Hq) as Hsl.
  rewrite makeNew_length in L by lia.
  assert (Hskip : skipn (Z.to_nat n) (makeNew g n) = []).
  { apply skipn_all2. pose proof (makeNew_length g n (proj1 Hn)) as M.
    unfold numBytesOf in M. lia. }
  rewrite Hskip, app_nil_r in P1. rewrite B in *.
  set (b := Z.min n (avail (mInChunks this))) in *.
  set (S := stream (mInChunks this)) in *.
  cbn [chunk chunkData mInChunks setInChunks].
  split; [|split; [exact P2|split; [|exact F]]].
  - unfold chunkData. cbn [chunk].
    destruct (Z.eq_dec b n) as [Hbn|Hbn].
    + rewrite Hbn, Z.eqb_refl. cbn [negb]. rewrite P1, Hbn.
      rewrite Nat.sub_diag. simpl. apply app_nil_r.
    + apply Z.eqb_neq in Hbn. rewrite Hbn. cbn [negb].
      destruct (Z.eq_dec b 0) as [Hb0|Hb0].
      * rewrite Hb0. reflexivity.
      * assert (Hb0' : (0 =? b) = false) by (apply Z.eqb_neq; lia).
        change (match b with 0 => true | _ => false end) with (0 =? b).
        rewrite Hb0'. rewrite memcpy_whole by (unfold b in *; lia).
        rewrite P1, firstn_app_le
          by (rewrite length_firstn; unfold b in *; lia).
        now rewrite firstn_firstn, Nat.min_id.
  - destruct (Z.eq_dec b n) as [Hbn|Hbn].
    + rewrite Hbn, Z.eqb_refl. cbn [negb].
      split; [discriminate | unfold b in *; lia].
    + pose proof Hbn as Hbn'. apply Z.eqb_neq in Hbn. rewrite Hbn.
      cbn [negb]. destruct (Z.eq_dec b 0) as [Hb0|Hb0].
      * rewrite Hb0. simpl. split; [unfold b in *; lia | reflexivity].
      * assert (Hb0' : (0 =? b) = false) by (apply Z.eqb_neq; lia).
        change (match b with 0 => true | _ => false end) with (0 =? b).
        rewrite Hb0'. split; [discriminate | unfold b in *; lia].
Qed.

(** X5.  On an input queue whose chunks all carry data and that either was
    told to quit or holds at least [n] bytes, a pull of [n] bytes returns
    without waiting and hands back the next bytes of the queue, in queue
    order: [n] of them, or all the queue holds when that is less, and leaves
    the others in the queue.  The chunk handed back has no buffer exactly
    when bytes were asked for and the queue held none, and [finished] is
    reported exactly when the queue held fewer than [n] bytes.  On a queue
    that was not told to quit and holds fewer than [n] bytes the pull does
    not return: it waits for more. *)
Theorem pullInChunk_next_bytes (g : nat -> byte) (this : PaContext) (n : Z) :
  mInOptions this <> None ->
  chunksOk (mInChunks this) = true -> allData (mInChunks this) = true ->
  0 <= n < 2 ^ 32 ->
  let k := Z.to_nat (Z.min n (avail (mInChunks this))) in
  (quitting (mInChunks this) = true \/ n <= avail (mInChunks this) ->
   exists c fin out this',
     pullInChunk g this n = Ok (c, fin, out, this')
     /\ chunkData c = firstn k (stream (mInChunks this))
     /\ stream (mInChunks this') = skipn k (stream (mInChunks this))
     /\ (chunk c = None <-> 0 < n /\ avail (mInChunks this) = 0)
     /\ (fin = true <-> avail (mInChunks this) < n))
  /\ (quitting (mInChunks this) = false -> avail (mInChunks this) < n ->
      pullInChunk g this n = Blocks).
Proof.
  intros Hin Hq Hd Hn. cbv zeta.
  assert (Hr : reqOk (makeNew g n, n) = true).
  { unfold reqOk. simpl. rewrite makeNew_length by lia.
    rewrite !andb_true_iff, !Z.leb_le, Z.ltb_lt. lia. }
  split.
  - intros Hcase.
    destruct (fillBuffer_spec this true (makeNew g n) n (mInChunks this)
                (fun _ => Hin) Hq Hd Hr Hcase) as (st & Ef & _).
    assert (E : exists r, pullInChunk g this n = Ok r).
    { unfold pullInChunk. rewrite Ef. cbn [bind]. eauto. }
    destruct E as [[[[c fin] out] this'] E].
    exists c, fin, out, this'. split; [exact E|].
    exact (pullInChunk_content g this this' n c fin out Hin Hq Hd Hn E).
  - intros Hqt Hlt. unfold pullInChunk.
    rewrite (fillBuffer_waits this true (makeNew g n) n (mInChunks this)
               (fun _ => Hin) Hq Hd Hr Hqt Hlt).
    reflexivity.
Qed.

Lemma pullInChunk_next_bytes_witness :
  (exists c fin out this',
     pullInChunk stale recordedTwo 4 = Ok (c, fin, out, this')
     /\ chunkData c
        = firstn (Z.to_nat (Z.min 4 (avail (mInChunks recordedTwo))))
                 (stream (mInChunks recordedTwo))
     /\ stream (mInChunks this')
        = skipn (Z.to_nat (Z.min 4 (avail (mInChunks recordedTwo))))
                (stream (mInChunks recordedTwo))
     /\ (chunk c = None <-> 0 < 4 /\ avail (mInChunks recordedTwo) = 0)
     /\ (fin = true <-> avail (mInChunks recordedTwo) < 4))
  /\ pullInChunk stale (setInChunks capture twoChunksOpen) 8 = Blocks.
Proof.
  split.
  - apply (proj1 (pullInChunk_next_bytes stale recordedTwo 4
                    ltac:(discriminate) eq_refl eq_refl
                    ltac:(lia))).
    left. reflexivity.
  - apply (proj2 (pullInChunk_next_bytes stale
                    (setInChunks capture twoChunksOpen) 8
                    ltac:(discriminate) eq_refl eq_refl
                    ltac:(lia)));
      [reflexivity | vm_compute; reflexivity].
Defined.

Example pull_four_then_four :
  match pullInChunk stale recordedTwo 4 with
  | Ok (c1, fin1, _, this1) =>
      match pullInChunk stale this1 4 with
      | Ok (c2, fin2, _, _) => (chunk c1, fin1, chunk c2, fin2)
      | _ => (None, false, None, false)
      end
  | _ => (None, false, None, false)
  end = (Some [x0a; x0b; x0c; x0d], false, Some [x0e], true).
Proof. reflexivity. Qed.

(** ** Round trips through a queue *)

Lemma push_on_drained (c : Chunk) (q : Chunks) :
  queued q = [] -> quitting q = false ->
  push c q = Ok (mkChunks (current q) (headOffset q) [c] (maxQueued q) false).
Proof.
  intros Hqd Hqt. unfold push. rewrite Hqt, Hqd. simpl.
  destruct (0 <? maxQueued q) eqn:E1; simpl; [|reflexivity].
  destruct (maxQueued q <=? 0) eqn:E2; [|reflexivity].
  apply Z.ltb_lt in E1. apply Z.leb_le in E2. lia.
Qed.

Lemma fillBuffer_one_chunk (this : PaContext) (isInput fin : bool)
    (dst m : Memory) (t : float) (q : Chunks) (stamp : float) :
  chunksOk q = true -> needsNext q = true -> queued q = [] ->
  0 < numBytesOf m < 2 ^ 32 -> numBytesOf m <= numBytesOf dst ->
  (if isInput
   then exists o, mInOptions this = Some o
                  /\ stamp = (t + timeOffset o 0)%float
   else stamp = 0%float) ->
  fillBuffer this dst (numBytesOf m)
             (mkChunks (current q) (headOffset q) [mkChunk (Some m) t]
                       (maxQueued q) (quitting q))
             fin isInput
  = Ok (mkFillState (m ++ skipn (length m) dst) (numBytesOf m) 0 stamp
          (mkChunks (Some (mkChunk (Some m) t)) (numBytesOf m) []
                    (maxQueued q) (quitting q))
          fin []).
Proof.
  intros Hq Hn Hqd Hm Hdst Hstamp.
  set (n := numBytesOf m) in *.
  set (c := mkChunk (Some m) t).
  set (q1 := mkChunks (current q) (headOffset q) [c] (maxQueued q)
                      (quitting q)).
  assert (Hq1 : chunksOk q1 = true).
  { destruct (chunksOk_elim q Hq) as (H0 & H1 & _).
    apply chunksOk_intro; auto. simpl.
    unfold chunkOk, chunkBytes. simpl. fold n.
    apply andb_true_iff. split; [apply Z.ltb_lt; lia | reflexivity]. }
  assert (Hn1 : needsNext q1 = true) by exact Hn.
  destruct (needsNext_true q1 Hq1 Hn1) as [_ Ew]. simpl in Ew.
  set (q2 := mkChunks (Some c) 0 [] (maxQueued q) (quitting q)) in *.
  assert (Hcopy : copyBytes n q2 = n).
  { unfold copyBytes, curBytes, curOffset, chunkBytes. simpl. fold n.
    rewrite Z.sub_0_r, u32_small by lia. lia. }
  set (st0 := mkFillState dst 0 n 0%float q1 fin []).
  set (s1 := mkFillState (m ++ skipn (length m) dst) n 0 stamp
               (mkChunks (Some c) n [] (maxQueued q) (quitting q)) fin []).
  assert (Hstep : fillStep this isInput st0 = Ok (true, s1)).
  { unfold fillStep. cbn [chunks st0]. rewrite Hn1, Ew.
    cbn [bind]. unfold curBuf at 1. cbn [current chunk q2 c].
    unfold copyFill. cbn [bufOff numBytes buf timeStamp finished printed st0].
    rewrite Hcopy.
    assert (Hs : (if (0 =? 0) && isInput
                  then o <- deref (mInOptions this) ;;
                       Ok (curTs q2 + timeOffset o (curOffset q2))%float
                  else Ok 0%float) = Ok stamp).
    { simpl. destruct isInput.
      - destruct Hstamp as (o & -> & ->). reflexivity.
      - now rewrite Hstamp. }
    rewrite Hs. cbn [bind]. unfold curBuf, deref. cbn [current chunk q2 c bind].
    rewrite Z.sub_diag, Z.add_0_l, u32_small by lia.
    change (u32 0) with 0. unfold s1. f_equal. f_equal. f_equal.
    - unfold memcpy, curOffset. simpl.
      rewrite firstn_all2 by (unfold n, numBytesOf; lia).
      f_equal. f_equal. unfold n, numBytesOf. lia.
    - unfold incOffset. simpl. rewrite u32_small by lia. reflexivity. }
  assert (Hn0 : (n =? 0) = false) by (apply Z.eqb_neq; lia).
  change (fillLoop 3 this isInput st0 = Ok s1).
  change (fillLoop 3 this isInput st0)
    with (if n =? 0 then Ok st0
          else r <- fillStep this isInput st0 ;;
               let '(again, st') := r in
               if again then fillLoop 2 this isInput st' else Ok st').
  rewrite Hn0, Hstep. reflexivity.
Qed.

(** X6.  Input round trip.  On a drained input queue that was not told to
    quit, the callback's input path followed by a pull of the same number of
    bytes hands back exactly the bytes of the input buffer, stamped with the
    callback's input timestamp (plus the time of offset 0), without
    reporting [finished]; the queue is drained again afterwards. *)
Theorem input_round_trip (g : nat -> byte) (this : PaContext)
    (o : AudioOptions) (srcBuf : Memory) (frameCount : Z) (t : float) :
  mInOptions this = Some o ->
  chunksOk (mInChunks this) = true -> needsNext (mInChunks this) = true ->
  queued (mInChunks this) = [] -> quitting (mInChunks this) = false ->
  0 < frameBytes o frameCount <= numBytesOf srcBuf ->
  exists this1 this2,
    readPaBuffer g this srcBuf frameCount t = Ok (true, this1)
    /\ pullInChunk g this1 (frameBytes o frameCount)
       = Ok (mkChunk (Some (firstn (Z.to_nat (frameBytes o frameCount))
                                   srcBuf))
                     (t + timeOffset o 0)%float,
             false, [], this2)
    /\ chunksOk (mInChunks this2) = true
    /\ needsNext (mInChunks this2) = true
    /\ queued (mInChunks this2) = []
    /\ quitting (mInChunks this2) = false.
Proof.
  intros Ho Hq Hn Hqd Hqt Hfb.
  set (n := frameBytes o frameCount) in *.
  assert (Hn32 : 0 <= n < 2 ^ 32) by apply u32_range.
  set (m := firstn (Z.to_nat n) srcBuf : Memory).
  assert (Hm : numBytesOf m = n).
  { unfold m, numBytesOf in *. rewrite length_firstn. lia. }
  assert (Hmem : memcpy (makeNew g n) 0 srcBuf n = m)
    by (apply memcpy_whole; lia).
  set (q := mInChunks this) in *.
  set (q1 := mkChunks (current q) (headOffset q) [mkChunk (Some m) t]
                      (maxQueued q) (quitting q)).
  assert (Hpush : push (mkChunk (Some m) t) q = Ok q1).
  { rewrite push_on_drained by assumption. unfold q1. now rewrite Hqt. }
  assert (Hfill := fillBuffer_one_chunk (setInChunks this q1) true false
                     (makeNew g n) m t q (t + timeOffset o 0)%float
                     Hq Hn Hqd).
  rewrite Hm in Hfill. rewrite makeNew_length in Hfill by lia.
  specialize (Hfill ltac:(lia) ltac:(lia)
                (ex_intro _ o (conj Ho eq_refl))).
  fold q1 in Hfill.
  exists (setInChunks this q1). eexists.
  split; [|split].
  - unfold readPaBuffer. rewrite Ho. cbn [bind deref]. fold n.
    rewrite Hmem. change (mInChunks this) with q. rewrite Hpush.
    reflexivity.
  - unfold pullInChunk. cbn [mInChunks setInChunks]. rewrite Hfill.
    cbv beta iota zeta delta [bind]. cbn [bufOff buf timeStamp finished
                                          printed chunks].
    rewrite Z.eqb_refl. cbn [negb].
    rewrite skipn_all2, app_nil_r; [reflexivity|].
    pose proof (makeNew_length g n (proj1 Hn32)) as L.
    unfold numBytesOf in *. lia.
  - cbn [mInChunks setInChunks]. rewrite Hqt.
    repeat split.
    + apply chunksOk_intro; unfold curBytes, chunkBytes; simpl;
        rewrite ?Hm; auto; lia.
    + unfold needsNext, curBuf, curBytes, curOffset, chunkBytes. simpl.
      rewrite Hm. apply Z.eqb_refl.
Qed.

Lemma input_round_trip_witness :
  exists this1 this2,
    readPaBuffer stale capture oneFrame 1 0.5%float = Ok (true, this1)
    /\ pullInChunk stale this1 (frameBytes stereo48k 1)
       = Ok (mkChunk (Some (firstn (Z.to_nat (frameBytes stereo48k 1))
                                   oneFrame))
                     (0.5 + timeOffset stereo48k 0)%float,
             false, [], this2)
    /\ chunksOk (mInChunks this2) = true
    /\ needsNext (mInChunks this2) = true
    /\ queued (mInChunks this2) = []
    /\ quitting (mInChunks this2) = false.
Proof.
  apply (input_round_trip stale capture stereo48k oneFrame 1 0.5%float);
    try reflexivity.
  vm_compute. split; [reflexivity | discriminate].
Defined.

(** X7.  Output round trip.  On a drained output queue that was not told
    to quit, a chunk pushed with [pushOutChunk] whose size is that of the
    callback's frames comes out of the next [fillPaBuffer] byte for byte;
    the output path reports that it goes on, prints nothing, and leaves the
    queue drained again. *)
Theorem output_round_trip (this : PaContext) (o : AudioOptions)
    (m dst : Memory) (t : float) (frameCount : Z) :
  mOutOptions this = Some o ->
  chunksOk (mOutChunks this) = true -> needsNext (mOutChunks this) = true ->
  queued (mOutChunks this) = [] -> quitting (mOutChunks this) = false ->
  numBytesOf m = frameBytes o frameCount -> 0 < numBytesOf m ->
  numBytesOf dst = numBytesOf m ->
  exists this1 this2,
    pushOutChunk this (mkChunk (Some m) t) = Ok this1
    /\ fillPaBuffer this1 dst frameCount = Ok (true, m, [], this2)
    /\ chunksOk (mOutChunks this2) = true
    /\ needsNext (mOutChunks this2) = true
    /\ queued (mOutChunks this2) = []
    /\ quitting (mOutChunks this2) = false.
Proof.
  intros Ho Hq Hn Hqd Hqt Hm Hpos Hdst.
  assert (Hn32 : 0 <= frameBytes o frameCount < 2 ^ 32) by apply u32_range.
  set (q := mOutChunks this) in *.
  set (q1 := mkChunks (current q) (headOffset q) [mkChunk (Some m) t]
                      (maxQueued q) (quitting q)).
  assert (Hpush : push (mkChunk (Some m) t) q = Ok q1).
  { rewrite push_on_drained by assumption. unfold q1. now rewrite Hqt. }
  assert (Hfill := fillBuffer_one_chunk (setOutChunks this q1) false false
                     dst m t q 0%float Hq Hn Hqd
                     ltac:(lia) ltac:(lia) eq_refl).
  fold q1 in Hfill.
  exists (setOutChunks this q1). eexists.
  split; [|split].
  - unfold pushOutChunk. change (mOutChunks this) with q. rewrite Hpush.
    reflexivity.
  - unfold fillPaBuffer. cbn [mOutOptions mOutChunks setOutChunks].
    rewrite Ho. cbn [bind deref]. rewrite <- Hm, Hfill.
    cbn [bind finished buf printed chunks negb].
    rewrite skipn_all2, app_nil_r; [reflexivity|].
    unfold numBytesOf in *. lia.
  - cbn [mOutChunks setOutChunks]. rewrite Hqt.
    repeat split.
    + apply chunksOk_intro; unfold curBytes, chunkBytes; simpl; auto; lia.
    + unfold needsNext, curBuf, curBytes, curOffset, chunkBytes. simpl.
      apply Z.eqb_refl.
Qed.

Lemma output_round_trip_witness :
  exists this1 this2,
    pushOutChunk duplex (mkChunk (Some oneFrame) 0%float) = Ok this1
    /\ fillPaBuffer this1 (repeat xff 8) 1 = Ok (true, oneFrame, [], this2)
    /\ chunksOk (mOutChunks this2) = true
    /\ needsNext (mOutChunks this2) = true
    /\ queued (mOutChunks this2) = []
    /\ quitting (mOutChunks this2) = false.
Proof.
  apply (output_round_trip duplex stereo48k oneFrame (repeat xff 8)
           0%float 1); reflexivity.
Defined.

(** ** After the end of the stream *)

(** X8.  A pull of one or more bytes from an input queue that is drained
    and was told to quit hands back a chunk without a buffer, stamped 0,
    reports [finished] and prints one line; it does not need the input
    options.  The queue is left drained and told to quit, so that every
    later pull does the same. *)
Theorem pullInChunk_end_of_stream (g : nat -> byte) (this : PaContext)
    (n : Z) :
  chunksOk (mInChunks this) = true -> needsNext (mInChunks this) = true ->
  queued (mInChunks this) = [] -> quitting (mInChunks this) = true ->
  0 < n < 2 ^ 32 ->
  exists this',
    pullInChunk g this n
    = Ok (mkChunk None 0%float, true, [PrintFinishing true n], this')
    /\ chunksOk (mInChunks this') = true
    /\ needsNext (mInChunks this') = true
    /\ queued (mInChunks this') = []
    /\ quitting (mInChunks this') = true.
Proof.
  intros Hq Hn Hqd Hqt Hn32.
  set (q := mInChunks this) in *.
  set (q' := mkChunks None 0 [] (maxQueued q) true).
  set (st0 := mkFillState (makeNew g n) 0 n 0%float q false []).
  assert (Hstep : fillStep this true st0
                  = Ok (false, finishFill true st0 q')).
  { unfold fillStep. change (chunks st0) with q. rewrite Hn.
    destruct (needsNext_true q Hq Hn) as [_ Ew].
    rewrite Hqd, Hqt in Ew. rewrite Ew. reflexivity. }
  assert (Hn0 : (n =? 0) = false) by (apply Z.eqb_neq; lia).
  assert (Hfill : fillBuffer this (makeNew g n) n q false true
                  = Ok (finishFill true st0 q')).
  { unfold fillBuffer, fillFuel. rewrite Hqd.
    change (fillLoop 2 this true st0 = Ok (finishFill true st0 q')).
    change (fillLoop 2 this true st0)
      with (if n =? 0 then Ok st0
            else r <- fillStep this true st0 ;;
                 let '(again, st') := r in
                 if again then fillLoop 1 this true st' else Ok st').
    rewrite Hn0, Hstep. reflexivity. }
  exists (setInChunks this q'). split.
  - unfold pullInChunk. change (mInChunks this) with q. rewrite Hfill.
    cbv beta iota zeta delta [bind].
    cbn [finishFill bufOff buf timeStamp finished printed chunks st0 app].
    assert (H0n : (0 =? n) = false) by (apply Z.eqb_neq; lia).
    rewrite H0n. reflexivity.
  - repeat split.
Qed.

Lemma pullInChunk_end_of_stream_witness :
  exists this',
    pullInChunk stale ended 8
    = Ok (mkChunk None 0%float, true, [PrintFinishing true 8], this')
    /\ chunksOk (mInChunks this') = true
    /\ needsNext (mInChunks this') = true
    /\ queued (mInChunks this') = []
    /\ quitting (mInChunks this') = true.
Proof.
  apply (pullInChunk_end_of_stream stale ended 8); try reflexivity. lia.
Defined.

(** ** Status flags, stored and fetched *)

Lemma statusText_prefix (flags : Z) :
  exists tail,
    statusText flags = ("portAudio status - " ++ tail)%string.
Proof.
  unfold statusText.
  destruct (flagSet flags paInputUnderflow),
           (flagSet flags paInputOverflow),
           (flagSet flags paOutputUnderflow),
           (flagSet flags paOutputOverflow),
           (flagSet flags paPrimingOutput);
    eexists; reflexivity.
Qed.

(** X9.  The stored status is that of the latest callback that had a status
    flag set: a status with a flag among its low 32 bits replaces whatever
    was stored, unread or not, and a status without one leaves the stored
    string alone.  A stored status text is never empty: it starts with
    "portAudio status - ", also when none of the five known flags is set. *)
Theorem checkStatus_latest_wins (ctx : PaContext) (f1 f2 : Z) :
  checkStatus (checkStatus ctx f1) f2
  = (if u32 f2 =? 0 then checkStatus ctx f1 else checkStatus ctx f2)
  /\ (u32 f2 <> 0 ->
      exists tail,
        mErrStr (checkStatus ctx f2)
        = ("portAudio status - " ++ tail)%string
        /\ mErrStr (checkStatus ctx f2) <> ""%string)
  /\ (u32 f2 <> 0 -> Z.land (u32 f2) 31 = 0 ->
      mErrStr (checkStatus ctx f2) = "portAudio status - "%string).
Proof.
  split; [|split].
  - unfold checkStatus.
    destruct (u32 f2 =? 0); [reflexivity|].
    destruct (u32 f1 =? 0); reflexivity.
  - intros H. apply Z.eqb_neq in H. unfold checkStatus. rewrite H. simpl.
    destruct (statusText_prefix (u32 f2)) as [tail ->].
    exists tail. split; [reflexivity | discriminate].
  - intros H Hl. apply Z.eqb_neq in H. unfold checkStatus. rewrite H. simpl.
    assert (Hbit : forall b, Z.land 31 b = b ->
                             flagSet (u32 f2) b = false).
    { intros b Hb. unfold flagSet. rewrite <- Hb, Z.land_assoc, Hl.
      reflexivity. }
    unfold statusText.
    rewrite !Hbit by reflexivity. reflexivity.
Qed.

Lemma checkStatus_latest_wins_witness :
  exists tail,
    mErrStr (checkStatus duplex 64)
    = ("portAudio status - " ++ tail)%string
    /\ mErrStr (checkStatus duplex 64) <> ""%string.
Proof.
  apply (proj1 (proj2 (checkStatus_latest_wins duplex 0 64))).
  vm_compute. discriminate.
Defined.



(** ** Quitting *)

(** X11.  [quit()] tells the queue of each configured direction to quit and
    leaves everything else, the queue of a direction that is not configured
    included, as it is; doing it twice is the same as doing it once.
    After it, a pull on a configured input never waits: it returns.  A chunk
    pushed to a configured output afterwards is dropped. *)
Theorem quit_unblocks (this : PaContext) :
  PaContext_quit (PaContext_quit this) = PaContext_quit this
  /\ (hasInput this = false ->
      mInChunks (PaContext_quit this) = mInChunks this)
  /\ (hasOutput this = false ->
      mOutChunks (PaContext_quit this) = mOutChunks this)
  /\ (forall (g : nat -> byte) (n : Z),
        hasInput this = true -> chunksOk (mInChunks this) = true ->
        0 <= n < 2 ^ 32 ->
        exists r, pullInChunk g (PaContext_quit this) n = Ok r)
  /\ (forall c : Chunk,
        hasOutput this = true ->
        pushOutChunk (PaContext_quit this) c = Ok (PaContext_quit this)).
Proof.
  unfold PaContext_quit, hasInput, hasOutput.
  destruct this as [i o qi qo lat err]. simpl.
  split; [|split; [|split; [|split]]].
  - destruct i, o; reflexivity.
  - intros Hi. destruct i; [discriminate|]. destruct o; reflexivity.
  - intros Ho. destruct o; [discriminate|]. destruct i; reflexivity.
  - intros g n Hi Hq Hn. destruct i as [i|]; [|discriminate].
    apply pullInChunk_returns; auto.
    + destruct o; simpl; discriminate.
    + destruct o; simpl; exact Hq.
    + destruct o; reflexivity.
  - intros c Ho. destruct o as [o|]; [|discriminate].
    destruct i; reflexivity.
Qed.

Lemma quit_unblocks_witness :
  exists r, pullInChunk stale (PaContext_quit capture) 8 = Ok r.
Proof.
  apply (proj1 (proj2 (proj2 (proj2 (quit_unblocks capture)))) stale 8);
    try reflexivity. lia.
Defined.

Example pull_before_and_after_quit :
  pullInChunk stale capture 8 = Blocks
  /\ pullInChunk stale (PaContext_quit capture) 8
     = Ok (mkChunk None 0%float, true, [PrintFinishing true 8],
           PaContext_quit capture).
Proof. split; reflexivity. Qed.

(** ** Stream parameters *)

Ltac split_cases :=
  repeat match goal with
         | H : exists _, _ |- _ => destruct H
         | H : _ /\ _ |- _ => destruct H
         end;
  try discriminate; try tauto; try lia; try congruence.

(** X12.  [setParams] returns exactly when the device it settles on exists,
    the channel count does not exceed what that device takes in the
    direction asked for, and the sample format is one of 1, 8, 16, 24, 32.
    The three failures are reported in that order: a missing device before
    the channel count, the channel count before the sample format.  On
    return the parameters carry the channel count and, as suggested
    latency, the device's default low latency for the direction, or its
    default high latency in a build that defines [__arm__]; the sample rate
    is that of the options. *)
Theorem setParams_succeeds_iff (__arm__ : bool) (pa : PortAudio)
    (isInput : bool) (o : AudioOptions) :
  let device := chosenDevice pa isInput o in
  let channels := int32_cast (channelCount o) in
  let most := maxChannelsOf pa isInput o in
  ((exists r, setParams __arm__ pa isInput o = Ok r) <->
   device <> paNoDevice /\ channels <= most
   /\ In (sampleFormat o) supportedFormats)
  /\ (setParams __arm__ pa isInput o
      = Throws "Channel count exceeds maximum number of channels for device"
      <-> device <> paNoDevice /\ most < channels)
  /\ (setParams __arm__ pa isInput o = Throws "Invalid sampleFormat" <->
      device <> paNoDevice /\ channels <= most
      /\ ~ In (sampleFormat o) supportedFormats)
  /\ (forall p rate out,
        setParams __arm__ pa isInput o = Ok (p, rate, out) ->
        Params.device p = device /\ Params.channelCount p = channels
        /\ Params.suggestedLatency p
           = (let info := Pa_GetDeviceInfo pa device in
              if __arm__
              then if isInput then defaultHighInputLatency info
                   else defaultHighOutputLatency info
              else if isInput then defaultLowInputLatency info
                   else defaultLowOutputLatency info)
        /\ rate = to_double (sampleRate o)
        /\ out = [PrintDevice isInput device]).
Proof.
  cbv zeta. rewrite setParams_cases.
  destruct (chosenDevice pa isInput o =? paNoDevice) eqn:Ed.
  { apply Z.eqb_eq in Ed. repeat split; intros; split_cases. }
  apply Z.eqb_neq in Ed.
  destruct (maxChannelsOf pa isInput o <? int32_cast (channelCount o))
    eqn:Ec.
  { apply Z.ltb_lt in Ec. repeat split; intros; split_cases. }
  apply Z.ltb_ge in Ec.
  destruct (in_dec Z.eq_dec (sampleFormat o) supportedFormats) as [Hf|Hf].
  - destruct (format_switch_supported _ Hf) as [fmt ->]. simpl.
    repeat split; intros; split_cases; eauto.
    all: match goal with
         | E : Ok _ = Ok _ |- _ => inversion E; subst; reflexivity
         end.
  - rewrite (format_switch_invalid _ Hf). simpl.
    repeat split; intros; split_cases;
      try (exfalso; apply Hf; assumption); try exact Hf.
Qed.

Lemma setParams_succeeds_iff_witness :
  exists r,
    setParams false stereoEngine false (mkAudioOptions 7 44100 2 16 16 0 false)
    = Ok r.
Proof.
  apply (proj2 (proj1 (setParams_succeeds_iff false stereoEngine false
                         (mkAudioOptions 7 44100 2 16 16 0 false)))).
  split; [vm_compute; discriminate|].
  split; [vm_compute; discriminate|].
  vm_compute. tauto.
Defined.

Example latency_by_build :
  setParams false stereoEngine false (mkAudioOptions 7 44100 2 16 16 0 false)
  = Ok (Params.mk 1 2 paInt16 0.5%float, to_double 44100,
        [PrintDevice false 1])
  /\ setParams true stereoEngine false
                (mkAudioOptions 7 44100 2 16 16 0 false)
     = Ok (Params.mk 1 2 paInt16 1%float, to_double 44100,
           [PrintDevice false 1]).
Proof. split; reflexivity. Qed.

Example three_channels_on_a_stereo_device :
  setParams false stereoEngine true (mkAudioOptions 0 48000 3 99 16 0 false)
  = Throws "Channel count exceeds maximum number of channels for device".
Proof. reflexivity. Qed.

(** ** What construction yields *)

Lemma setParams_throws (__arm__ : bool) (pa : PortAudio) (isInput : bool)
    (o : AudioOptions) (msg : string) :
  setParams __arm__ pa isInput o = Throws msg ->
  msg = "No default device"%string
  \/ msg = "Channel count exceeds maximum number of channels for device"%string
  \/ msg = "Invalid sampleFormat"%string.
Proof.
  rewrite setParams_cases.
  destruct (_ =? paNoDevice); [intros E; inversion E; auto|].
  destruct (_ <? _); [intros E; inversion E; auto|].
  destruct (in_dec Z.eq_dec (sampleFormat o) supportedFormats) as [Hf|Hf].
  - destruct (format_switch_supported _ Hf) as [fmt ->]. discriminate.
  - rewrite (format_switch_invalid _ Hf). simpl.
    intros E; inversion E; auto.
Qed.

Lemma setParams_Ok_format (__arm__ : bool) (pa : PortAudio) (isInput : bool)
    (o : AudioOptions) (r : Params.t * float * list Output) :
  setParams __arm__ pa isInput o = Ok r ->
  In (sampleFormat o) supportedFormats
  /\ snd (fst r) = to_double (sampleRate o).
Proof.
  rewrite setParams_cases.
  destruct (_ =? paNoDevice); [discriminate|].
  destruct (_ <? _); [discriminate|].
  destruct (in_dec Z.eq_dec (sampleFormat o) supportedFormats) as [Hf|Hf].
  - destruct (format_switch_supported _ Hf) as [fmt ->]. simpl.
    intros E; inversion E; subst. auto.
  - rewrite (format_switch_invalid _ Hf). discriminate.
Qed.

Lemma beforeOpenStream_Ok (__arm__ : bool) (pa : PortAudio)
    (inOptions outOptions : option AudioOptions)
    (ip op : option Params.t) (rate : float) (out : list Output) :
  beforeOpenStream __arm__ pa inOptions outOptions = Ok (ip, op, rate, out) ->
  Pa_Initialize pa = paNoError
  /\ (inOptions <> None \/ outOptions <> None)
  /\ (forall i o, inOptions = Some i -> outOptions = Some o ->
                  sampleRate i = sampleRate o)
  /\ (forall x, inOptions = Some x \/ outOptions = Some x ->
                In (sampleFormat x) supportedFormats
                /\ rate = to_double (sampleRate x))
  /\ (ip = None <-> inOptions = None) /\ (op = None <-> outOptions = None)
  /\ Pa_IsFormatSupported pa ip op rate = paFormatIsSupported.
Proof.
  unfold beforeOpenStream.
  destruct (Pa_Initialize pa =? paNoError) eqn:Ei; [|discriminate].
  apply Z.eqb_eq in Ei. cbn [negb].
  destruct inOptions as [i|], outOptions as [o|]; try discriminate.
  - destruct (sampleRate i =? sampleRate o) eqn:Er; [|discriminate].
    apply Z.eqb_eq in Er. cbn [negb].
    destruct (setParams __arm__ pa true i) as [[[p r] o1]| | | |] eqn:E1;
      try discriminate.
    destruct (setParams __arm__ pa false o) as [[[p' r'] o2]| | | |] eqn:E2;
      try discriminate.
    simpl.
    destruct (Pa_IsFormatSupported pa (Some p) (Some p') r'
              =? paFormatIsSupported) eqn:Ef; [|discriminate].
    apply Z.eqb_eq in Ef. simpl. intros E; inversion E; subst.
    apply setParams_Ok_format in E1, E2. cbn [fst snd] in E1, E2.
    repeat split; intros; split_cases;
      repeat match goal with
             | H : Some _ = Some _ |- _ => inversion H; subst; clear H
             | H : _ \/ _ |- _ => destruct H
             end; split_cases; try (left; discriminate).
  - destruct (setParams __arm__ pa true i) as [[[p r] o1]| | | |] eqn:E1;
      try discriminate.
    simpl.
    destruct (Pa_IsFormatSupported pa (Some p) None r
              =? paFormatIsSupported) eqn:Ef; [|discriminate].
    apply Z.eqb_eq in Ef. simpl. intros E; inversion E; subst.
    apply setParams_Ok_format in E1. cbn [fst snd] in E1.
    repeat split; intros; split_cases;
      repeat match goal with
             | H : Some _ = Some _ |- _ => inversion H; subst; clear H
             | H : _ \/ _ |- _ => destruct H
             end; split_cases; try (left; discriminate).
  - destruct (setParams __arm__ pa false o) as [[[p' r'] o2]| | | |] eqn:E2;
      try discriminate.
    simpl.
    destruct (Pa_IsFormatSupported pa None (Some p') r'
              =? paFormatIsSupported) eqn:Ef; [|discriminate].
    apply Z.eqb_eq in Ef. simpl. intros E; inversion E; subst.
    apply setParams_Ok_format in E2. cbn [fst snd] in E2.
    repeat split; intros; split_cases;
      repeat match goal with
             | H : Some _ = Some _ |- _ => inversion H; subst; clear H
             | H : _ \/ _ |- _ => destruct H
             end; split_cases; try (right; discriminate).
Qed.

(** X13.  A context that the constructor returns holds the options it was
    given, two fresh empty queues with the configured capacities, the
    stream's input latency and no stored error.  At least one direction is
    configured; when both are, they have the same sample rate; every
    configured direction has a supported sample format.  The stream was
    opened, after the engine accepted the format, with null parameters for
    exactly the directions that are not configured, at the sample rate of
    the options, and with the buffer size left to the engine, or with
    buffers of 256 frames in a build that defines [__arm__]. *)
Theorem PaContext_new_result (__arm__ : bool) (pa : PortAudio)
    (inOptions outOptions : option AudioOptions) (ctx : PaContext)
    (out : list Output) :
  PaContext_new __arm__ pa inOptions outOptions = Ok (ctx, out) ->
  ctx = mkPaContext inOptions outOptions
          (newChunks (match inOptions with
                      | Some i => maxQueue i | None => 0 end))
          (newChunks (match outOptions with
                      | Some o => maxQueue o | None => 0 end))
          (streamInputLatency pa) ""
  /\ (hasInput ctx = true \/ hasOutput ctx = true)
  /\ (forall i o, inOptions = Some i -> outOptions = Some o ->
                  sampleRate i = sampleRate o)
  /\ (forall x, inOptions = Some x \/ outOptions = Some x ->
                In (sampleFormat x) supportedFormats)
  /\ chunksOk (mInChunks ctx) = true /\ chunksOk (mOutChunks ctx) = true
  /\ exists ip op rate,
       Pa_IsFormatSupported pa ip op rate = paFormatIsSupported
       /\ Pa_OpenStream pa ip op rate
            (if __arm__ then 256 else paFramesPerBufferUnspecified)
          = paNoError
       /\ (ip = None <-> inOptions = None)
       /\ (op = None <-> outOptions = None)
       /\ (forall x, inOptions = Some x \/ outOptions = Some x ->
                     rate = to_double (sampleRate x)).
Proof.
  unfold PaContext_new.
  destruct (beforeOpenStream __arm__ pa inOptions outOptions)
    as [[[[ip op] rate] out0]| | | |] eqn:Eb; try discriminate.
  destruct (beforeOpenStream_Ok _ _ _ _ _ _ _ _ Eb)
    as (B1 & B2 & B3 & B4 & B5 & B6 & B7).
  cbn [bind]. cbv zeta.
  destruct (Pa_OpenStream pa ip op rate
              (if __arm__ then 256 else paFramesPerBufferUnspecified)
            =? paNoError) eqn:Eo; [|discriminate].
  apply Z.eqb_eq in Eo. cbn [negb]. intros E; inversion E; subst; clear E.
  split; [reflexivity|]. split.
  { unfold hasInput, hasOutput. simpl.
    destruct inOptions; [now left|]. destruct outOptions; [now right|].
    destruct B2; congruence. }
  split; [exact B3|]. split; [intros x Hx; now apply B4|].
  split; [reflexivity|]. split; [reflexivity|].
  exists ip, op, rate. repeat split; try tauto.
  intros x Hx. now apply B4.
Qed.

Lemma PaContext_new_result_witness :
  exists ctx out,
    PaContext_new false stereoEngine (Some stereo48k) None = Ok (ctx, out)
    /\ ctx = mkPaContext (Some stereo48k) None
               (newChunks (maxQueue stereo48k)) (newChunks 0)
               (streamInputLatency stereoEngine) ""
    /\ (hasInput ctx = true \/ hasOutput ctx = true).
Proof.
  do 2 eexists. split; [vm_compute; reflexivity|].
  refine ((fun H => conj (proj1 H) (proj1 (proj2 H)))
            (PaContext_new_result false stereoEngine (Some stereo48k) None
               _ _ _)).
  vm_compute. reflexivity.
Defined.

Example frames_per_buffer_by_build :
  let only256 :=
    mkPortAudio 0 (fun _ => "error"%string) 2 0 1
      (fun _ => mkDeviceInfo 2 2 0.125%float 0.5%float 0.25%float 1%float)
      (fun _ _ _ => 0)
      (fun _ _ _ framesPerBuffer => if framesPerBuffer =? 256 then 0 else -1)
      0.25%float in
  PaContext_new false only256 (Some stereo48k) None
  = Throws "Could not open stream: error"
  /\ exists out,
       PaContext_new true only256 (Some stereo48k) None
       = Ok (mkPaContext (Some stereo48k) None (newChunks 0) (newChunks 0)
                         0.25%float "", out).
Proof. split; [reflexivity | eexists; reflexivity]. Qed.

(** X14.  The constructor's configuration errors, exactly.  When the engine
    cannot be initialised the constructor throws "Could not initialize
    PortAudio: ..." whatever the options are.  It throws "Input and/or
    Output options must be specified" exactly when the engine was
    initialised and neither options are given, and "Input and Output sample
    rates must match" exactly when the engine was initialised and both
    options are given with different sample rates. *)
Theorem PaContext_new_config_errors (__arm__ : bool) (pa : PortAudio)
    (inOptions outOptions : option AudioOptions) :
  (Pa_Initialize pa <> paNoError ->
   PaContext_new __arm__ pa inOptions outOptions
   = Throws ("Could not initialize PortAudio: "
             ++ Pa_GetErrorText pa (Pa_Initialize pa)))
  /\ (PaContext_new __arm__ pa inOptions outOptions
      = Throws "Input and/or Output options must be specified" <->
      Pa_Initialize pa = paNoError
      /\ inOptions = None /\ outOptions = None)
  /\ (PaContext_new __arm__ pa inOptions outOptions
      = Throws "Input and Output sample rates must match" <->
      Pa_Initialize pa = paNoError
      /\ exists i o, inOptions = Some i /\ outOptions = Some o
                     /\ sampleRate i <> sampleRate o).
Proof.
  assert (Hset : forall isInput x msg,
            setParams __arm__ pa isInput x = Throws msg ->
            msg <> "Input and/or Output options must be specified"%string
            /\ msg <> "Input and Output sample rates must match"%string).
  { intros isInput x msg E.
    destruct (setParams_throws _ _ _ _ _ E) as [-> | [-> | ->]];
      split; discriminate. }
  unfold PaContext_new, beforeOpenStream.
  destruct (Pa_Initialize pa =? paNoError) eqn:Ei; cbn [negb].
  2:{ apply Z.eqb_neq in Ei. simpl.
      repeat split; intros; split_cases. }
  apply Z.eqb_eq in Ei.
  split; [congruence|].
  destruct inOptions as [i|], outOptions as [o|].
  - destruct (sampleRate i =? sampleRate o) eqn:Er; cbn [negb].
    2:{ apply Z.eqb_neq in Er. simpl.
        repeat split; intros; split_cases. exists i, o. auto. }
    apply Z.eqb_eq in Er.
    destruct (setParams __arm__ pa true i) as [[[p r] o1]| | | |] eqn:E1;
      try (simpl; repeat split; intros; split_cases; fail).
    2:{ destruct (Hset _ _ _ E1). simpl.
        repeat split; intros; split_cases. }
    destruct (setParams __arm__ pa false o) as [[[p' r'] o2]| | | |] eqn:E2;
      try (simpl; repeat split; intros; split_cases; fail).
    2:{ destruct (Hset _ _ _ E2). simpl.
        repeat split; intros; split_cases. }
    simpl. destruct (negb _); simpl;
      [|destruct (negb _)]; repeat split; intros; split_cases.
  - destruct (setParams __arm__ pa true i) as [[[p r] o1]| | | |] eqn:E1;
      try (simpl; repeat split; intros; split_cases; fail).
    2:{ destruct (Hset _ _ _ E1). simpl.
        repeat split; intros; split_cases. }
    simpl. destruct (negb _); simpl;
      [|destruct (negb _)]; repeat split; intros; split_cases.
  - destruct (setParams __arm__ pa false o) as [[[p' r'] o2]| | | |] eqn:E2;
      try (simpl; repeat split; intros; split_cases; fail).
    2:{ destruct (Hset _ _ _ E2). simpl.
        repeat split; intros; split_cases. }
    simpl. destruct (negb _); simpl;
      [|destruct (negb _)]; repeat split; intros; split_cases.
  - simpl. repeat split; intros; split_cases.
Qed.

Lemma PaContext_new_config_errors_witness :
  PaContext_new false (mkPortAudio 7 (fun _ => "no host"%string) 0 0 0
                   (fun _ => mkDeviceInfo 0 0 0%float 0%float 0%float 0%float)
                   (fun _ _ _ => 0) (fun _ _ _ _ => 0) 0%float)
                None None
  = Throws "Could not initialize PortAudio: no host".
Proof.
  apply (proj1 (PaContext_new_config_errors
                  false (mkPortAudio 7 (fun _ => "no host"%string) 0 0 0
                     (fun _ => mkDeviceInfo 0 0 0%float 0%float 0%float 0%float)
                     (fun _ _ _ => 0) (fun _ _ _ _ => 0) 0%float)
                  None None)).
  vm_compute. discriminate.
Defined.

(** ** The callback after quit *)

Lemma PaContext_quit_fields (this : PaContext) :
  mInOptions (PaContext_quit this) = mInOptions this
  /\ mOutOptions (PaContext_quit this) = mOutOptions this
  /\ mInChunks (PaContext_quit this)
     = (if hasInput this then quit (mInChunks this) else mInChunks this)
  /\ mOutChunks (PaContext_quit this)
     = (if hasOutput this then quit (mOutChunks this) else mOutChunks this).
Proof.
  unfold PaContext_quit, hasInput, hasOutput.
  destruct this as [i o qi qo lat err]. simpl.
  destruct i, o; repeat split.
Qed.

(** X15.  After [quit()] the callback never waits on a queue: it returns,
    whatever the queues hold (the output queue satisfying the queue
    invariant and the output buffer having room for the frames).  The chunk
    it makes of the input buffer is dropped: the input queue is the same
    after the callback as before. *)
Theorem callback_after_quit (g : nat -> byte) (streamTime : float)
    (input output : Memory) (frameCount : Z)
    (timeInfo : PaStreamCallbackTimeInfo) (statusFlags : Z)
    (ctx : PaContext) :
  chunksOk (mOutChunks ctx) = true ->
  (forall o, mOutOptions ctx = Some o ->
             reqOk (output, frameBytes o frameCount) = true) ->
  exists rc output' out ctx',
    PaCallback g streamTime input output frameCount timeInfo statusFlags
               (PaContext_quit ctx) = Ok (rc, output', out, ctx')
    /\ mInChunks ctx' = mInChunks (PaContext_quit ctx).
Proof.
  intros Hq Hr.
  destruct (PaContext_quit_fields ctx) as (Q1 & Q2 & Q3 & Q4).
  set (c := PaContext_quit ctx) in *.
  unfold PaCallback.
  destruct (checkStatus_fields c statusFlags) as (C1 & C2 & C3 & C4 & _).
  set (c1 := checkStatus c statusFlags) in *.
  assert (Hrd : exists c2,
            (if hasInput c1
             then readPaBuffer g c1 input frameCount
                    (inTimestampOf streamTime timeInfo c)
             else Ok (false, c1)) = Ok (hasInput c1, c2)
            /\ mInChunks c2 = mInChunks c
            /\ mOutOptions c2 = mOutOptions ctx
            /\ mOutChunks c2 = mOutChunks c).
  { unfold hasInput, readPaBuffer. rewrite C1, Q1.
    destruct (mInOptions ctx) as [i|] eqn:Ei.
    - cbn [bind deref]. unfold push. rewrite C3, Q3.
      unfold hasInput. rewrite Ei. cbn [quit quitting].
      eexists. split; [reflexivity|]. cbn [mInChunks setInChunks].
      split; [reflexivity|]. split.
      + cbn [mOutOptions setInChunks]. now rewrite C2.
      + cbn [mOutChunks setInChunks]. exact C4.
    - exists c1. repeat split; auto. now rewrite C2. }
  destruct Hrd as (c2 & -> & R1 & R2 & R3). cbn [bind].
  unfold hasOutput, fillPaBuffer. rewrite R2.
  destruct (mOutOptions ctx) as [o|] eqn:Eo.
  - cbn [bind deref]. rewrite R3, Q4. unfold hasOutput. rewrite Eo.
    destruct (fillBuffer_outcome c2 false output (frameBytes o frameCount)
                (quit (mOutChunks ctx)) false ltac:(discriminate)
                (quit_ok _ Hq) (Hr o eq_refl)) as [[st ->]|[_ Hb]];
      [|discriminate].
    cbn [bind]. do 4 eexists. split; [reflexivity|].
    cbn [mInChunks setOutChunks]. exact R1.
  - cbn [bind]. do 4 eexists. split; [reflexivity | exact R1].
Qed.

Lemma callback_after_quit_witness :
  exists rc output' out ctx',
    PaCallback stale 0%float oneFrame (repeat xff 8) 1 (mkTimeInfo 0 0 0) 0
               (PaContext_quit duplex) = Ok (rc, output', out, ctx')
    /\ mInChunks ctx' = mInChunks (PaContext_quit duplex).
Proof.
  apply (callback_after_quit stale 0%float oneFrame (repeat xff 8) 1
           (mkTimeInfo 0 0 0) 0 duplex eq_refl).
  intros o E. inversion E; subst. reflexivity.
Defined.

Example callback_before_and_after_quit :
  PaCallback stale 0%float oneFrame (repeat xff 8) 1 (mkTimeInfo 0 0 0) 0
             duplex = Blocks
  /\ match PaCallback stale 0%float oneFrame (repeat xff 8) 1
                      (mkTimeInfo 0 0 0) 0 (PaContext_quit duplex) with
     | Ok (rc, output', _, _) => (rc, output')
     | _ => (paAbort, [])
     end = (paContinue, repeat x00 8).
Proof. split; reflexivity. Qed.
